(** * fetch_bulk_JGI: selection and retrieval pipeline

    A shallow embedding of [fetch_bulk_JGI.py]: the search-result parser,
    the version detector, the selection engine with its latest-only
    refinement, and the restore poll loop, followed by the properties the
    design document states about them.

    Conventions of the embedding.
    - A decoded JSON document is a value of [json].  Numbers are integers;
      numbers with a fractional part are outside the model.
    - Text is [string], read as a sequence of ASCII characters.  The case
      mappings, the whitespace class and the slices are the ASCII ones;
      where a property depends on what Python does beyond ASCII, it is
      stated for plain text.
    - The library functions [fnmatch.fnmatch] and [time.sleep], whose
      answers depend on the platform, are parameters.
    - A Python exception is a value of [exn]; code that can raise returns
      [result].
    - A Python [dict] is an association list in insertion order. *)

From Stdlib Require Import List String Ascii ZArith Bool Lia DecimalString.
Import ListNotations.

Local Open Scope string_scope.
Local Open Scope list_scope.
Local Open Scope Z_scope.

(** ** Exceptions and the error monad *)

Inductive exn : Type :=
| TypeError
| AttributeError
| ValueError
| OverflowError
| RecursionError
| RuntimeError (msg : string)
| TimeoutError (msg : string).

Inductive result (A : Type) : Type :=
| Ok (a : A)
| Err (e : exn).

Arguments Ok {A} a.
Arguments Err {A} e.

Definition bind {A B : Type} (m : result A) (k : A -> result B) : result B :=
  match m with
  | Ok a => k a
  | Err e => Err e
  end.

Notation "x <- m ;; k" := (bind m (fun x => k))
  (at level 61, m at next level, right associativity).

Notation "' pat <- m ;; k" := (bind m (fun x => match x with pat => k end))
  (at level 61, pat pattern, m at next level, right associativity).

(** [for x in xs: st = body(st, x)], stopping at the first exception. *)
Fixpoint for_each {S A : Type} (body : S -> A -> result S) (xs : list A) (st : S)
  : result S :=
  match xs with
  | [] => Ok st
  | x :: xs' => st' <- body st x ;; for_each body xs' st'
  end.

(** ** JSON values as Python sees them *)

#[local] Set Warnings "-register-all".

Inductive json : Type :=
| JNull
| JBool (b : bool)
| JNum (n : Z)
| JStr (s : string)
| JList (l : list json)
| JDict (d : list (string * json)).

(** Python truth value. *)
Definition truthy (v : json) : bool :=
  match v with
  | JNull => false
  | JBool b => b
  | JNum n => negb (n =? 0)
  | JStr s => negb (s =? "")%string
  | JList l => match l with [] => false | _ => true end
  | JDict d => match d with [] => false | _ => true end
  end.

(** [a or b]. *)
Definition py_or (a b : json) : json := if truthy a then a else b.

Fixpoint assoc (k : string) (d : list (string * json)) : option json :=
  match d with
  | [] => None
  | (k', v) :: d' => if (k' =? k)%string then Some v else assoc k d'
  end.

(** [obj.get(k)]: only a dict has the method; a missing key gives [None]. *)
Definition py_get (obj : json) (k : string) : result json :=
  match obj with
  | JDict d => Ok (match assoc k d with Some v => v | None => JNull end)
  | _ => Err AttributeError
  end.

Fixpoint chars (s : string) : list json :=
  match s with
  | EmptyString => []
  | String c s' => JStr (String c EmptyString) :: chars s'
  end.

(** The items a [for] loop draws from a value. *)
Definition py_iter (v : json) : result (list json) :=
  match v with
  | JList l => Ok l
  | JStr s => Ok (chars s)
  | JDict d => Ok (map (fun kv => JStr (fst kv)) d)
  | _ => Err TypeError
  end.

(** ** Text *)

Definition is_upper (c : ascii) : bool :=
  let n := nat_of_ascii c in (65 <=? n)%nat && (n <=? 90)%nat.

Definition is_lower (c : ascii) : bool :=
  let n := nat_of_ascii c in (97 <=? n)%nat && (n <=? 122)%nat.

Definition lower_char (c : ascii) : ascii :=
  if is_upper c then ascii_of_nat (nat_of_ascii c + 32) else c.

Definition upper_char (c : ascii) : ascii :=
  if is_lower c then ascii_of_nat (nat_of_ascii c - 32) else c.

Fixpoint str_map (f : ascii -> ascii) (s : string) : string :=
  match s with
  | EmptyString => EmptyString
  | String c s' => String (f c) (str_map f s')
  end.

(** [s.lower()] and [s.upper()]. *)
Definition str_lower : string -> string := str_map lower_char.
Definition str_upper : string -> string := str_map upper_char.

(** [v.upper()]: only a str has the method. *)
Definition py_upper (v : json) : result string :=
  match v with
  | JStr s => Ok (str_upper s)
  | _ => Err AttributeError
  end.

Fixpoint str_prefix (p s : string) : bool :=
  match p, s with
  | EmptyString, _ => true
  | String a p', String b s' => Ascii.eqb a b && str_prefix p' s'
  | String _ _, EmptyString => false
  end.

(** [needle in s]. *)
Fixpoint str_contains (needle s : string) : bool :=
  str_prefix needle s ||
  match s with
  | EmptyString => false
  | String _ s' => str_contains needle s'
  end.

(** [s[:n]] for [n >= 0]. *)
Fixpoint str_take (n : Z) (s : string) : string :=
  match s with
  | EmptyString => EmptyString
  | String c s' => if n <=? 0 then EmptyString else String c (str_take (n - 1) s')
  end.

Definition len (s : string) : Z := Z.of_nat (String.length s).

(** [sep.join(xs)] on strs. *)
Fixpoint str_join (sep : string) (xs : list string) : string :=
  match xs with
  | [] => ""
  | [x] => x
  | x :: xs' => (x ++ sep ++ str_join sep xs')%string
  end.

Fixpoint all_strs (xs : list json) : result (list string) :=
  match xs with
  | [] => Ok []
  | JStr s :: xs' => ss <- all_strs xs' ;; Ok (s :: ss)
  | _ :: _ => Err TypeError
  end.

(** [sep.join(xs)]: every item must be a str. *)
Definition py_join (sep : string) (xs : list json) : result string :=
  ss <- all_strs xs ;; Ok (str_join sep ss).

(** ** Version detection

    The three patterns of [PHYTOZOME_VER_PATTERNS] use literals, the
    classes [\s], [[_/-]] and [[0-9]], the greedy star and one capturing
    group [([0-9]{1,2})].  [regex] covers exactly that fragment, and
    [match_here] is the backtracking matcher: it gives the text of group 1
    of the match starting at the head of the subject. *)

Inductive atom : Type :=
| Chr (c : ascii)     (* a literal, compared under re.IGNORECASE *)
| Space               (* \s *)
| Sep                 (* [_/-] *)
| Digit.              (* [0-9] *)

Inductive item : Type :=
| One (a : atom)      (* a *)
| Star (a : atom)     (* a*, greedy *)
| Digits12.           (* ([0-9]{1,2}), greedy *)

Definition regex : Type := list item.

Definition is_space (c : ascii) : bool :=
  let n := nat_of_ascii c in
  ((9 <=? n) && (n <=? 13) || (28 <=? n) && (n <=? 32))%nat.

Definition is_sep (c : ascii) : bool :=
  Ascii.eqb c "_" || Ascii.eqb c "/" || Ascii.eqb c "-".

Definition is_digit (c : ascii) : bool :=
  let n := nat_of_ascii c in (48 <=? n)%nat && (n <=? 57)%nat.

Definition atom_matches (a : atom) (c : ascii) : bool :=
  match a with
  | Chr x => Ascii.eqb (lower_char c) (lower_char x)
  | Space => is_space c
  | Sep => is_sep c
  | Digit => is_digit c
  end.

(** [a*] followed by the continuation [k]: the longest run first, then
    one character less, and so on. *)
Fixpoint star (a : atom) (k : string -> option string) (s : string)
  : option string :=
  match s with
  | String c s' =>
      if atom_matches a c then
        match star a k s' with
        | Some g => Some g
        | None => k s
        end
      else k s
  | EmptyString => k s
  end.

(** [([0-9]{1,2})] followed by [k]: two digits first, then one. *)
Definition digits12 (k : string -> option string) (s : string) : option string :=
  match s with
  | String c1 s1 =>
      if is_digit c1 then
        let one := match k s1 with
                   | Some _ => Some (String c1 EmptyString)
                   | None => None
                   end in
        match s1 with
        | String c2 s2 =>
            if is_digit c2 then
              match k s2 with
              | Some _ => Some (String c1 (String c2 EmptyString))
              | None => one
              end
            else one
        | EmptyString => one
        end
      else None
  | EmptyString => None
  end.

Fixpoint match_here (r : regex) (s : string) {struct r} : option string :=
  match r with
  | [] => Some EmptyString
  | One a :: r' =>
      match s with
      | String c s' => if atom_matches a c then match_here r' s' else None
      | EmptyString => None
      end
  | Star a :: r' => star a (match_here r') s
  | Digits12 :: r' => digits12 (match_here r') s
  end.

(** [pat.search(s)]: the leftmost start at which the pattern matches;
    the result is [m.group(1)]. *)
Fixpoint search (r : regex) (s : string) : option string :=
  match match_here r s with
  | Some g => Some g
  | None =>
      match s with
      | String _ s' => search r s'
      | EmptyString => None
      end
  end.

Fixpoint lit (s : string) : regex :=
  match s with
  | EmptyString => []
  | String c s' => One (Chr c) :: lit s'
  end.

Definition PHYTOZOME_VER_PATTERNS : list regex :=
  [ lit "phytozomev" ++ [Star Space; Digits12];
    lit "phytozome"
      ++ [Star Space; Star Sep; Star Space; One (Chr "v"); Star Space; Digits12];
    lit "phytozome" ++ [Star Space; Digits12] ].

Definition digit_val (c : ascii) : Z := Z.of_nat (nat_of_ascii c) - 48.

Fixpoint int_digits (acc : Z) (s : string) : option Z :=
  match s with
  | EmptyString => Some acc
  | String c s' => if is_digit c then int_digits (10 * acc + digit_val c) s' else None
  end.

(** [int(s)] on a run of decimal digits; [None] stands for [ValueError]. *)
Definition py_int (s : string) : option Z :=
  match s with
  | EmptyString => None
  | _ => int_digits 0 s
  end.

Fixpoint first_match (pats : list regex) (s : string) : option Z :=
  match pats with
  | [] => None
  | pat :: pats' =>
      match search pat s with
      | Some g => py_int g
      | None => first_match pats' s
      end
  end.

Definition extract_phytozome_version (text : string) : option Z :=
  first_match PHYTOZOME_VER_PATTERNS text.

(** ** String harvesting and the haystack *)

(** [collect_strings(obj, out, max_strings)]; the list returned is [out]
    after the call.  [out] holds Python objects: the caller seeds it with
    the value of [file_name], whatever its type. *)
Fixpoint collect_strings (obj : json) (out : list json) (max_strings : Z)
  {struct obj} : list json :=
  if Z.of_nat (List.length out) >=? max_strings then out
  else
    match obj with
    | JStr s => out ++ [JStr s]
    | JDict d =>
        (fix items (d : list (string * json)) (out : list json) : list json :=
           match d with
           | [] => out
           | (k, v) :: d' =>
               if Z.of_nat (List.length out) >=? max_strings then out
               else items d' (collect_strings v (out ++ [JStr k]) max_strings)
           end) d out
    | JList l =>
        (fix elems (l : list json) (out : list json) : list json :=
           match l with
           | [] => out
           | v :: l' =>
               if Z.of_nat (List.length out) >=? max_strings then out
               else elems l' (collect_strings v out max_strings)
           end) l out
    | _ => out
    end.

(** [isinstance(s, str) and "phytozome" in s.lower()]. *)
Definition mentions_phytozome (s : json) : bool :=
  match s with
  | JStr t => str_contains "phytozome" (str_lower t)
  | _ => false
  end.

(** The list [strings] of [build_version_haystack] after the harvest. *)
Definition harvest (file_obj : json) : result (list json) :=
  fname0 <- py_get file_obj "file_name" ;;
  let fname := py_or fname0 (JStr "") in
  let strings := if truthy fname then [fname] else [] in
  Ok (collect_strings file_obj strings 2000).

(** [phytozome_strings if phytozome_strings else strings]. *)
Definition chosen_strings (strings : list json) : list json :=
  match filter mentions_phytozome strings with
  | [] => strings
  | phytozome_strings => phytozome_strings
  end.

Definition build_version_haystack (file_obj : json) : result string :=
  strings <- harvest file_obj ;;
  haystack <- py_join " " (chosen_strings strings) ;;
  Ok (str_take 200000 haystack).

(** The detector as [parse_search] runs it on a file object. *)
Definition detect (file_obj : json) : result (option Z) :=
  haystack <- build_version_haystack file_obj ;;
  Ok (extract_phytozome_version haystack).

(** *** The traversal on the stack of the interpreter

    [collect_strings] calls itself once for every level of nesting, and
    a call that finds the stack of the interpreter full raises
    [RecursionError].  [collect_strings_within frames] is the function
    run when the interpreter admits [frames] more nested calls: a
    thousand, less the depth of the caller, unless the limit was reset.
    [collect_strings] above is the run that never meets that limit. *)
Fixpoint collect_strings_within (frames : nat) (obj : json) (out : list json)
         (max_strings : Z) {struct frames} : result (list json) :=
  match frames with
  | O => Err RecursionError
  | S frames' =>
      if Z.of_nat (List.length out) >=? max_strings then Ok out
      else
        match obj with
        | JStr s => Ok (out ++ [JStr s])
        | JDict d =>
            (fix items (d : list (string * json)) (out : list json)
               : result (list json) :=
               match d with
               | [] => Ok out
               | (k, v) :: d' =>
                   if Z.of_nat (List.length out) >=? max_strings then Ok out
                   else
                     out' <- collect_strings_within frames' v (out ++ [JStr k])
                                                    max_strings ;;
                     items d' out'
               end) d out
        | JList l =>
            (fix elems (l : list json) (out : list json) : result (list json) :=
               match l with
               | [] => Ok out
               | v :: l' =>
                   if Z.of_nat (List.length out) >=? max_strings then Ok out
                   else
                     out' <- collect_strings_within frames' v out max_strings ;;
                     elems l' out'
               end) l out
        | _ => Ok out
        end
  end.

Definition harvest_within (frames : nat) (file_obj : json) : result (list json) :=
  fname0 <- py_get file_obj "file_name" ;;
  let fname := py_or fname0 (JStr "") in
  let strings := if truthy fname then [fname] else [] in
  collect_strings_within frames file_obj strings 2000.

Definition build_version_haystack_within (frames : nat) (file_obj : json)
  : result string :=
  strings <- harvest_within frames file_obj ;;
  haystack <- py_join " " (chosen_strings strings) ;;
  Ok (str_take 200000 haystack).

Definition detect_within (frames : nat) (file_obj : json) : result (option Z) :=
  haystack <- build_version_haystack_within frames file_obj ;;
  Ok (extract_phytozome_version haystack).

(** ** Dictionaries keyed by identifiers

    Keys are compared as Python hashes and compares them: [True] and [1]
    are the same key, lists and dicts cannot be keys. *)

Inductive pykey : Type :=
| KNone
| KInt (n : Z)
| KStr (s : string).

Definition key_of (v : json) : option pykey :=
  match v with
  | JNull => Some KNone
  | JBool b => Some (KInt (if b then 1 else 0))
  | JNum n => Some (KInt n)
  | JStr s => Some (KStr s)
  | JList _ | JDict _ => None
  end.

Definition pykey_eqb (a b : pykey) : bool :=
  match a, b with
  | KNone, KNone => true
  | KInt m, KInt n => m =? n
  | KStr s, KStr t => (s =? t)%string
  | _, _ => false
  end.

(** [Dict[str, List[str]]] in insertion order. *)
Definition pydict : Type := list (json * list json).

Fixpoint append_at (k : pykey) (ds fid : json) (m : pydict) : pydict :=
  match m with
  | [] => [(ds, [fid])]
  | (d, fids) :: m' =>
      match key_of d with
      | Some k' =>
          if pykey_eqb k' k then (d, fids ++ [fid]) :: m'
          else (d, fids) :: append_at k ds fid m'
      | None => (d, fids) :: append_at k ds fid m'
      end
  end.

(** [m.setdefault(ds, []).append(fid)]. *)
Definition setdefault_append (ds fid : json) (m : pydict) : result pydict :=
  match key_of ds with
  | Some k => Ok (append_at k ds fid m)
  | None => Err TypeError
  end.

(** The loop of [dedup]: [seen] is the set, [out] the list built so far. *)
Fixpoint dedup_loop (xs : list json) (seen : list pykey) (out : list json)
  : result (list json) :=
  match xs with
  | [] => Ok out
  | x :: xs' =>
      match key_of x with
      | None => Err TypeError
      | Some k =>
          if existsb (pykey_eqb k) seen then dedup_loop xs' seen out
          else dedup_loop xs' (k :: seen) (out ++ [x])
      end
  end.

Definition dedup (xs : list json) : result (list json) := dedup_loop xs [] [].

(** [{k: dedup(v) for k, v in m.items()}]. *)
Fixpoint dedup_values (m : pydict) : result pydict :=
  match m with
  | [] => Ok []
  | (k, v) :: m' =>
      v' <- dedup v ;;
      m'' <- dedup_values m' ;;
      Ok ((k, v') :: m'')
  end.

(** ** The manifest *)

(** One row of the manifest.  [phytozome_version] is [None] where the
    Python row holds the empty string. *)
Record row : Type := mkRow {
  dataset_id : json;
  file_id : json;
  file_name : json;
  file_status : string;
  phytozome_version : option Z;
  selected : bool
}.

Definition set_selected (b : bool) (r : row) : row :=
  mkRow (dataset_id r) (file_id r) (file_name r) (file_status r)
        (phytozome_version r) b.

(** The accumulators of [parse_search]. *)
Record pstate : Type := mkState {
  manifest_rows : list row;
  selected_ids : pydict;
  selected_purged : pydict
}.

Definition py_get_default (obj : json) (k : string) (default : json) : result json :=
  match obj with
  | JDict d => Ok (match assoc k d with Some v => v | None => default end)
  | _ => Err AttributeError
  end.

(** Truth value of a Python list or dict held as a list. *)
Definition nonempty {A : Type} (l : list A) : bool :=
  match l with [] => false | _ :: _ => true end.

Section Parser.

(** [fnmatch.fnmatch name pattern] of the Python library, on strs. *)
Variable fnmatch : string -> string -> bool.

(** [any(fnmatch.fnmatch(filename, g) for g in globs)]; the library
    raises [TypeError] on a name that is not a str. *)
Definition matches_any_glob (filename : json) (globs : list string) : result bool :=
  match globs with
  | [] => Ok false
  | _ :: _ =>
      match filename with
      | JStr name => Ok (existsb (fnmatch name) globs)
      | _ => Err TypeError
      end
  end.

(** The include/exclude block of [parse_search]. *)
Definition glob_selection (fname : json) (include_globs exclude_globs : list string)
  : result bool :=
  selected <- (if nonempty include_globs
               then matches_any_glob fname include_globs
               else Ok true) ;;
  if selected && nonempty exclude_globs then
    excluded <- matches_any_glob fname exclude_globs ;;
    Ok (if excluded then false else selected)
  else Ok selected.

(** The body of [for f in files]. *)
Definition parse_file (include_globs exclude_globs : list string)
           (dataset_id : json) (st : pstate) (f : json) : result pstate :=
  fid <- py_get f "_id" ;;
  fname0 <- py_get f "file_name" ;;
  let fname := py_or fname0 (JStr "") in
  status0 <- py_get f "file_status" ;;
  status <- py_upper (py_or status0 (JStr "")) ;;
  if negb (truthy fid) || negb (truthy fname) then Ok st
  else
    selected <- glob_selection fname include_globs exclude_globs ;;
    haystack <- build_version_haystack f ;;
    let pver := extract_phytozome_version haystack in
    let rows := manifest_rows st
                ++ [mkRow dataset_id fid fname status pver selected] in
    if negb selected then Ok (mkState rows (selected_ids st) (selected_purged st))
    else
      ids <- setdefault_append dataset_id fid (selected_ids st) ;;
      purged <- (if (status =? "PURGED")%string
                 then setdefault_append dataset_id fid (selected_purged st)
                 else Ok (selected_purged st)) ;;
      Ok (mkState rows ids purged).

(** The body of [for org in organisms]. *)
Definition parse_org (include_globs exclude_globs : list string)
           (st : pstate) (org : json) : result pstate :=
  dataset_id <- py_get org "id" ;;
  if negb (truthy dataset_id) then Ok st
  else
    files0 <- py_get_default org "files" (JList []) ;;
    files <- py_iter (py_or files0 (JList [])) ;;
    for_each (parse_file include_globs exclude_globs dataset_id) files st.

(** The two loops of [parse_search], before the final [dedup]. *)
Definition parse_loops (search_json : json) (include_globs exclude_globs : list string)
  : result pstate :=
  organisms0 <- py_get_default search_json "organisms" (JList []) ;;
  organisms <- py_iter (py_or organisms0 (JList [])) ;;
  for_each (parse_org include_globs exclude_globs) organisms (mkState [] [] []).

Definition parse_search (search_json : json) (include_globs exclude_globs : list string)
  : result (list row * pydict * pydict) :=
  st <- parse_loops search_json include_globs exclude_globs ;;
  ids <- dedup_values (selected_ids st) ;;
  purged <- dedup_values (selected_purged st) ;;
  Ok (manifest_rows st, ids, purged).

End Parser.

(** ** Latest-only refinement *)

(** The versions of the selected rows that carry one, in manifest order. *)
Definition selected_versions (rows : list row) : list Z :=
  flat_map (fun r =>
              if selected r then
                match phytozome_version r with
                | Some v => [v]
                | None => []
                end
              else []) rows.

(** [max(x :: xs)]. *)
Definition py_max (x : Z) (xs : list Z) : Z := fold_left Z.max xs x.

(** The second loop of [apply_latest_only], on one row. *)
Definition refine_row (max_ver : Z) (r : row) : row :=
  if negb (selected r) then r
  else
    match phytozome_version r with
    | None => set_selected false r
    | Some v => if negb (v =? max_ver) then set_selected false r else r
    end.

(** [apply_latest_only] updates the rows in place; the list returned is
    the manifest after the call. *)
Definition apply_latest_only (manifest_rows : list row) : list row :=
  match selected_versions manifest_rows with
  | [] => manifest_rows
  | v :: vs => map (refine_row (py_max v vs)) manifest_rows
  end.

(** The body of the loop of [rebuild_selected_maps]. *)
Definition rebuild_row (st : pydict * pydict) (r : row) : result (pydict * pydict) :=
  if negb (selected r) then Ok st
  else
    ids <- setdefault_append (dataset_id r) (file_id r) (fst st) ;;
    purged <- (if (file_status r =? "PURGED")%string
               then setdefault_append (dataset_id r) (file_id r) (snd st)
               else Ok (snd st)) ;;
    Ok (ids, purged).

Definition rebuild_selected_maps (manifest_rows : list row)
  : result (pydict * pydict) :=
  st <- for_each rebuild_row manifest_rows ([], []) ;;
  ids <- dedup_values (fst st) ;;
  purged <- dedup_values (snd st) ;;
  Ok (ids, purged).

(** What [main] prints about the refinement: the warning is issued when
    latest-only is on and no selected row of the final manifest carries a
    version. *)
Definition no_effect_warning (latest_only : bool) (manifest_rows : list row) : bool :=
  latest_only && negb (nonempty (selected_versions manifest_rows)).

Section Main.

Variable fnmatch : string -> string -> bool.

(** Steps 2 and 3 of the loop of [main]: the final manifest, the two
    selection maps handed to restore and download, and the warning. *)
Definition select_files (latest_only : bool) (search_json : json)
           (include_globs exclude_globs : list string)
  : result (list row * pydict * pydict * bool) :=
  '(rows, ids, purged) <- parse_search fnmatch search_json include_globs exclude_globs ;;
  '(rows, ids, purged) <-
    (if latest_only then
       let rows' := apply_latest_only rows in
       '(ids', purged') <- rebuild_selected_maps rows' ;;
       Ok (rows', ids', purged')
     else Ok (rows, ids, purged)) ;;
  Ok (rows, ids, purged, no_effect_warning latest_only rows).

End Main.

(** ** Restore poll loop

    The archive is a stream of status documents: [remote n] is the answer
    to the [n]-th status request.  Each run leaves a log of what it did.
    Failures of the transport itself are outside the model. *)

Inductive event : Type :=
| Polled (status : string)
| Slept (seconds : Z).

(** [str(n)] of an integer. *)
Definition py_str_int (n : Z) : string := NilZero.string_of_int (Z.to_int n).

(** The messages of the three failures.  The last one goes on, in the
    source, with the list of the keys of the response, which is left
    out. *)
Definition expired_msg : string := "Restore request EXPIRED (re-run restore).".
Definition timeout_msg (max_wait_seconds : Z) : string :=
  "Timed out waiting for restore after " ++ py_str_int max_wait_seconds ++ " seconds.".
Definition no_status_url_msg : string := "Restore response missing status URL.".

(** [(status_resp.get("status") or "").upper()]. *)
Definition poll_status (status_resp : json) : result string :=
  s <- py_get status_resp "status" ;;
  py_upper (py_or s (JStr "")).

(** The [while True] loop of [ensure_restored], run for at most [fuel]
    iterations; [None] means the loop is still running after them.  [n]
    counts the status requests already made.  [sleep] is [time.sleep] of
    the Python library: whether it sleeps or raises on a given number of
    seconds is for the interpreter and the operating system to say. *)
Fixpoint poll_loop (sleep : Z -> result unit) (fuel : nat) (remote : nat -> json)
         (poll_seconds max_wait_seconds : Z)
         (n : nat) (waited : Z) (log : list event)
  : option (result unit * list event) :=
  match fuel with
  | O => None
  | S fuel' =>
      match poll_status (remote n) with
      | Err e => Some (Err e, log)
      | Ok status =>
          let log := log ++ [Polled status] in
          if (status =? "READY")%string then Some (Ok tt, log)
          else if (status =? "EXPIRED")%string
               then Some (Err (RuntimeError expired_msg), log)
          else
            match sleep poll_seconds with
            | Err e => Some (Err e, log)
            | Ok _ =>
                let log := log ++ [Slept poll_seconds] in
                let waited := waited + poll_seconds in
                if waited >=? max_wait_seconds
                then Some (Err (TimeoutError (timeout_msg max_wait_seconds)), log)
                else poll_loop sleep fuel' remote poll_seconds max_wait_seconds
                               (S n) waited log
            end
      end
  end.

(** [ensure_restored]; [restore_resp] is the answer to the restore
    request. *)
Definition ensure_restored (sleep : Z -> result unit) (fuel : nat)
           (purged_by_dataset : pydict)
           (restore_resp : json) (remote : nat -> json)
           (poll_seconds max_wait_seconds : Z)
  : option (result unit * list event) :=
  if negb (nonempty purged_by_dataset) then Some (Ok tt, [])
  else
    match (u <- py_get restore_resp "request_status_url" ;;
           if truthy u then Ok u else py_get restore_resp "requestStatusUrl") with
    | Err e => Some (Err e, [])
    | Ok status_url =>
        if negb (truthy status_url)
        then Some (Err (RuntimeError no_status_url_msg), [])
        else poll_loop sleep fuel remote poll_seconds max_wait_seconds 0%nat 0 []
    end.

(** ** Reading the query batch

    [read_queries_csv] is modelled from the rows that [csv.reader] yields
    for the file; opening the file and guessing the dialect are outside
    the model. *)

(** [s.lstrip()], [s.rstrip()] and [s.strip()]. *)
Fixpoint str_lstrip (s : string) : string :=
  match s with
  | EmptyString => EmptyString
  | String c s' => if is_space c then str_lstrip s' else s
  end.

Fixpoint str_rstrip (s : string) : string :=
  match s with
  | EmptyString => EmptyString
  | String c s' =>
      match str_rstrip s' with
      | EmptyString => if is_space c then EmptyString else String c EmptyString
      | r => String c r
      end
  end.

Definition str_strip (s : string) : string := str_rstrip (str_lstrip s).

(** [x in xs] on strs. *)
Definition mem_str (x : string) (xs : list string) : bool :=
  existsb (String.eqb x) xs.

(** The test [has_header] on the first row. *)
Definition has_header (first : list string) : bool :=
  let first_lower := map (fun c => str_lower (str_strip c)) first in
  (mem_str "name" first_lower
   && (mem_str "search_url" first_lower || mem_str "url" first_lower))
  || ((2 <=? List.length first_lower)%nat
      && (nth 0 first_lower "" =? "name")%string
      && mem_str (nth 1 first_lower "") ["search_url"; "url"]).

(** [d[k] = v] on a dict with str keys. *)
Fixpoint dict_set {V : Type} (k : string) (v : V) (d : list (string * V))
  : list (string * V) :=
  match d with
  | [] => [(k, v)]
  | (k', v') :: d' =>
      if (k' =? k)%string then (k, v) :: d' else (k', v') :: dict_set k v d'
  end.

Fixpoint dict_get {V : Type} (k : string) (d : list (string * V)) : option V :=
  match d with
  | [] => None
  | (k', v) :: d' => if (k' =? k)%string then Some v else dict_get k d'
  end.

(** The dict that [csv.DictReader] makes of a row: [dict(zip(fieldnames,
    row))], then [None] under the field names the row is too short for.
    A value is [None] or a str; the fields a longer row has in excess go
    under the key [None], which is not a str and is left out. *)
Definition dict_row (fieldnames row : list string) : list (string * option string) :=
  let d := fold_left (fun d kv => dict_set (fst kv) (Some (snd kv)) d)
                     (combine fieldnames row) [] in
  if (List.length row <? List.length fieldnames)%nat
  then fold_left (fun d key => dict_set key None d)
                 (skipn (List.length row) fieldnames) d
  else d.

(** [r.get(k) or ""]. *)
Definition get_or_empty (r : list (string * option string)) (k : string) : string :=
  match dict_get k r with
  | Some (Some v) => v
  | _ => ""
  end.

(** The body of [for r in dr] with its test; [None] when nothing is
    appended. *)
Definition header_row (fieldnames r : list string) : option (string * string) :=
  let d := dict_row fieldnames r in
  let name := str_strip (get_or_empty d "name") in
  let url := str_strip (if negb (get_or_empty d "search_url" =? "")%string
                        then get_or_empty d "search_url"
                        else get_or_empty d "url") in
  if negb (name =? "")%string && negb (url =? "")%string
  then Some (name, url) else None.

(** [add_row]; [None] when nothing is appended. *)
Definition add_row (r : list string) : option (string * string) :=
  match r with
  | c0 :: c1 :: _ =>
      let name := str_strip c0 in
      let url := str_strip c1 in
      if negb (name =? "")%string && negb (url =? "")%string
      then Some (name, url) else None
  | _ => None
  end.

Definition keep_some {A B : Type} (f : A -> option B) (xs : list A) : list B :=
  flat_map (fun x => match f x with Some y => [y] | None => [] end) xs.

(** [read_queries_csv] on the rows of the file.  [csv.DictReader] takes
    the first row as field names and passes over empty rows. *)
Definition read_queries_csv (csv_rows : list (list string))
  : result (list (string * string)) :=
  match csv_rows with
  | [] => Err ValueError
  | first :: rest =>
      let rows :=
        if has_header first
        then keep_some (header_row first) (filter (fun r => nonempty r) rest)
        else keep_some add_row (first :: rest) in
      if nonempty rows then Ok rows else Err ValueError
  end.

(** ** One query of [main] *)

(** [sum(1 for r in manifest_rows if r["selected"])]. *)
Definition n_selected (manifest_rows : list row) : nat :=
  List.length (filter selected manifest_rows).

(** [sum(1 for r in manifest_rows if r["selected"] and
    r["file_status"] == "PURGED")]. *)
Definition n_purged (manifest_rows : list row) : nat :=
  List.length (filter (fun r => selected r && (file_status r =? "PURGED")%string)
                      manifest_rows).

(** What the archive answers during one query: the search response, the
    answer to the restore request and the stream of status documents. *)
Record query_input : Type := mkQuery {
  q_search : json;
  q_restore : json;
  q_remote : nat -> json
}.

(** What one turn of the loop of [main] does when it does not raise:
    it passes over the query, or restores (the log) and downloads the
    identifiers of [ids]. *)
Inductive query_result : Type :=
| Skipped (manifest_rows : list row)
| Downloaded (manifest_rows : list row) (log : list event) (ids : pydict).

Section MainLoop.

Variable fnmatch : string -> string -> bool.
Variable sleep : Z -> result unit.
Variable latest_only : bool.
Variables include_globs exclude_globs : list string.
Variables poll_seconds max_wait_seconds : Z.

(** The body of [for name, url in queries]; [None] when the poll loop is
    still running after [fuel] iterations. *)
Definition process_query (fuel : nat) (q : query_input) : option (result query_result) :=
  match select_files fnmatch latest_only (q_search q) include_globs exclude_globs with
  | Err e => Some (Err e)
  | Ok (rows, ids, purged, _) =>
      if (n_selected rows =? 0)%nat then Some (Ok (Skipped rows))
      else
        match ensure_restored sleep fuel purged (q_restore q) (q_remote q)
                              poll_seconds max_wait_seconds with
        | None => None
        | Some (Err e, _) => Some (Err e)
        | Some (Ok _, log) => Some (Ok (Downloaded rows log ids))
        end
  end.

(** The loop over the queries: the results of the queries done, and the
    exception that ended the run, if any. *)
Fixpoint run_queries (fuel : nat) (queries : list query_input)
  : option (list query_result * option exn) :=
  match queries with
  | [] => Some ([], None)
  | q :: queries' =>
      match process_query fuel q with
      | None => None
      | Some (Err e) => Some ([], Some e)
      | Some (Ok r) =>
          match run_queries fuel queries' with
          | None => None
          | Some (rs, e) => Some (r :: rs, e)
          end
      end
  end.

End MainLoop.

(** * Vocabulary of the properties *)

(** A character mapping that no atom of a pattern can tell from the
    identity, and that leaves digits alone. *)
Definition case_mapping (f : ascii -> ascii) : Prop :=
  (forall a c, atom_matches a (f c) = atom_matches a c) /\
  (forall c, is_digit c = true -> f c = c).

(** The text of group 1: one or two decimal digits. *)
Definition is_capture (g : string) : Prop :=
  (exists c1, g = String c1 EmptyString /\ is_digit c1 = true) \/
  (exists c1 c2, g = String c1 (String c2 EmptyString)
                 /\ is_digit c1 = true /\ is_digit c2 = true).

(** The pattern contains the capturing group. *)
Definition has_group (r : regex) : bool :=
  existsb (fun i => match i with Digits12 => true | _ => false end) r.

(** What a run of the loop over the patterns can be: every pattern
    misses, or [pat] is the first one that hits and [g] is its group 1. *)
Inductive first_hit (pats : list regex) (s : string) : option string -> Prop :=
| all_miss :
    Forall (fun pat => search pat s = None) pats ->
    first_hit pats s None
| hit before pat after g :
    pats = before ++ pat :: after ->
    Forall (fun pat' => search pat' s = None) before ->
    search pat s = Some g ->
    first_hit pats s (Some g).

(** [isinstance(v, str)]. *)
Definition is_str (v : json) : Prop := exists s, v = JStr s.

(** What one call of the harvester may do to [out]: append strs, and
    never grow it past the cap. *)
Definition harvests (max_strings : Z) (g : list json -> list json) : Prop :=
  forall out,
    exists added,
      g out = out ++ added /\
      Forall is_str added /\
      Z.of_nat (List.length (g out)) <= Z.max (Z.of_nat (List.length out)) max_strings.

(** The value of [file_name], where it is present and not empty, is a
    str. *)
Definition name_is_text (d : list (string * json)) : Prop :=
  forall v, assoc "file_name" d = Some v -> truthy v = true -> is_str v.

(** The strs of a list of objects. *)
Definition texts (xs : list json) : list string :=
  flat_map (fun v => match v with JStr s => [s] | _ => [] end) xs.

(** The value can be a dict key or a set member. *)
Definition hashable (v : json) : Prop := key_of v <> None.

(** The keys of the hashable items of a list, in order. *)
Definition keys (xs : list json) : list pykey :=
  flat_map (fun x => match key_of x with Some k => [k] | None => [] end) xs.

(** The items [dedup] keeps from [xs] when [seen] holds the keys met
    before: the list [out] grows by exactly these. *)
Fixpoint kept (seen : list pykey) (xs : list json) : list json :=
  match xs with
  | [] => []
  | x :: xs' =>
      match key_of x with
      | Some k =>
          if existsb (pykey_eqb k) seen then kept seen xs'
          else x :: kept (k :: seen) xs'
      | None => []
      end
  end.

(** Every group of a selection map is already de-duplicated. *)
Definition deduplicated (m : pydict) : Prop :=
  Forall (fun e => NoDup (keys (snd e)) /\ dedup (snd e) = Ok (snd e)) m.

(** [d.get(k)] on a dict. *)
Definition field (k : string) (d : list (string * json)) : json :=
  match assoc k d with Some v => v | None => JNull end.

(** What one iteration of the loop over the files does to the state,
    when it does not raise. *)
Inductive file_step (fnmatch : string -> string -> bool)
          (include_globs exclude_globs : list string)
          (dataset_id : json) (st : pstate) (f : json) : pstate -> Prop :=
| file_skipped d :
    f = JDict d ->
    truthy (field "_id" d) = false \/ truthy (field "file_name" d) = false ->
    file_step fnmatch include_globs exclude_globs dataset_id st f st
| file_recorded d status sel haystack ids purged :
    f = JDict d ->
    truthy (field "_id" d) = true ->
    truthy (field "file_name" d) = true ->
    py_upper (py_or (field "file_status" d) (JStr "")) = Ok status ->
    glob_selection fnmatch (field "file_name" d) include_globs exclude_globs = Ok sel ->
    build_version_haystack f = Ok haystack ->
    (if sel
     then setdefault_append dataset_id (field "_id" d) (selected_ids st) = Ok ids /\
          (if (status =? "PURGED")%string
           then setdefault_append dataset_id (field "_id" d) (selected_purged st)
           else Ok (selected_purged st)) = Ok purged
     else ids = selected_ids st /\ purged = selected_purged st) ->
    file_step fnmatch include_globs exclude_globs dataset_id st f
      (mkState (manifest_rows st
                ++ [mkRow dataset_id (field "_id" d) (field "file_name" d) status
                          (extract_phytozome_version haystack) sel])
               ids purged).

(** The maps of the parser, before [dedup], are what the loop of
    [rebuild_selected_maps] computes from the rows recorded so far. *)
Definition in_step_with_rebuild (st : pstate) : Prop :=
  for_each rebuild_row (manifest_rows st) ([], [])
  = Ok (selected_ids st, selected_purged st).

(** The selection the design asks for, on a file name that is a str. *)
Definition wanted (fnmatch : string -> string -> bool) (name : string)
           (include_globs exclude_globs : list string) : bool :=
  (if nonempty include_globs then existsb (fnmatch name) include_globs else true)
  && negb (existsb (fnmatch name) exclude_globs).

(** Every row carries the flag the globs ask for. *)
Definition rows_filtered (fnmatch : string -> string -> bool)
           (inc exc : list string) (rows : list row) : Prop :=
  Forall (fun r => forall name, file_name r = JStr name ->
                                selected r = wanted fnmatch name inc exc) rows.

(** Every identifier of a map is the identifier of a row of the same
    dataset that satisfies [P]. *)
Definition drawn_from (P : row -> Prop) (rows : list row) (m : pydict) : Prop :=
  forall e x, In e m -> In x (snd e) ->
    exists r, In r rows /\ P r /\ file_id r = x /\
              key_of (dataset_id r) = key_of (fst e).

(** A selected row of a purged file. *)
Definition purged_row (r : row) : Prop :=
  selected r = true /\ file_status r = "PURGED".

(** Every selected row of a purged file has its identifier, up to the
    equality of keys, in the group of its dataset. *)
Definition covers (rows : list row) (m : pydict) : Prop :=
  forall r, In r rows -> purged_row r ->
    exists e, In e m /\ key_of (fst e) = key_of (dataset_id r) /\
              exists x, In x (snd e) /\ key_of x = key_of (file_id r).

(** The row has a file identifier and a file name that count as true. *)
Definition present (r : row) : Prop :=
  truthy (file_id r) = true /\ truthy (file_name r) = true.

(** What holds of the rows and the two maps after every file. *)
Record parse_invariant (rows : list row) (ids purged : pydict) : Prop := {
  rows_present : Forall present rows;
  ids_drawn : drawn_from (fun r => selected r = true) rows ids;
  purged_drawn : drawn_from purged_row rows purged;
  purged_covers : covers rows purged
}.

(** The dict has no key [k], or holds the empty string under it. *)
Definition missing_or_empty (k : string) (d : list (string * json)) : Prop :=
  assoc k d = None \/ assoc k d = Some (JStr "").

(** Whether the refinement keeps a row selected, [max_ver] being the
    newest version among the selected rows. *)
Definition keeps (max_ver : Z) (r : row) : bool :=
  selected r &&
  match phytozome_version r with
  | Some v => v =? max_ver
  | None => false
  end.

(** The text holds ASCII characters only.  On such a text the case
    mappings, the whitespace class and the slices of this development
    are those of Python's [str]. *)
Fixpoint is_plain (s : string) : bool :=
  match s with
  | EmptyString => true
  | String c s' => (nat_of_ascii c <? 128)%nat && is_plain s'
  end.

Definition plain (s : string) : Prop := is_plain s = true.

(** The status read at the [i]-th request is plain text (the empty text
    when the document has none) that reads, in upper case, neither READY
    nor EXPIRED. *)
Definition pending (remote : nat -> json) (i : nat) : Prop :=
  exists v s,
    py_get (remote i) "status" = Ok v /\ py_or v (JStr "") = JStr s /\
    plain s /\ str_upper s <> "READY" /\ str_upper s <> "EXPIRED".

(** The status read at the [i]-th request. *)
Definition status_at (remote : nat -> json) (i : nat) : string :=
  match poll_status (remote i) with
  | Ok s => s
  | Err _ => ""
  end.

(** The log of [k] rounds of polling and sleeping, from request [n] on. *)
Fixpoint rounds (remote : nat -> json) (poll_seconds : Z) (n k : nat) : list event :=
  match k with
  | O => []
  | S k' =>
      Polled (status_at remote n) :: Slept poll_seconds
             :: rounds remote poll_seconds (S n) k'
  end.

(** A value that is a str unless it counts as false. *)
Definition text_or_empty (v : json) : Prop := truthy v = true -> is_str v.

(** A value that can be a dict key unless it counts as false. *)
Definition id_like (v : json) : Prop := truthy v = true -> hashable v.

(** A list of items that satisfy [P], or a value that counts as false. *)
Definition items_ok (P : json -> Prop) (v : json) : Prop :=
  truthy v = false \/ exists l, v = JList l /\ Forall P l.

(** A file entry as the search interface describes it. *)
Definition file_entry_ok (f : json) : Prop :=
  exists d, f = JDict d /\
            id_like (field "_id" d) /\
            text_or_empty (field "file_name" d) /\
            text_or_empty (field "file_status" d).

(** An organism entry as the search interface describes it. *)
Definition organism_ok (org : json) : Prop :=
  exists d, org = JDict d /\
            id_like (field "id" d) /\
            (truthy (field "id" d) = true ->
             items_ok file_entry_ok (field "files" d)).

(** A search response as the search interface describes it. *)
Definition response_ok (search_json : json) : Prop :=
  exists d, search_json = JDict d /\ items_ok organism_ok (field "organisms" d).

(** Every identifier held in a map can be hashed. *)
Definition groups_hashable (m : pydict) : Prop :=
  Forall (fun e => Forall hashable (snd e)) m.

(** The selected rows can be grouped: their dataset and file identifiers
    can be hashed. *)
Definition rows_groupable (rows : list row) : Prop :=
  Forall (fun r => selected r = true ->
                   hashable (dataset_id r) /\ hashable (file_id r)) rows.

(** What the parser keeps true of its state on well-formed input. *)
Definition state_groupable (st : pstate) : Prop :=
  rows_groupable (manifest_rows st) /\
  groups_hashable (selected_ids st) /\ groups_hashable (selected_purged st).

(** The character occurs in the string. *)
Fixpoint has_char (c : ascii) (s : string) : bool :=
  match s with
  | EmptyString => false
  | String x s' => Ascii.eqb x c || has_char c s'
  end.

(** Every string value and key of a JSON value, depth first, in document
    order: the harvest that no cap cuts short. *)
Fixpoint all_strings (obj : json) : list json :=
  match obj with
  | JStr s => [JStr s]
  | JDict d =>
      (fix items (d : list (string * json)) : list json :=
         match d with
         | [] => []
         | (k, v) :: d' => JStr k :: all_strings v ++ items d'
         end) d
  | JList l =>
      (fix elems (l : list json) : list json :=
         match l with
         | [] => []
         | v :: l' => all_strings v ++ elems l'
         end) l
  | _ => []
  end.

(** The room left under the cap. *)
Definition room (max_strings : Z) (out : list json) : nat :=
  Z.to_nat (max_strings - Z.of_nat (List.length out)).

(** A selection map as [setdefault] and [append] build it: every key can
    be hashed, no two keys are equal, no group is empty. *)
Definition map_wf (m : pydict) : Prop :=
  Forall (fun e => hashable (fst e) /\ snd e <> []) m /\
  NoDup (keys (map fst m)).

(** Every row that satisfies [P] has its identifier, up to the equality
    of keys, in the group of its dataset. *)
Definition covers_by (P : row -> Prop) (rows : list row) (m : pydict) : Prop :=
  forall r, In r rows -> P r ->
    exists e, In e m /\ key_of (fst e) = key_of (dataset_id r) /\
              exists x, In x (snd e) /\ key_of x = key_of (file_id r).

(** Every identifier of [m] is, up to the equality of keys, in the group
    of the same dataset in [m']. *)
Definition included (m m' : pydict) : Prop :=
  forall e x, In e m -> In x (snd e) ->
    exists e', In e' m' /\ key_of (fst e') = key_of (fst e) /\
               exists y, In y (snd e') /\ key_of y = key_of x.

(** What [rebuild_selected_maps] establishes between the manifest and its
    two maps. *)
Record maps_of (rows : list row) (ids purged : pydict) : Prop := {
  ids_wf : map_wf ids;
  purged_wf : map_wf purged;
  ids_from : drawn_from (fun r => selected r = true) rows ids;
  purged_from : drawn_from purged_row rows purged;
  ids_cover : covers_by (fun r => selected r = true) rows ids;
  purged_cover : covers_by purged_row rows purged
}.

(** The number of status requests and of sleeps in a log. *)
Definition polls (log : list event) : nat :=
  List.length (filter (fun ev => match ev with Polled _ => true | Slept _ => false end) log).

Definition sleeps (log : list event) : nat :=
  List.length (filter (fun ev => match ev with Slept _ => true | Polled _ => false end) log).

(** A query as [read_queries_csv] returns it. *)
Definition query_ok (q : string * string) : Prop :=
  fst q <> "" /\ snd q <> "" /\
  str_strip (fst q) = fst q /\ str_strip (snd q) = snd q.

(** The file entry [d] is listed under the dataset [ds] in the search
    response: [ds] is the identifier, one that counts as true, of an
    organism whose files hold [d]. *)
Definition listed (search_json ds : json) (d : list (string * json)) : Prop :=
  exists top orgs org files,
    search_json = JDict top /\ field "organisms" top = JList orgs /\
    In (JDict org) orgs /\ field "id" org = ds /\ truthy ds = true /\
    field "files" org = JList files /\ In (JDict d) files.

(** The row [r] is the record of the file entry [d] of the dataset [ds]:
    it holds the identifiers and the name as they are, and the flag the
    globs give. *)
Definition records (fnmatch : string -> string -> bool)
           (include_globs exclude_globs : list string)
           (ds : json) (d : list (string * json)) (r : row) : Prop :=
  dataset_id r = ds /\ file_id r = field "_id" d /\
  file_name r = field "file_name" d /\
  glob_selection fnmatch (field "file_name" d) include_globs exclude_globs
  = Ok (selected r).

(** The number of nested calls of [collect_strings] that the value can
    ask for: one for the value itself, and one more for every level of
    lists and dicts under it. *)
Fixpoint nesting (obj : json) : nat :=
  match obj with
  | JList l =>
      S ((fix deepest (l : list json) : nat :=
            match l with
            | [] => O
            | v :: l' => Nat.max (nesting v) (deepest l')
            end) l)
  | JDict d =>
      S ((fix deepest (d : list (string * json)) : nat :=
            match d with
            | [] => O
            | (_, v) :: d' => Nat.max (nesting v) (deepest d')
            end) d)
  | _ => 1%nat
  end.

(** Every character of the text satisfies [P]. *)
Fixpoint all_chars (P : ascii -> bool) (s : string) : bool :=
  match s with
  | EmptyString => true
  | String c s' => P c && all_chars P s'
  end.

(** What a pattern matches: [accepts r w g] when the pattern [r] matches
    the text [w] from its first character to its last, [g] being the
    text of group 1 (the empty text for a pattern without group).  A
    literal matches its character in either letter case, a star any run
    of characters of its class, the group one digit or two. *)
Inductive accepts : regex -> string -> string -> Prop :=
| accepts_end :
    accepts [] "" ""
| accepts_one a r c w g :
    atom_matches a c = true -> accepts r w g ->
    accepts (One a :: r) (String c w) g
| accepts_star_none a r w g :
    accepts r w g ->
    accepts (Star a :: r) w g
| accepts_star_more a r c w g :
    atom_matches a c = true -> accepts (Star a :: r) w g ->
    accepts (Star a :: r) (String c w) g
| accepts_one_digit r c1 w g :
    is_digit c1 = true -> accepts r w g ->
    accepts (Digits12 :: r) (String c1 w) (String c1 "")
| accepts_two_digits r c1 c2 w g :
    is_digit c1 = true -> is_digit c2 = true -> accepts r w g ->
    accepts (Digits12 :: r) (String c1 (String c2 w)) (String c1 (String c2 "")).

(** The pattern matches somewhere in the text. *)
Definition occurs (r : regex) (text : string) : Prop :=
  exists pre w post g, text = (pre ++ w ++ post)%string /\ accepts r w g.

(** [g] is group 1 of the match that a search for [r] in [text] finds:
    the match starts at the leftmost place where the pattern matches at
    all, and no match that starts there has a longer group. *)
Definition found (r : regex) (text g : string) : Prop :=
  exists pre w post,
    text = (pre ++ w ++ post)%string /\ accepts r w g /\
    (forall pre' w' post' g',
        text = (pre' ++ w' ++ post')%string -> accepts r w' g' ->
        (String.length pre <= String.length pre')%nat) /\
    (forall w' post' g',
        text = (pre ++ w' ++ post')%string -> accepts r w' g' ->
        (String.length g' <= String.length g)%nat).

(** [v] is the number that the one or two digits of [g] write. *)
Definition reads (g : string) (v : Z) : Prop :=
  (exists c1, g = String c1 "" /\ v = digit_val c1) \/
  (exists c1 c2, g = String c1 (String c2 "") /\
                 v = 10 * digit_val c1 + digit_val c2).

(** An atom that matches no digit, and a pattern made of such atoms,
    without group. *)
Definition tame_atom (a : atom) : bool :=
  match a with
  | Chr x => negb (is_digit x)
  | Space | Sep => true
  | Digit => false
  end.

Definition tame (r : regex) : bool :=
  forallb (fun i => match i with
                    | One a | Star a => tame_atom a
                    | Digits12 => false
                    end) r.

(** * Sample data *)

(** A file object with more strings than the cap lets through: the path
    that names the version comes after 2500 notes. *)
Definition crowded_file : list (string * json) :=
  [ ("_id", JStr "f1");
    ("file_name", JStr "x.gff3.gz");
    ("notes", JList (repeat (JStr "n") 2500));
    ("path", JStr "Phytozome/PhytozomeV13/x") ].

(** A file object whose name is a number. *)
Definition numbered_file : list (string * json) :=
  [ ("_id", JStr "f1"); ("file_name", JNum 5) ].

(** A string under [n] lists. *)
Fixpoint nested (n : nat) : json :=
  match n with
  | O => JStr "leaf"
  | S n' => JList [nested n']
  end.

(** A file object with a string a thousand lists deep. *)
Definition deep_file : list (string * json) :=
  [ ("_id", JStr "f1"); ("file_name", JStr "x.gff3.gz"); ("tree", nested 1000) ].

(** A file object in which a path names version 13, while two tags,
    read one after the other, look like version 12. *)
Definition marked_file : json :=
  JDict [ ("_id", JStr "f1");
          ("file_name", JStr "x.gff3.gz");
          ("tags", JList [JStr "PhytozomeV"; JStr "12"]);
          ("path", JStr "Phytozome/PhytozomeV13/x") ].

(** A file object with one string that mentions the marker. *)
Definition plain_file : json :=
  JDict [ ("file_name", JStr "x.gff3.gz");
          ("release", JStr "12");
          ("path", JStr "Phytozome/PhytozomeV13/x") ].

(** [fnmatch.fnmatch name pat] on a POSIX system, for patterns made of
    [*], [?] and literal characters (bracket expressions are not
    interpreted).  It runs the examples; the theorems hold for any
    matcher. *)
Fixpoint glob_match (pat name : string) {struct pat} : bool :=
  match pat with
  | EmptyString => match name with EmptyString => true | String _ _ => false end
  | String c pat' =>
      if Ascii.eqb c "*" then
        (fix any (name : string) : bool :=
           glob_match pat' name ||
           match name with
           | String _ name' => any name'
           | EmptyString => false
           end) name
      else
        match name with
        | String d name' => (Ascii.eqb c "?" || Ascii.eqb c d) && glob_match pat' name'
        | EmptyString => false
        end
  end.

Definition fnmatch_plain (name pat : string) : bool := glob_match pat name.

(** One query: an organism with seven file entries, and an organism
    without identifier. *)
Definition file_v12 : json :=
  JDict [ ("_id", JStr "a"); ("file_name", JStr "x.gff3.gz");
          ("file_status", JStr "LIVE");
          ("file_path", JStr "Phytozome/PhytozomeV12/x.gff3.gz") ].

Definition file_v13 : json :=
  JDict [ ("_id", JStr "b"); ("file_name", JStr "x.gff.gz");
          ("file_status", JStr "Purged");
          ("file_path", JStr "Phytozome/PhytozomeV13/x.gff.gz") ].

Definition file_v13_again : json :=
  JDict [ ("_id", JStr "b"); ("file_name", JStr "x.gff.gz");
          ("file_status", JStr "PURGED");
          ("metadata",
           JDict [("phytozome", JDict [("release", JStr "phytozome v13")])]) ].

Definition file_no_id : json :=
  JDict [ ("_id", JStr ""); ("file_name", JStr "y.gff3.gz");
          ("file_status", JStr "LIVE") ].

Definition file_no_name : json :=
  JDict [ ("_id", JStr "c"); ("file_status", JStr "LIVE") ].

Definition file_masked : json :=
  JDict [ ("_id", JStr "d"); ("file_name", JStr "x.softmasked.gff3.gz");
          ("file_path", JStr "Phytozome/PhytozomeV13/x.softmasked.gff3.gz") ].

Definition file_readme : json :=
  JDict [ ("_id", JStr "e"); ("file_name", JStr "readme.gff3.gz");
          ("file_status", JStr "LIVE") ].

Definition sample_search : json :=
  JDict [ ("organisms",
           JList [ JDict [ ("id", JStr "ds1");
                           ("files", JList [ file_v12; file_v13; file_no_id;
                                             file_v13_again; file_no_name;
                                             file_masked; file_readme ]) ];
                   JDict [ ("files", JList [ file_v12 ]) ] ]) ].

Definition sample_include : list string := ["*.gff*.gz"].
Definition sample_exclude : list string := ["*masked*"].

(** The manifest of the sample query after filtering. *)
Definition sample_rows : list row :=
  [ mkRow (JStr "ds1") (JStr "a") (JStr "x.gff3.gz") "LIVE" (Some 12) true;
    mkRow (JStr "ds1") (JStr "b") (JStr "x.gff.gz") "PURGED" (Some 13) true;
    mkRow (JStr "ds1") (JStr "b") (JStr "x.gff.gz") "PURGED" (Some 13) true;
    mkRow (JStr "ds1") (JStr "d") (JStr "x.softmasked.gff3.gz") "" (Some 13) false;
    mkRow (JStr "ds1") (JStr "e") (JStr "readme.gff3.gz") "LIVE" None true ].

(** Selected rows of versions 11, 12 and 13, a selected row without
    version, and a row of version 14 that is not selected. *)
Definition versions_11_12_13 : list row :=
  [ mkRow (JStr "ds1") (JStr "a") (JStr "a.gff3.gz") "LIVE" (Some 11) true;
    mkRow (JStr "ds1") (JStr "b") (JStr "b.gff3.gz") "LIVE" (Some 12) true;
    mkRow (JStr "ds1") (JStr "c") (JStr "c.gff3.gz") "PURGED" (Some 13) true;
    mkRow (JStr "ds1") (JStr "d") (JStr "d.gff3.gz") "LIVE" None true;
    mkRow (JStr "ds1") (JStr "e") (JStr "e.fa.gz") "LIVE" (Some 14) false;
    mkRow (JStr "ds2") (JStr "f") (JStr "f.gff3.gz") "LIVE" (Some 13) true ].

(** A status document of the archive. *)
Definition status_doc (s : string) : json := JDict [("status", JStr s)].

(** [time.sleep] as far as the interpreter checks its argument: a number
    of seconds that does not fit its clock, counted in nanoseconds on 64
    bits, raises [OverflowError], and a negative one [ValueError].  The
    examples run the poll loop with it. *)
Definition py_sleep (seconds : Z) : result unit :=
  if (seconds <? -9223372036) || (9223372036 <? seconds) then Err OverflowError
  else if seconds <? 0 then Err ValueError
  else Ok tt.

(** The archive that answers PENDING twice and READY from then on. *)
Definition pending_twice (n : nat) : json :=
  match n with
  | O | S O => status_doc "pending"
  | _ => status_doc "ready"
  end.

(** The sample query as [main] meets it: the search response, a restore
    answer with its status location, and an archive that is ready at the
    third request. *)
Definition sample_query : query_input :=
  mkQuery sample_search
          (JDict [("request_status_url", JStr "https://files.jgi.doe.gov/r/1")])
          pending_twice.

(** A query whose search response is not a JSON object. *)
Definition broken_query : query_input :=
  mkQuery (JList []) JNull (fun _ => JNull).

(** The manifest of the sample query after the latest-only refinement. *)
Definition sample_rows_latest : list row :=
  [ mkRow (JStr "ds1") (JStr "a") (JStr "x.gff3.gz") "LIVE" (Some 12) false;
    mkRow (JStr "ds1") (JStr "b") (JStr "x.gff.gz") "PURGED" (Some 13) true;
    mkRow (JStr "ds1") (JStr "b") (JStr "x.gff.gz") "PURGED" (Some 13) true;
    mkRow (JStr "ds1") (JStr "d") (JStr "x.softmasked.gff3.gz") "" (Some 13) false;
    mkRow (JStr "ds1") (JStr "e") (JStr "readme.gff3.gz") "LIVE" None false ].

(** The log of the restore of the sample query. *)
Definition sample_log : list event :=
  [Polled "PENDING"; Slept 600; Polled "PENDING"; Slept 600; Polled "READY"].

(** * Properties *)

(** ** Version patterns *)

Example extract_path :
  extract_phytozome_version "Phytozome/PhytozomeV13/annotation" = Some 13.
Proof. reflexivity. Qed.

Example extract_sep :
  extract_phytozome_version "PHYTOZOME _-/ v 9x" = Some 9.
Proof. reflexivity. Qed.

Example extract_bare :
  extract_phytozome_version "phytozome 12" = Some 12.
Proof. reflexivity. Qed.

Example extract_three_digits :
  extract_phytozome_version "PhytozomeV123" = Some 12.
Proof. reflexivity. Qed.

Example extract_none :
  extract_phytozome_version "annotation_v13.gff3.gz" = None.
Proof. reflexivity. Qed.

(** The first pattern is tried on the whole text before the third one
    is tried at all. *)
Example extract_in_order :
  extract_phytozome_version "phytozome 1, then PhytozomeV2" = Some 2.
Proof. reflexivity. Qed.

Ltac by_cases_on_char c :=
  destruct c as [[] [] [] [] [] [] [] []]; try reflexivity; try discriminate.

Lemma lower_upper_char (c : ascii) : lower_char (upper_char c) = lower_char c.
Proof. by_cases_on_char c. Qed.

Lemma lower_lower_char (c : ascii) : lower_char (lower_char c) = lower_char c.
Proof. by_cases_on_char c. Qed.

Lemma upper_char_case_mapping : case_mapping upper_char.
Proof.
  split.
  - intros [x| | |] c; simpl.
    + now rewrite lower_upper_char.
    + by_cases_on_char c.
    + by_cases_on_char c.
    + by_cases_on_char c.
  - intros c; by_cases_on_char c.
Qed.

Lemma lower_char_case_mapping : case_mapping lower_char.
Proof.
  split.
  - intros [x| | |] c; simpl.
    + now rewrite lower_lower_char.
    + by_cases_on_char c.
    + by_cases_on_char c.
    + by_cases_on_char c.
  - intros c; by_cases_on_char c.
Qed.

Section CaseInsensitive.

Variable f : ascii -> ascii.
Hypothesis f_case : case_mapping f.

Lemma star_case a k (Hk : forall s, k (str_map f s) = k s) s :
  star a k (str_map f s) = star a k s.
Proof.
  induction s as [|c s IH]; simpl.
  - apply (Hk EmptyString).
  - destruct f_case as [Hm _]. rewrite Hm, IH.
    pose proof (Hk (String c s)) as Hc. simpl in Hc. now rewrite Hc.
Qed.

Lemma digits12_case k (Hk : forall s, k (str_map f s) = k s) s :
  digits12 k (str_map f s) = digits12 k s.
Proof.
  destruct f_case as [Hm Hd].
  pose proof (Hm Digit) as Hdig; simpl in Hdig.
  destruct s as [|c1 s1]; simpl; [reflexivity|].
  rewrite Hdig. destruct (is_digit c1) eqn:E1; [|reflexivity].
  rewrite (Hd c1 E1), Hk.
  destruct s1 as [|c2 s2]; simpl; [reflexivity|].
  rewrite Hdig. destruct (is_digit c2) eqn:E2; [|reflexivity].
  now rewrite (Hd c2 E2), Hk.
Qed.

Lemma match_here_case r : forall s, match_here r (str_map f s) = match_here r s.
Proof.
  induction r as [|[a|a|] r IH]; intros s; simpl.
  - reflexivity.
  - destruct s as [|c s]; simpl; [reflexivity|].
    destruct f_case as [Hm _]. rewrite Hm.
    destruct (atom_matches a c); [apply IH|reflexivity].
  - now apply star_case.
  - now apply digits12_case.
Qed.

Lemma search_case r s : search r (str_map f s) = search r s.
Proof.
  induction s as [|c s IH].
  - reflexivity.
  - change (str_map f (String c s)) with (String (f c) (str_map f s)).
    cbn [search]. rewrite <- IH.
    change (String (f c) (str_map f s)) with (str_map f (String c s)).
    now rewrite match_here_case.
Qed.

Lemma first_match_case pats s : first_match pats (str_map f s) = first_match pats s.
Proof.
  induction pats as [|p pats IH]; simpl; [reflexivity|].
  now rewrite search_case, IH.
Qed.

End CaseInsensitive.

Lemma star_result (P : string -> Prop) a k
      (Hk : forall s g, k s = Some g -> P g) s g :
  star a k s = Some g -> P g.
Proof.
  induction s as [|c s IH]; simpl.
  - apply Hk.
  - destruct (atom_matches a c).
    + destruct (star a k s) as [g'|] eqn:E.
      * intros [= <-]. now apply IH.
      * apply Hk.
    + apply Hk.
Qed.

Lemma digits12_capture k s g : digits12 k s = Some g -> is_capture g.
Proof.
  unfold digits12.
  destruct s as [|c1 s1]; [discriminate|].
  destruct (is_digit c1) eqn:E1; [|discriminate].
  assert (Hone : match k s1 with
                 | Some _ => Some (String c1 EmptyString)
                 | None => None
                 end = Some g -> is_capture g).
  { destruct (k s1); [|discriminate]. intros [= <-]. left. eauto. }
  destruct s1 as [|c2 s2]; [exact Hone|].
  destruct (is_digit c2) eqn:E2; [|exact Hone].
  destruct (k s2); [|exact Hone].
  intros [= <-]. right. eauto.
Qed.

Lemma match_here_capture r :
  has_group r = true -> forall s g, match_here r s = Some g -> is_capture g.
Proof.
  induction r as [|[a|a|] r IH]; simpl; intros Hg s g.
  - discriminate.
  - destruct s as [|c s]; [discriminate|].
    destruct (atom_matches a c); [apply IH, Hg|discriminate].
  - apply star_result. intros s' g'. now apply IH.
  - apply digits12_capture.
Qed.

Lemma search_capture r (Hg : has_group r = true) s g :
  search r s = Some g -> is_capture g.
Proof.
  induction s as [|c s IH]; cbn [search].
  - destruct (match_here r EmptyString) eqn:E; [|discriminate].
    intros [= <-]. eapply match_here_capture; eauto.
  - destruct (match_here r (String c s)) eqn:E; [|exact IH].
    intros [= <-]. eapply match_here_capture; eauto.
Qed.

Lemma digit_val_range c : is_digit c = true -> 0 <= digit_val c <= 9.
Proof.
  unfold is_digit, digit_val. intros H.
  apply andb_true_iff in H as [H1 H2].
  apply Nat.leb_le in H1, H2. lia.
Qed.

Lemma py_int_capture g :
  is_capture g -> exists v, py_int g = Some v /\ 0 <= v <= 99.
Proof.
  intros [(c1 & -> & E1)|(c1 & c2 & -> & E1 & E2)];
    cbn [py_int int_digits]; rewrite E1; cbn [int_digits]; rewrite ?E2.
  - eexists; split; [reflexivity|]. pose proof (digit_val_range _ E1). lia.
  - eexists; split; [reflexivity|].
    pose proof (digit_val_range _ E1). pose proof (digit_val_range _ E2). lia.
Qed.

Lemma patterns_have_group : Forall (fun r => has_group r = true) PHYTOZOME_VER_PATTERNS.
Proof. repeat constructor. Qed.

Lemma first_hit_exists pats s :
  exists o, first_hit pats s o /\
            first_match pats s = match o with Some g => py_int g | None => None end.
Proof.
  induction pats as [|p pats (o & Ho & Eo)]; simpl.
  - exists None. split; [now constructor|reflexivity].
  - destruct (search p s) as [g|] eqn:E.
    + exists (Some g). split; [|reflexivity].
      now apply (hit _ _ [] p pats g).
    + exists o. split; [|exact Eo].
      destruct Ho as [Hall|before pat after g -> Hb Hs].
      * constructor. now constructor.
      * apply (hit _ _ (p :: before) pat after g); auto.
Qed.

Lemma extract_outcome (text : string) :
  exists o,
    first_hit PHYTOZOME_VER_PATTERNS text o /\
    match o with
    | None => extract_phytozome_version text = None
    | Some g =>
        is_capture g /\
        exists v, py_int g = Some v /\ 0 <= v <= 99 /\
                  extract_phytozome_version text = Some v
    end.
Proof.
  destruct (first_hit_exists PHYTOZOME_VER_PATTERNS text) as (o & Ho & Eo).
  exists o. split; [exact Ho|].
  destruct Ho as [_|before pat after g Hp _ Hs]; [exact Eo|].
  assert (Hg : has_group pat = true).
  { pose proof patterns_have_group as Hall. rewrite Hp in Hall.
    apply Forall_app in Hall as [_ Hall]. now inversion Hall. }
  pose proof (search_capture pat Hg text g Hs) as Hcap.
  split; [exact Hcap|].
  destruct (py_int_capture g Hcap) as (v & Hv & Hr).
  exists v. repeat split; try tauto.
  unfold extract_phytozome_version. now rewrite Eo.
Qed.

Lemma extract_range text v :
  extract_phytozome_version text = Some v -> 0 <= v <= 99.
Proof.
  destruct (extract_outcome text) as ([g|] & _ & Ho).
  - destruct Ho as (_ & w & _ & Hr & ->). now intros [= <-].
  - now rewrite Ho.
Qed.

(** *** The matcher and what the patterns match *)

Lemma str_app_nil_r (s : string) : (s ++ "")%string = s.
Proof. induction s as [|c s IH]; simpl; [reflexivity|now rewrite IH]. Qed.

Lemma str_app_assoc (a b c : string) :
  ((a ++ b) ++ c)%string = (a ++ b ++ c)%string.
Proof. induction a as [|x a IH]; simpl; [reflexivity|now rewrite IH]. Qed.

Lemma str_app_inv_head (a b c : string) : (a ++ b)%string = (a ++ c)%string -> b = c.
Proof. induction a as [|x a IH]; simpl; [auto|]. intros [= H]. auto. Qed.

Lemma star_sound a r k
      (Hk : forall s g, k s = Some g ->
                        exists w post, s = (w ++ post)%string /\ accepts r w g) :
  forall s g, star a k s = Some g ->
              exists w post, s = (w ++ post)%string /\ accepts (Star a :: r) w g.
Proof.
  assert (Hstop : forall s g, k s = Some g ->
            exists w post, s = (w ++ post)%string /\ accepts (Star a :: r) w g).
  { intros s g H. destruct (Hk s g H) as (w & post & E & Hacc).
    exists w, post. split; [exact E|]. now apply accepts_star_none. }
  induction s as [|c s IH]; intros g; cbn [star]; [apply Hstop|].
  destruct (atom_matches a c) eqn:Ec; [|apply Hstop].
  destruct (star a k s) as [g'|] eqn:Es; [|apply Hstop].
  intros [= <-]. destruct (IH g' eq_refl) as (w & post & -> & Hacc).
  exists (String c w), post. split; [reflexivity|]. now apply accepts_star_more.
Qed.

Lemma digits12_sound r k
      (Hk : forall s g, k s = Some g ->
                        exists w post, s = (w ++ post)%string /\ accepts r w g) :
  forall s g, digits12 k s = Some g ->
              exists w post, s = (w ++ post)%string /\ accepts (Digits12 :: r) w g.
Proof.
  intros s g. unfold digits12.
  destruct s as [|c1 s1]; [discriminate|].
  destruct (is_digit c1) eqn:E1; [|discriminate].
  assert (Hone : match k s1 with
                 | Some _ => Some (String c1 EmptyString)
                 | None => None
                 end = Some g ->
                 exists w post, String c1 s1 = (w ++ post)%string /\
                                accepts (Digits12 :: r) w g).
  { destruct (k s1) as [g0|] eqn:Ek; [|discriminate]. intros [= <-].
    destruct (Hk s1 g0 Ek) as (w & post & -> & Hacc).
    exists (String c1 w), post. split; [reflexivity|].
    eapply accepts_one_digit; eauto. }
  destruct s1 as [|c2 s2]; [exact Hone|].
  destruct (is_digit c2) eqn:E2; [|exact Hone].
  destruct (k s2) as [g0|] eqn:Ek; [|exact Hone].
  intros [= <-]. destruct (Hk s2 g0 Ek) as (w & post & -> & Hacc).
  exists (String c1 (String c2 w)), post. split; [reflexivity|].
  eapply accepts_two_digits; eauto.
Qed.

(** A match found by the matcher is a match of the pattern. *)
Lemma match_here_sound r : forall s g,
  match_here r s = Some g ->
  exists w post, s = (w ++ post)%string /\ accepts r w g.
Proof.
  induction r as [|[a|a|] r IH]; intros s g; cbn [match_here].
  - intros [= <-]. exists "", s. split; [reflexivity|constructor].
  - destruct s as [|c s]; [discriminate|].
    destruct (atom_matches a c) eqn:Ec; [|discriminate].
    intros H. destruct (IH s g H) as (w & post & -> & Hacc).
    exists (String c w), post. split; [reflexivity|]. now apply accepts_one.
  - now apply star_sound.
  - now apply digits12_sound.
Qed.

Lemma star_keeps a k s : k s <> None -> star a k s <> None.
Proof.
  intros Hk. destruct s as [|c s]; cbn [star]; [exact Hk|].
  destruct (atom_matches a c); [|exact Hk].
  destruct (star a k s); [discriminate|exact Hk].
Qed.

(** Where the pattern matches, the matcher finds a match. *)
Lemma match_here_complete r w g :
  accepts r w g -> forall post, match_here r (w ++ post) <> None.
Proof.
  induction 1 as [| a r c w g Hc _ IH | a r w g _ IH | a r c w g Hc _ IH
                  | r c1 w g H1 _ IH | r c1 c2 w g H1 H2 _ IH]; intros post.
  - discriminate.
  - cbn [append match_here]. rewrite Hc. apply IH.
  - cbn [match_here]. apply star_keeps, IH.
  - specialize (IH post). cbn [match_here] in IH.
    cbn [append match_here star]. rewrite Hc.
    destruct (star a (match_here r) (w ++ post)); [discriminate|now elim IH].
  - specialize (IH post). cbn [append match_here]. unfold digits12. rewrite H1.
    destruct (match_here r (w ++ post)) as [g0|] eqn:Ek; [|now elim IH].
    destruct (w ++ post)%string as [|c2 s2]; [discriminate|].
    destruct (is_digit c2); [|discriminate].
    destruct (match_here r s2); discriminate.
  - specialize (IH post). cbn [append match_here]. unfold digits12. rewrite H1, H2.
    destruct (match_here r (w ++ post)); [discriminate|now elim IH].
Qed.

Lemma search_miss r : forall s,
  search r s = None <->
  forall pre t, s = (pre ++ t)%string -> match_here r t = None.
Proof.
  induction s as [|c s IH]; cbn [search].
  - split.
    + intros H pre t E. destruct pre; [|discriminate]. simpl in E. subst t.
      destruct (match_here r ""); [discriminate|reflexivity].
    + intros H. now rewrite (H "" "" eq_refl).
  - split.
    + intros H pre t E. destruct (match_here r (String c s)) eqn:Eh; [discriminate|].
      destruct pre as [|x pre]; simpl in E; [now subst t|].
      injection E as _ E. eapply IH; eauto.
    + intros H. rewrite (H "" (String c s) eq_refl). apply IH.
      intros pre t E. apply (H (String c pre) t). simpl. now rewrite E.
Qed.

Lemma search_hit r : forall s g,
  search r s = Some g ->
  exists pre t,
    s = (pre ++ t)%string /\ match_here r t = Some g /\
    forall pre' t', s = (pre' ++ t')%string ->
                    (String.length pre' < String.length pre)%nat ->
                    match_here r t' = None.
Proof.
  induction s as [|c s IH]; intros g; cbn [search].
  - destruct (match_here r "") eqn:E; [|discriminate]. intros [= <-].
    exists "", "". repeat split; auto. simpl. lia.
  - destruct (match_here r (String c s)) as [g'|] eqn:E.
    + intros [= <-]. exists "", (String c s). repeat split; auto. simpl. lia.
    + intros H. destruct (IH g H) as (pre & t & -> & Ht & Hleft).
      exists (String c pre), t. repeat split; auto.
      intros pre' t' E' Hlen. destruct pre' as [|x pre']; simpl in E'.
      * now subst t'.
      * injection E' as _ E'. apply (Hleft pre' t' E'). simpl in Hlen. lia.
Qed.

Lemma search_hit_occurs r text g : search r text = Some g -> occurs r text.
Proof.
  intros E. apply search_hit in E as (pre & t & -> & Ht & _).
  apply match_here_sound in Ht as (w & post & -> & Hacc).
  now exists pre, w, post, g.
Qed.

Lemma search_miss_occurs r text : search r text = None <-> ~ occurs r text.
Proof.
  split.
  - intros H (pre & w & post & g & -> & Hacc).
    apply (match_here_complete r w g Hacc post).
    eapply search_miss; eauto.
  - intros Hno. destruct (search r text) as [g|] eqn:E; [|reflexivity].
    elim Hno. eapply search_hit_occurs, E.
Qed.

(** *** The group of the match *)

Lemma lower_char_digit (c : ascii) : is_digit (lower_char c) = is_digit c.
Proof. by_cases_on_char c. Qed.

Lemma space_not_digit (c : ascii) : is_space c = true -> is_digit c = false.
Proof. by_cases_on_char c. Qed.

Lemma sep_not_digit (c : ascii) : is_sep c = true -> is_digit c = false.
Proof. by_cases_on_char c. Qed.

Lemma tame_atom_no_digit a c :
  tame_atom a = true -> atom_matches a c = true -> is_digit c = false.
Proof.
  destruct a as [x| | |]; cbn [tame_atom atom_matches].
  - intros Hx Hc. apply Ascii.eqb_eq in Hc.
    rewrite <- lower_char_digit, Hc, lower_char_digit.
    now destruct (is_digit x).
  - intros _. apply space_not_digit.
  - intros _. apply sep_not_digit.
  - discriminate.
Qed.

Lemma accepts_nil w g : accepts [] w g -> w = "" /\ g = "".
Proof. inversion 1. auto. Qed.

(** A match of a tame pattern followed by the group: characters that are
    not digits, then the digits of the group, and nothing else. *)
Lemma accepts_tame r w g :
  accepts r w g ->
  forall r0, r = r0 ++ [Digits12] -> tame r0 = true ->
  exists u, w = (u ++ g)%string /\ all_chars (fun c => negb (is_digit c)) u = true /\
            is_capture g.
Proof.
  induction 1 as [| a r c w g Hc _ IH | a r w g _ IH | a r c w g Hc _ IH
                  | r c1 w g H1 Hacc _ | r c1 c2 w g H1 H2 Hacc _]; intros r0 Er Ht.
  - destruct r0; discriminate.
  - destruct r0 as [|i r0]; [discriminate|]. injection Er as <- ->.
    cbn [tame forallb] in Ht. apply andb_true_iff in Ht as [Ha Ht].
    destruct (IH r0 eq_refl Ht) as (u & -> & Hu & Hg).
    exists (String c u). repeat split; auto. cbn [all_chars].
    now rewrite (tame_atom_no_digit a c Ha Hc).
  - destruct r0 as [|i r0]; [discriminate|]. injection Er as <- ->.
    cbn [tame forallb] in Ht. apply andb_true_iff in Ht as [Ha Ht].
    apply (IH r0 eq_refl Ht).
  - destruct r0 as [|i r0]; [discriminate|].
    pose proof Er as Er'. injection Er' as <- _.
    pose proof Ht as Ht'. cbn [tame forallb] in Ht'.
    apply andb_true_iff in Ht' as [Ha _].
    destruct (IH (Star a :: r0) Er Ht) as (u & -> & Hu & Hg).
    exists (String c u). repeat split; auto. cbn [all_chars].
    now rewrite (tame_atom_no_digit a c Ha Hc).
  - destruct r0 as [|i r0].
    + injection Er as ->. apply accepts_nil in Hacc as [-> _].
      exists "". repeat split; auto. left. eauto.
    + injection Er as <- _. discriminate Ht.
  - destruct r0 as [|i r0].
    + injection Er as ->. apply accepts_nil in Hacc as [-> _].
      exists "". repeat split; auto. right. eauto.
    + injection Er as <- _. discriminate Ht.
Qed.

Lemma star_split a k : forall s g,
  star a k s = Some g ->
  exists u rest, s = (u ++ rest)%string /\
                 all_chars (atom_matches a) u = true /\ k rest = Some g.
Proof.
  assert (Hstop : forall s g, k s = Some g ->
            exists u rest, s = (u ++ rest)%string /\
                           all_chars (atom_matches a) u = true /\ k rest = Some g).
  { intros s g H. now exists "", s. }
  induction s as [|c s IH]; intros g; cbn [star]; [apply Hstop|].
  destruct (atom_matches a c) eqn:Ec; [|apply Hstop].
  destruct (star a k s) as [g'|] eqn:Es; [|apply Hstop].
  intros [= <-]. destruct (IH g' eq_refl) as (u & rest & -> & Hu & Hk).
  exists (String c u), rest. repeat split; auto. cbn [all_chars]. now rewrite Ec.
Qed.

Lemma all_chars_impl (P Q : ascii -> bool) (H : forall c, P c = true -> Q c = true) s :
  all_chars P s = true -> all_chars Q s = true.
Proof.
  induction s as [|c s IH]; cbn [all_chars]; [auto|].
  intros Hs. apply andb_true_iff in Hs as [Hc Hs]. now rewrite (H c Hc), IH.
Qed.

Lemma all_chars_app P a b :
  all_chars P (a ++ b) = all_chars P a && all_chars P b.
Proof.
  induction a as [|c a IH]; cbn [append all_chars]; [reflexivity|].
  now rewrite IH, andb_assoc.
Qed.

(** The matcher on a tame pattern followed by the group: it passes over
    characters that are not digits and then reads the group. *)
Lemma match_here_tame r0 : forall t g,
  tame r0 = true ->
  match_here (r0 ++ [Digits12]) t = Some g ->
  exists u rest, t = (u ++ rest)%string /\
                 all_chars (fun c => negb (is_digit c)) u = true /\
                 match_here [Digits12] rest = Some g.
Proof.
  induction r0 as [|[a|a|] r0 IH]; intros t g Ht; cbn [app].
  - intros H. now exists "", t.
  - cbn [tame forallb] in Ht. apply andb_true_iff in Ht as [Ha Ht].
    cbn [match_here]. destruct t as [|c t]; [discriminate|].
    destruct (atom_matches a c) eqn:Ec; [|discriminate].
    intros H. destruct (IH t g Ht H) as (u & rest & -> & Hu & Hr).
    exists (String c u), rest. repeat split; auto. cbn [all_chars].
    now rewrite (tame_atom_no_digit a c Ha Ec).
  - cbn [tame forallb] in Ht. apply andb_true_iff in Ht as [Ha Ht].
    cbn [match_here]. intros H.
    apply star_split in H as (u1 & rest1 & -> & Hu1 & H).
    destruct (IH rest1 g Ht H) as (u & rest & -> & Hu & Hr).
    exists (u1 ++ u)%string, rest. rewrite str_app_assoc. repeat split; auto.
    rewrite all_chars_app, Hu, andb_true_r.
    eapply all_chars_impl; [|exact Hu1].
    intros c Hc. now rewrite (tame_atom_no_digit a c Ha Hc).
  - discriminate.
Qed.

(** The group takes a second digit whenever there is one. *)
Lemma group_greedy rest g :
  match_here [Digits12] rest = Some g ->
  (exists c1 post, rest = String c1 post /\ g = String c1 "" /\ is_digit c1 = true /\
                   match post with
                   | String c2 _ => is_digit c2 = false
                   | EmptyString => True
                   end) \/
  (exists c1 c2 post, rest = String c1 (String c2 post) /\
                      g = String c1 (String c2 "") /\
                      is_digit c1 = true /\ is_digit c2 = true).
Proof.
  cbn [match_here]. unfold digits12.
  destruct rest as [|c1 [|c2 post]]; [discriminate| |].
  - destruct (is_digit c1) eqn:E1; [|discriminate]. intros [= <-].
    left. exists c1, "". auto.
  - destruct (is_digit c1) eqn:E1; [|discriminate].
    destruct (is_digit c2) eqn:E2; intros [= <-].
    + right. exists c1, c2, post. auto.
    + left. exists c1, (String c2 post). auto.
Qed.

(** Two ways of cutting a text before its first digit are the same. *)
Lemma first_digit_unique : forall u u' c c' rest rest',
  all_chars (fun c => negb (is_digit c)) u = true ->
  all_chars (fun c => negb (is_digit c)) u' = true ->
  is_digit c = true -> is_digit c' = true ->
  (u ++ String c rest)%string = (u' ++ String c' rest')%string ->
  u = u' /\ String c rest = String c' rest'.
Proof.
  induction u as [|x u IH]; intros [|x' u'] c c' rest rest' Hu Hu' Hc Hc' E;
    cbn [append all_chars] in *.
  - auto.
  - injection E as -> _. apply andb_true_iff in Hu' as [Hx _].
    rewrite Hc in Hx. discriminate.
  - injection E as <- _. apply andb_true_iff in Hu as [Hx _].
    rewrite Hc' in Hx. discriminate.
  - injection E as <- E. apply andb_true_iff in Hu as [_ Hu].
    apply andb_true_iff in Hu' as [_ Hu'].
    destruct (IH u' c c' rest rest' Hu Hu' Hc Hc' E) as [-> ?]. auto.
Qed.

Lemma capture_head g :
  is_capture g -> exists c tail, g = String c tail /\ is_digit c = true.
Proof. intros [(c1 & -> & H)|(c1 & c2 & -> & H & _)]; eauto. Qed.

Lemma capture_length g : is_capture g -> (1 <= String.length g <= 2)%nat.
Proof. intros [(c1 & -> & _)|(c1 & c2 & -> & _)]; simpl; lia. Qed.

(** On a tame pattern followed by the group, no match that starts where
    the matcher starts has a longer group than the one it returns. *)
Lemma match_here_longest r0 t g w' post' g' :
  tame r0 = true ->
  match_here (r0 ++ [Digits12]) t = Some g ->
  t = (w' ++ post')%string -> accepts (r0 ++ [Digits12]) w' g' ->
  (String.length g' <= String.length g)%nat.
Proof.
  intros Ht Hm Et Hacc.
  destruct (match_here_tame r0 t g Ht Hm) as (u & rest & Eu & Hu & Hg).
  destruct (accepts_tame _ _ _ Hacc r0 eq_refl Ht) as (u' & -> & Hu' & Hcap).
  pose proof (capture_length g' Hcap) as Hlen.
  destruct (capture_head g' Hcap) as (c' & tail' & Eg' & Hc').
  apply group_greedy in Hg.
  rewrite Et, str_app_assoc in Eu.
  destruct Hg as [(c1 & post & -> & -> & H1 & Hnext)|(c1 & c2 & post & -> & -> & _)];
    [|simpl; lia].
  rewrite Eg' in Eu. cbn [append] in Eu.
  destruct (first_digit_unique u' u c' c1 _ _ Hu' Hu Hc' H1 Eu) as [_ E].
  injection E as _ E.
  destruct Hcap as [(d1 & -> & _)|(d1 & d2 & -> & _ & Hd2)]; [simpl; lia|].
  injection Eg' as _ <-. cbn [append] in E. subst post.
  rewrite Hd2 in Hnext. discriminate.
Qed.

Lemma patterns_shape r :
  In r PHYTOZOME_VER_PATTERNS -> exists r0, r = r0 ++ [Digits12] /\ tame r0 = true.
Proof.
  intros [<-|[<-|[<-|[]]]].
  - exists (lit "phytozomev" ++ [Star Space]). split; reflexivity.
  - exists (lit "phytozome"
              ++ [Star Space; Star Sep; Star Space; One (Chr "v"); Star Space]).
    split; reflexivity.
  - exists (lit "phytozome" ++ [Star Space]). split; reflexivity.
Qed.

(** What a search for one of the patterns returns. *)
Lemma search_found r text g :
  In r PHYTOZOME_VER_PATTERNS -> search r text = Some g -> found r text g.
Proof.
  intros Hin Hs. destruct (patterns_shape r Hin) as (r0 & -> & Ht).
  apply search_hit in Hs as (pre & t & -> & Hm & Hleft).
  destruct (match_here_sound _ _ _ Hm) as (w & post & Et & Hacc).
  exists pre, w, post. subst t. repeat split; auto.
  - intros pre' w' post' g' E Hacc'.
    destruct (Nat.le_gt_cases (String.length pre) (String.length pre')) as [|Hlt];
      [assumption|].
    elim (match_here_complete _ _ _ Hacc' post'). now apply (Hleft pre').
  - intros w' post' g' E Hacc'. apply str_app_inv_head in E.
    eapply match_here_longest; eauto.
Qed.

Lemma py_int_reads g v : is_capture g -> py_int g = Some v -> reads g v.
Proof.
  intros [(c1 & -> & E1)|(c1 & c2 & -> & E1 & E2)];
    cbn [py_int int_digits]; rewrite E1; cbn [int_digits]; rewrite ?E2;
    intros [= <-]; [left|right]; eauto.
Qed.



(** ** Harvesting *)

(** Induction over a JSON value and the values nested in it. *)
Lemma json_induction (P : json -> Prop)
      (P_null : P JNull)
      (P_bool : forall b, P (JBool b))
      (P_num : forall n, P (JNum n))
      (P_str : forall s, P (JStr s))
      (P_list : forall l, Forall P l -> P (JList l))
      (P_dict : forall d, Forall (fun kv => P (snd kv)) d -> P (JDict d)) :
  forall v, P v.
Proof.
  exact (fix induction (v : json) : P v :=
           match v with
           | JNull => P_null
           | JBool b => P_bool b
           | JNum n => P_num n
           | JStr s => P_str s
           | JList l =>
               P_list l ((fix all (l : list json) : Forall P l :=
                            match l with
                            | [] => Forall_nil _
                            | x :: l' => Forall_cons _ (induction x) (all l')
                            end) l)
           | JDict d =>
               P_dict d ((fix all (d : list (string * json))
                            : Forall (fun kv => P (snd kv)) d :=
                            match d with
                            | [] => Forall_nil _
                            | (k, x) :: d' =>
                                Forall_cons (k, x) (induction x) (all d')
                            end) d)
           end).
Qed.

Lemma harvests_id m : harvests m (fun out => out).
Proof.
  intros out. exists []. rewrite app_nil_r. repeat split; [constructor|lia].
Qed.

Lemma harvests_append m k :
  forall out, Z.of_nat (List.length out) < m ->
    exists added,
      out ++ [JStr k] = out ++ added /\ Forall is_str added /\
      Z.of_nat (List.length (out ++ [JStr k])) <= m.
Proof.
  intros out Hlt. exists [JStr k]. repeat split.
  - repeat constructor. now exists k.
  - rewrite length_app. simpl. lia.
Qed.

Lemma harvests_compose m g h :
  harvests m g -> harvests m h -> harvests m (fun out => h (g out)).
Proof.
  intros Hg Hh out.
  destruct (Hg out) as (a1 & E1 & F1 & L1).
  destruct (Hh (g out)) as (a2 & E2 & F2 & L2).
  exists (a1 ++ a2). repeat split.
  - now rewrite E2, E1, app_assoc.
  - now apply Forall_app.
  - lia.
Qed.

Lemma collect_strings_harvests m obj : harvests m (fun out => collect_strings obj out m).
Proof.
  induction obj as [| b | n | s | l IH | d IH] using json_induction; intros out;
    cbn [collect_strings];
    destruct (Z.of_nat (List.length out) >=? m) eqn:Ecap;
    try apply (harvests_id m out).
  - (* str *)
    rewrite Z.geb_leb in Ecap; apply Z.leb_gt in Ecap.
    destruct (harvests_append m s out Ecap) as (a & E & F & L).
    exists a. repeat split; auto. lia.
  - (* list *)
    clear Ecap. revert out.
    induction IH as [| v l Hv _ IHl]; intros out.
    + apply (harvests_id m out).
    + destruct (Z.of_nat (List.length out) >=? m); [apply (harvests_id m out)|].
      apply (harvests_compose m _ _ Hv IHl out).
  - (* dict *)
    clear Ecap. revert out.
    induction IH as [| [k v] d Hv _ IHd]; intros out.
    + apply (harvests_id m out).
    + destruct (Z.of_nat (List.length out) >=? m) eqn:Ecap;
        [apply (harvests_id m out)|].
      rewrite Z.geb_leb in Ecap; apply Z.leb_gt in Ecap. simpl in Hv.
      destruct (harvests_append m k out Ecap) as (_ & _ & _ & Lk).
      destruct (Hv (out ++ [JStr k])) as (a1 & E1 & F1 & L1).
      destruct (IHd (collect_strings v (out ++ [JStr k]) m)) as (a2 & E2 & F2 & L2).
      exists ([JStr k] ++ a1 ++ a2). repeat split.
      * rewrite E2, E1. now rewrite <- !app_assoc.
      * apply Forall_app; split; [repeat constructor; now exists k|].
        now apply Forall_app.
      * lia.
Qed.

(** Once the cap is reached, a call changes nothing. *)
Lemma collect_strings_full m obj out :
  m <= Z.of_nat (List.length out) -> collect_strings obj out m = out.
Proof.
  intros H. destruct obj; cbn [collect_strings];
    destruct (Z.of_nat (List.length out) >=? m) eqn:E; try reflexivity;
    rewrite Z.geb_leb in E; apply Z.leb_gt in E; lia.
Qed.

Lemma str_take_len n s : 0 <= n -> len (str_take n s) <= n.
Proof.
  unfold len. revert n.
  induction s as [|c s IH]; intros n Hn; simpl; [lia|].
  destruct (n <=? 0) eqn:E; simpl; [lia|].
  apply Z.leb_gt in E. specialize (IH (n - 1)). lia.
Qed.

Lemma all_strs_total xs : Forall is_str xs -> exists ss, all_strs xs = Ok ss.
Proof.
  induction 1 as [|x xs [s ->] _ [ss IH]]; simpl.
  - now exists [].
  - rewrite IH. simpl. now exists (s :: ss).
Qed.

Lemma all_strs_error xs e : all_strs xs = Err e -> e = TypeError.
Proof.
  induction xs as [|x xs IH]; simpl; [discriminate|].
  destruct x; try (now intros [= <-]).
  destruct (all_strs xs); simpl; [discriminate|].
  intros [= <-]. now apply IH.
Qed.

Lemma mentions_phytozome_is_str v : mentions_phytozome v = true -> is_str v.
Proof. destruct v; try discriminate. intros _. now eexists. Qed.

Lemma phytozome_strings_are_strs strings : Forall is_str (filter mentions_phytozome strings).
Proof.
  apply Forall_forall. intros v Hv. apply filter_In in Hv as [_ Hv].
  now apply mentions_phytozome_is_str.
Qed.

Lemma harvest_dict d :
  exists strings,
    harvest (JDict d) = Ok strings /\
    (List.length strings <= 2000)%nat /\
    (name_is_text d -> Forall is_str strings).
Proof.
  unfold harvest. cbn [py_get bind].
  set (fname := py_or _ _).
  set (seed := if truthy fname then [fname] else []).
  destruct (collect_strings_harvests 2000 (JDict d) seed) as (added & E & F & L).
  eexists. split; [reflexivity|]. split.
  - assert (Z.of_nat (List.length seed) <= 1) by (subst seed; destruct (truthy fname); simpl; lia).
    lia.
  - intros Hname. rewrite E. apply Forall_app. split; [|exact F].
    subst seed. destruct (truthy fname) eqn:Et; [|constructor].
    repeat constructor. subst fname. unfold py_or in *.
    destruct (assoc "file_name" d) as [v|] eqn:Ea.
    + destruct (truthy v) eqn:Ev; [now apply Hname|now exists ""].
    + now exists "".
Qed.

Lemma chosen_strings_are_strs strings :
  Forall is_str strings -> Forall is_str (chosen_strings strings).
Proof.
  intros H. unfold chosen_strings.
  pose proof (phytozome_strings_are_strs strings) as Hp.
  destruct (filter mentions_phytozome strings); auto.
Qed.

Lemma room_full m out :
  (Z.of_nat (List.length out) >=? m) = true -> room m out = 0%nat.
Proof. unfold room. rewrite Z.geb_leb. intros H. apply Z.leb_le in H. lia. Qed.

Lemma room_after m out n (l : list json) :
  room m (out ++ firstn n l) = (room m out - Nat.min n (List.length l))%nat.
Proof. unfold room. rewrite length_app, length_firstn. lia. Qed.

Lemma firstn_room_app m out (a b : list json) :
  (out ++ firstn (room m out) a)
    ++ firstn (room m (out ++ firstn (room m out) a)) b
  = out ++ firstn (room m out) (a ++ b).
Proof.
  rewrite room_after, firstn_app, <- app_assoc. do 2 f_equal.
  destruct (Nat.le_ge_cases (room m out) (List.length a)) as [H|H].
  - rewrite Nat.min_l by exact H.
    replace (room m out - List.length a)%nat with 0%nat by lia.
    now rewrite Nat.sub_diag.
  - now rewrite Nat.min_r by exact H.
Qed.

Lemma collect_strings_firstn m obj : forall out,
  collect_strings obj out m = out ++ firstn (room m out) (all_strings obj).
Proof.
  induction obj as [| b | n | s | l IH | d IH] using json_induction; intros out;
    cbn [collect_strings all_strings];
    destruct (Z.of_nat (List.length out) >=? m) eqn:Ecap;
    try (rewrite (room_full _ _ Ecap); cbn [firstn]; now rewrite app_nil_r);
    try (cbn [firstn]; now rewrite ?firstn_nil, app_nil_r).
  - (* str *)
    assert (room m out <> 0%nat).
    { unfold room. rewrite Z.geb_leb in Ecap. apply Z.leb_gt in Ecap. lia. }
    destruct (room m out); [congruence|]. cbn [firstn]. now rewrite firstn_nil.
  - (* list *)
    clear Ecap. revert out.
    induction IH as [| v l Hv _ IHl]; intros out.
    + now rewrite firstn_nil, app_nil_r.
    + destruct (Z.of_nat (List.length out) >=? m) eqn:Ecap.
      * rewrite (room_full _ _ Ecap). cbn [firstn]. now rewrite app_nil_r.
      * rewrite IHl, Hv. apply firstn_room_app.
  - (* dict *)
    clear Ecap. revert out.
    induction IH as [| [k v] d Hv _ IHd]; intros out.
    + now rewrite firstn_nil, app_nil_r.
    + destruct (Z.of_nat (List.length out) >=? m) eqn:Ecap.
      * rewrite (room_full _ _ Ecap). cbn [firstn]. now rewrite app_nil_r.
      * simpl in Hv. rewrite IHd, Hv.
        assert (Hroom : room m out = S (room m (out ++ [JStr k]))).
        { unfold room. rewrite length_app. cbn [List.length].
          rewrite Z.geb_leb in Ecap. apply Z.leb_gt in Ecap. lia. }
        rewrite firstn_room_app, Hroom. cbn [firstn].
        now rewrite <- app_assoc.
Qed.

(** What a run on the stack of the interpreter can be: the result of the
    run that never meets the limit, or [RecursionError] on a value nested
    deeper than the frames left. *)
Lemma nesting_positive obj : (1 <= nesting obj)%nat.
Proof. destruct obj; cbn; lia. Qed.

Lemma collect_strings_within_outcome m obj : forall frames out,
  match collect_strings_within frames obj out m with
  | Ok out' => out' = collect_strings obj out m
  | Err e => e = RecursionError /\ (frames < nesting obj)%nat
  end.
Proof.
  induction obj as [| b | n | s | l IH | d IH] using json_induction;
    intros [|frames] out;
    try (cbn [collect_strings_within]; split; [reflexivity|cbn; lia]);
    cbn [collect_strings_within collect_strings];
    destruct (Z.of_nat (List.length out) >=? m) eqn:Ecap; try reflexivity.
  - (* list *)
    clear Ecap. cbn [nesting]. revert out.
    induction IH as [| v l Hv _ IHl]; intros out; [reflexivity|].
    destruct (Z.of_nat (List.length out) >=? m); [reflexivity|].
    specialize (Hv frames out).
    destruct (collect_strings_within frames v out m) as [o1|e]; cbn [bind].
    + subst o1. specialize (IHl (collect_strings v out m)).
      match goal with
      | |- match ?x with _ => _ end => destruct x as [o2|e]
      end.
      * exact IHl.
      * destruct IHl as [-> Hlt]. split; [reflexivity|]. lia.
    + destruct Hv as [-> Hlt]. split; [reflexivity|]. lia.
  - (* dict *)
    clear Ecap. cbn [nesting]. revert out.
    induction IH as [| [k v] d Hv _ IHd]; intros out; [reflexivity|].
    destruct (Z.of_nat (List.length out) >=? m); [reflexivity|].
    simpl in Hv. specialize (Hv frames (out ++ [JStr k])).
    destruct (collect_strings_within frames v (out ++ [JStr k]) m) as [o1|e];
      cbn [bind].
    + subst o1. specialize (IHd (collect_strings v (out ++ [JStr k]) m)).
      match goal with
      | |- match ?x with _ => _ end => destruct x as [o2|e]
      end.
      * exact IHd.
      * destruct IHd as [-> Hlt]. split; [reflexivity|]. lia.
    + destruct Hv as [-> Hlt]. split; [reflexivity|]. lia.
Qed.

Lemma harvest_within_outcome frames d :
  match harvest_within frames (JDict d) with
  | Ok strings => harvest (JDict d) = Ok strings
  | Err e => e = RecursionError /\ (frames < nesting (JDict d))%nat
  end.
Proof.
  unfold harvest_within, harvest. cbn [py_get bind].
  set (seed := if truthy _ then _ else _).
  pose proof (collect_strings_within_outcome 2000 (JDict d) frames seed) as H.
  destruct (collect_strings_within frames (JDict d) seed 2000); [now subst|exact H].
Qed.


Example crowded_file_harvest :
  option_map (@List.length json)
             (match harvest (JDict crowded_file) with Ok l => Some l | Err _ => None end)
  = Some 2000%nat.
Proof. vm_compute. reflexivity. Qed.

Example crowded_file_detect : detect (JDict crowded_file) = Ok None.
Proof. vm_compute. reflexivity. Qed.

Example crowded_file_nesting : nesting (JDict crowded_file) = 3%nat.
Proof. reflexivity. Qed.



(** ** Marker preference *)

Lemma all_strs_texts xs : Forall is_str xs -> all_strs xs = Ok (texts xs).
Proof.
  induction 1 as [|x xs [s ->] _ IH]; simpl; [reflexivity|].
  now rewrite IH.
Qed.

Lemma str_take_all n s : len s <= n -> str_take n s = s.
Proof.
  unfold len. revert n.
  induction s as [|c s IH]; intros n Hn; simpl in *; [reflexivity|].
  destruct (n <=? 0) eqn:E.
  - apply Z.leb_le in E. lia.
  - f_equal. apply IH. lia.
Qed.

Lemma haystack_of_marked file_obj strings :
  harvest file_obj = Ok strings ->
  filter mentions_phytozome strings <> [] ->
  build_version_haystack file_obj
  = Ok (str_take 200000
          (str_join " " (texts (filter mentions_phytozome strings)))).
Proof.
  intros Hh Hne. unfold build_version_haystack, chosen_strings, py_join.
  rewrite Hh. cbn [bind].
  pose proof (all_strs_texts _ (phytozome_strings_are_strs strings)) as Hs.
  destruct (filter mentions_phytozome strings) as [|m ms]; [congruence|].
  now rewrite Hs.
Qed.

(** C4.  The strings harvested from a file object split into those that
    mention "phytozome" in any letter case and the others.  When some
    mention it, the haystack is made of them alone, so detection depends
    on nothing else; otherwise the haystack is made of every harvested
    string.  On [marked_file] detection answers 13, although the whole
    harvest read in order would give 12. *)
Theorem marker_preference :
  (forall file_obj strings,
      harvest file_obj = Ok strings ->
      let marked := filter mentions_phytozome strings in
      (marked <> [] ->
       build_version_haystack file_obj
       = Ok (str_take 200000 (str_join " " (texts marked))) /\
       (forall file_obj' strings',
           harvest file_obj' = Ok strings' ->
           filter mentions_phytozome strings' = marked ->
           detect file_obj' = detect file_obj) /\
       (forall m, marked = [JStr m] -> len m <= 200000 ->
                  detect file_obj = Ok (extract_phytozome_version m))) /\
      (marked = [] ->
       build_version_haystack file_obj
       = (haystack <- py_join " " strings ;; Ok (str_take 200000 haystack)))) /\
  detect marked_file = Ok (Some 13) /\
  (exists strings,
      harvest marked_file = Ok strings /\
      extract_phytozome_version (str_join " " (texts strings)) = Some 12).
Proof.
  split; [|split].
  - intros file_obj strings Hh marked. split.
    + intros Hne.
      pose proof (haystack_of_marked file_obj strings Hh Hne) as Hb.
      fold marked in Hb. split; [exact Hb|]. split.
      * intros file_obj' strings' Hh' Hsame.
        assert (Hne' : filter mentions_phytozome strings' <> []) by congruence.
        pose proof (haystack_of_marked file_obj' strings' Hh' Hne') as Hb'.
        unfold detect. rewrite Hb, Hb'. now rewrite Hsame.
      * intros m Hm Hlen. unfold detect. rewrite Hb, Hm. cbn.
        now rewrite (str_take_all _ _ Hlen).
    + intros Hnone. unfold build_version_haystack, chosen_strings.
      rewrite Hh. cbn [bind]. fold marked. now rewrite Hnone.
  - vm_compute. reflexivity.
  - eexists. split; vm_compute; reflexivity.
Qed.

Lemma marker_preference_witness :
  detect plain_file = Ok (extract_phytozome_version "Phytozome/PhytozomeV13/x").
Proof.
  destruct marker_preference as [H _].
  destruct (H plain_file _ eq_refl) as [Hmarked _].
  apply Hmarked.
  - vm_compute. discriminate.
  - vm_compute. reflexivity.
  - vm_compute. discriminate.
Defined.

(** ** De-duplication *)

Lemma pykey_eqb_eq a b : pykey_eqb a b = true <-> a = b.
Proof.
  destruct a, b; simpl; split; try discriminate; try reflexivity.
  - intros H. apply Z.eqb_eq in H. now subst.
  - intros [= ->]. apply Z.eqb_refl.
  - intros H. apply String.eqb_eq in H. now subst.
  - intros [= ->]. apply String.eqb_refl.
Qed.

Lemma seen_spec k seen : existsb (pykey_eqb k) seen = true <-> In k seen.
Proof.
  rewrite existsb_exists. split.
  - intros (x & Hx & E). apply pykey_eqb_eq in E. now subst.
  - intros H. exists k. split; [exact H|]. now apply pykey_eqb_eq.
Qed.

Lemma dedup_loop_kept xs : forall seen out ys,
  dedup_loop xs seen out = Ok ys ->
  Forall hashable xs /\ ys = out ++ kept seen xs.
Proof.
  induction xs as [|x xs IH]; intros seen out ys; simpl.
  - intros [= <-]. split; [constructor|now rewrite app_nil_r].
  - destruct (key_of x) as [k|] eqn:Ek; [|discriminate].
    assert (Hx : hashable x) by (unfold hashable; congruence).
    destruct (existsb (pykey_eqb k) seen); intros H; apply IH in H as [Hall ->].
    + split; [now constructor|reflexivity].
    + split; [now constructor|now rewrite <- app_assoc].
Qed.

Lemma dedup_loop_total xs : forall seen out,
  Forall hashable xs -> dedup_loop xs seen out = Ok (out ++ kept seen xs).
Proof.
  induction xs as [|x xs IH]; intros seen out Hall; simpl.
  - now rewrite app_nil_r.
  - inversion Hall as [|? ? Hx Hxs]; subst.
    destruct (key_of x) as [k|] eqn:Ek; [|now elim Hx].
    destruct (existsb (pykey_eqb k) seen).
    + now apply IH.
    + rewrite IH by assumption. now rewrite <- app_assoc.
Qed.

Lemma kept_keys seen xs (Hall : Forall hashable xs) :
  forall k, In k (keys (kept seen xs)) <-> In k (keys xs) /\ ~ In k seen.
Proof.
  revert seen. induction Hall as [|x xs Hx _ IH]; intros seen k; simpl.
  - tauto.
  - destruct (key_of x) as [kx|] eqn:Ek; [|now elim Hx].
    destruct (existsb (pykey_eqb kx) seen) eqn:Es.
    + apply seen_spec in Es. rewrite IH. simpl. intuition congruence.
    + assert (Hn : ~ In kx seen) by (rewrite <- seen_spec; congruence).
      simpl. rewrite Ek. simpl. rewrite IH. simpl.
      destruct (pykey_eqb kx k) eqn:E.
      * apply pykey_eqb_eq in E. subst. tauto.
      * assert (kx <> k) by (rewrite <- pykey_eqb_eq; congruence). tauto.
Qed.

Lemma kept_nodup seen xs (Hall : Forall hashable xs) : NoDup (keys (kept seen xs)).
Proof.
  revert seen. induction Hall as [|x xs Hx Hxs IH]; intros seen; simpl.
  - constructor.
  - destruct (key_of x) as [kx|] eqn:Ek; [|now elim Hx].
    destruct (existsb (pykey_eqb kx) seen); [apply IH|].
    simpl. rewrite Ek. simpl. constructor; [|apply IH].
    rewrite (kept_keys _ _ Hxs). simpl. tauto.
Qed.

Lemma kept_sublist seen xs : forall x, In x (kept seen xs) -> In x xs.
Proof.
  revert seen. induction xs as [|y xs IH]; intros seen x; simpl; [tauto|].
  destruct (key_of y); [|simpl; tauto].
  destruct (existsb _ seen); simpl; intros H.
  - right. eapply IH, H.
  - destruct H as [H|H]; [now left|right; eapply IH, H].
Qed.

(** A list without repeated keys, none of them seen before, is kept as
    it is. *)
Lemma kept_fixed xs (Hall : Forall hashable xs) : forall seen,
  NoDup (keys xs) -> (forall k, In k (keys xs) -> ~ In k seen) ->
  kept seen xs = xs.
Proof.
  induction Hall as [|x xs Hx _ IH]; intros seen Hnd Hfresh; simpl in *.
  - reflexivity.
  - destruct (key_of x) as [kx|] eqn:Ek; [|now elim Hx].
    simpl in *. inversion Hnd as [|? ? Hnot Hnd']; subst.
    destruct (existsb (pykey_eqb kx) seen) eqn:Es.
    + apply seen_spec in Es. elim (Hfresh kx); auto.
    + f_equal. apply IH; [exact Hnd'|].
      intros k Hk [<-|Hs]; [contradiction|]. apply (Hfresh k); auto.
Qed.

Lemma kept_snoc xs (Hall : Forall hashable xs) : forall seen x k,
  key_of x = Some k ->
  kept seen (xs ++ [x])
  = kept seen xs
    ++ (if existsb (pykey_eqb k) (seen ++ keys xs) then [] else [x]).
Proof.
  induction Hall as [|y xs Hy _ IH]; intros seen x k Ek; simpl.
  - rewrite Ek, app_nil_r. now destruct (existsb (pykey_eqb k) seen).
  - destruct (key_of y) as [ky|] eqn:Ey; [|now elim Hy].
    destruct (existsb (pykey_eqb ky) seen) eqn:Es.
    + rewrite (IH seen x k Ek). f_equal.
      assert (E : existsb (pykey_eqb k) (seen ++ keys xs)
                  = existsb (pykey_eqb k) (seen ++ [ky] ++ keys xs)).
      { apply seen_spec in Es. apply eq_true_iff_eq.
        rewrite !seen_spec, !in_app_iff. simpl. intuition congruence. }
      now rewrite E.
    + rewrite (IH (ky :: seen) x k Ek). simpl. f_equal. f_equal.
      assert (E : existsb (pykey_eqb k) (ky :: seen ++ keys xs)
                  = existsb (pykey_eqb k) (seen ++ [ky] ++ keys xs)).
      { apply eq_true_iff_eq.
        change (ky :: seen ++ keys xs) with ((ky :: seen) ++ keys xs).
        rewrite !seen_spec, !in_app_iff. simpl. tauto. }
      simpl in E. simpl. now rewrite E.
Qed.

Lemma dedup_values_groups m : forall m',
  dedup_values m = Ok m' ->
  Forall2 (fun e e' => fst e' = fst e /\ dedup (snd e) = Ok (snd e')) m m'.
Proof.
  induction m as [|[k v] m IH]; intros m'; simpl.
  - intros [= <-]. constructor.
  - destruct (dedup v) as [v'|] eqn:Ev; [|discriminate]. cbn [bind].
    destruct (dedup_values m) as [m''|]; [|discriminate]. cbn [bind].
    intros [= <-]. constructor; [now split|now apply IH].
Qed.

Lemma dedup_facts xs ys :
  dedup xs = Ok ys ->
  Forall hashable xs /\ Forall hashable ys /\ ys = kept [] xs /\
  NoDup (keys ys) /\ (forall k, In k (keys ys) <-> In k (keys xs)).
Proof.
  intros H. apply dedup_loop_kept in H as [Hall ->]. simpl.
  split; [exact Hall|]. split; [|split; [reflexivity|split]].
  - rewrite Forall_forall in *. intros y Hy. eapply Hall, kept_sublist, Hy.
  - now apply kept_nodup.
  - intros k. rewrite (kept_keys [] xs Hall). simpl. tauto.
Qed.

Lemma dedup_fixed xs : Forall hashable xs -> NoDup (keys xs) -> dedup xs = Ok xs.
Proof.
  intros Hall Hnd. unfold dedup. rewrite dedup_loop_total by assumption.
  simpl. f_equal. now apply kept_fixed.
Qed.

Lemma dedup_values_deduplicated m m' : dedup_values m = Ok m' -> deduplicated m'.
Proof.
  intros H. apply dedup_values_groups in H.
  induction H as [|e e' m m' [_ He] _ IH]; constructor; [|exact IH].
  apply dedup_facts in He as (_ & Hh & _ & Hnd & _).
  split; [exact Hnd|now apply dedup_fixed].
Qed.

(** ** The parser, step by step *)

Lemma bind_ok {A B} (m : result A) (k : A -> result B) b :
  bind m k = Ok b -> exists a, m = Ok a /\ k a = Ok b.
Proof. destruct m as [a|e]; simpl; [eauto|discriminate]. Qed.

Ltac inv_bind H :=
  let a := fresh "a" in
  let E := fresh "E" in
  apply bind_ok in H as (a & E & H).

Lemma for_each_app {S A} (body : S -> A -> result S) xs ys st :
  for_each body (xs ++ ys) st = (st' <- for_each body xs st ;; for_each body ys st').
Proof.
  revert st. induction xs as [|x xs IH]; intros st; simpl; [reflexivity|].
  destruct (body st x); simpl; [apply IH|reflexivity].
Qed.

(** A property kept by every iteration is kept by the loop. *)
Lemma for_each_invariant {S A} (body : S -> A -> result S) (J : S -> Prop)
      (Hbody : forall st x st', body st x = Ok st' -> J st -> J st') xs :
  forall st st', for_each body xs st = Ok st' -> J st -> J st'.
Proof.
  induction xs as [|x xs IH]; intros st st'; simpl.
  - now intros [= <-].
  - intros H. inv_bind H. intros HJ. eapply IH; eauto.
Qed.

Lemma truthy_py_or_str v : truthy (py_or v (JStr "")) = truthy v.
Proof. unfold py_or. now destruct (truthy v) eqn:E. Qed.

Lemma py_or_truthy v w : truthy v = true -> py_or v w = v.
Proof. unfold py_or. now intros ->. Qed.

Section ParserSteps.

Variable fnmatch : string -> string -> bool.
Variables include_globs exclude_globs : list string.

Lemma parse_file_step dataset_id st f st' :
  parse_file fnmatch include_globs exclude_globs dataset_id st f = Ok st' ->
  file_step fnmatch include_globs exclude_globs dataset_id st f st'.
Proof.
  unfold parse_file. intros H.
  destruct f as [| | | | |d]; try discriminate.
  cbn [py_get bind] in H. fold (field "_id" d) in H.
  fold (field "file_name" d) in H. fold (field "file_status" d) in H.
  inv_bind H. rename a into status.
  rewrite truthy_py_or_str in H.
  destruct (truthy (field "_id" d)) eqn:Eid; cbn [negb orb] in H.
  2:{ injection H as <-. eapply file_skipped; eauto. }
  destruct (truthy (field "file_name" d)) eqn:En; cbn [negb] in H.
  2:{ injection H as <-. eapply file_skipped; eauto. }
  rewrite (py_or_truthy _ _ En) in H.
  inv_bind H. rename a into sel. inv_bind H. rename a into haystack.
  destruct sel; cbn [negb] in H.
  - inv_bind H. rename a into ids. inv_bind H. rename a into purged.
    injection H as <-.
    eapply (file_recorded _ _ _ _ _ _ d status true haystack ids purged); eauto.
  - injection H as <-.
    eapply (file_recorded _ _ _ _ _ _ d status false haystack); eauto.
Qed.

(** A property of the state kept by every file step is kept by the whole
    parse. *)
Lemma parse_loops_invariant (J : pstate -> Prop)
      (Hstep : forall ds st f st', truthy ds = true ->
                                   file_step fnmatch include_globs exclude_globs
                                             ds st f st' ->
                                   J st -> J st')
      search_json st :
  parse_loops fnmatch search_json include_globs exclude_globs = Ok st ->
  J (mkState [] [] []) -> J st.
Proof.
  unfold parse_loops. intros H. inv_bind H. inv_bind H.
  revert H. apply for_each_invariant.
  intros st0 org st0' H0. unfold parse_org in H0. inv_bind H0.
  destruct (truthy a1) eqn:Eds; cbn [negb] in H0.
  - inv_bind H0. inv_bind H0. revert H0. apply for_each_invariant.
    intros st1 f st2 Hf. eapply Hstep; eauto using parse_file_step.
  - now injection H0 as <-.
Qed.

End ParserSteps.

(** ** Selection maps as projections of the manifest *)

Lemma file_step_rebuild fnmatch inc exc ds st f st' :
  file_step fnmatch inc exc ds st f st' ->
  in_step_with_rebuild st -> in_step_with_rebuild st'.
Proof.
  unfold in_step_with_rebuild.
  intros [d _ _|d status sel haystack ids purged _ _ _ _ _ _ Hmaps] J; [exact J|].
  cbn [manifest_rows selected_ids selected_purged].
  rewrite for_each_app, J. cbn [bind for_each].
  unfold rebuild_row. cbn [selected dataset_id file_id file_status fst snd].
  destruct sel; cbn [negb].
  - destruct Hmaps as [-> ->]. reflexivity.
  - destruct Hmaps as [-> ->]. reflexivity.
Qed.

Lemma parse_search_rebuild fnmatch search_json inc exc rows ids purged :
  parse_search fnmatch search_json inc exc = Ok (rows, ids, purged) ->
  rebuild_selected_maps rows = Ok (ids, purged).
Proof.
  unfold parse_search. intros H. inv_bind H. rename a into st.
  inv_bind H. inv_bind H. injection H as <- <- <-.
  assert (J : in_step_with_rebuild st).
  { apply (parse_loops_invariant fnmatch inc exc in_step_with_rebuild)
      with (search_json := search_json); [|exact E|reflexivity].
    intros ds st0 f st1 _. apply file_step_rebuild. }
  unfold rebuild_selected_maps. rewrite J. cbn [bind fst snd].
  now rewrite E0, E1.
Qed.

Lemma select_files_ok fnmatch latest_only search_json inc exc rows' ids' purged' w :
  select_files fnmatch latest_only search_json inc exc = Ok (rows', ids', purged', w) ->
  exists rows ids purged,
    parse_search fnmatch search_json inc exc = Ok (rows, ids, purged) /\
    (if latest_only
     then rows' = apply_latest_only rows /\
          rebuild_selected_maps rows' = Ok (ids', purged')
     else rows' = rows /\ ids' = ids /\ purged' = purged) /\
    w = no_effect_warning latest_only rows'.
Proof.
  unfold select_files. intros H. inv_bind H. destruct a as [[rows ids] purged].
  exists rows, ids, purged. split; [exact E|].
  destruct latest_only.
  - inv_bind H. destruct a as [[r i] q]. injection H as <- <- <- <-.
    inv_bind E0. destruct a as [i' q']. injection E0 as <- <- <-. auto.
  - cbn [bind] in H. injection H as <- <- <- <-. auto.
Qed.

(** ** Include and exclude globs *)

Section Globs.

Variable fnmatch : string -> string -> bool.

Lemma glob_selection_str name inc exc :
  glob_selection fnmatch (JStr name) inc exc = Ok (wanted fnmatch name inc exc).
Proof.
  unfold glob_selection, wanted, matches_any_glob.
  destruct inc as [|g inc]; cbn [nonempty bind].
  - destruct exc as [|x exc]; cbn [nonempty andb bind]; [reflexivity|].
    now destruct (existsb (fnmatch name) (x :: exc)).
  - destruct (existsb (fnmatch name) (g :: inc)); cbn [andb].
    + destruct exc as [|x exc]; cbn [nonempty bind]; [reflexivity|].
      now destruct (existsb (fnmatch name) (x :: exc)).
    + reflexivity.
Qed.

Lemma file_step_filtered inc exc ds st f st' :
  file_step fnmatch inc exc ds st f st' ->
  rows_filtered fnmatch inc exc (manifest_rows st) ->
  rows_filtered fnmatch inc exc (manifest_rows st').
Proof.
  intros [d _ _|d status sel haystack ids purged _ _ _ _ Hsel _ _] J; [exact J|].
  cbn [manifest_rows]. apply Forall_app. split; [exact J|].
  repeat constructor. cbn [file_name selected]. intros name Hname.
  rewrite Hname, glob_selection_str in Hsel. congruence.
Qed.

End Globs.

(** C3.  For a file whose name is the str [name]: with include globs,
    the file is selected exactly when the name matches one of them, and
    with none it is selected by default; a name that matches an exclude
    glob is never selected.  Every row the parser records carries that
    flag. *)
Theorem include_exclude_semantics (fnmatch : string -> string -> bool)
        (include_globs exclude_globs : list string) :
  (forall name,
      glob_selection fnmatch (JStr name) include_globs exclude_globs
      = Ok (wanted fnmatch name include_globs exclude_globs) /\
      (existsb (fnmatch name) exclude_globs = true ->
       wanted fnmatch name include_globs exclude_globs = false) /\
      (existsb (fnmatch name) exclude_globs = false ->
       include_globs <> [] ->
       wanted fnmatch name include_globs exclude_globs
       = existsb (fnmatch name) include_globs) /\
      (existsb (fnmatch name) exclude_globs = false ->
       include_globs = [] ->
       wanted fnmatch name include_globs exclude_globs = true)) /\
  (forall search_json rows ids purged,
      parse_search fnmatch search_json include_globs exclude_globs
      = Ok (rows, ids, purged) ->
      rows_filtered fnmatch include_globs exclude_globs rows).
Proof.
  split.
  - intros name. split; [apply glob_selection_str|]. unfold wanted.
    split; [|split].
    + intros ->. apply andb_false_r.
    + intros -> Hne. destruct include_globs; [congruence|]. apply andb_true_r.
    + intros -> ->. reflexivity.
  - intros search_json rows ids purged H. unfold parse_search in H.
    inv_bind H. inv_bind H. inv_bind H. injection H as <- _ _.
    apply (parse_loops_invariant fnmatch include_globs exclude_globs
             (fun st => rows_filtered fnmatch include_globs exclude_globs
                                      (manifest_rows st)))
      with (search_json := search_json) in E; [exact E| |constructor].
    intros ds st f st' _. apply file_step_filtered.
Qed.

(** ** A worked query *)

Example sample_parse :
  parse_search fnmatch_plain sample_search sample_include sample_exclude
  = Ok (sample_rows,
        [(JStr "ds1", [JStr "a"; JStr "b"; JStr "e"])],
        [(JStr "ds1", [JStr "b"])]).
Proof. vm_compute. reflexivity. Qed.

Lemma include_exclude_semantics_witness :
  rows_filtered fnmatch_plain sample_include sample_exclude sample_rows /\
  wanted fnmatch_plain "a.gff3.gz" ["*.gff3.gz"] ["*masked*"] = true /\
  wanted fnmatch_plain "a.gff3.gz" ["*.gff3.gz"] ["*.gff3.gz"] = false.
Proof.
  split; [|split].
  - apply (proj2 (include_exclude_semantics fnmatch_plain sample_include sample_exclude)
                 sample_search sample_rows
                 [(JStr "ds1", [JStr "a"; JStr "b"; JStr "e"])]
                 [(JStr "ds1", [JStr "b"])]).
    vm_compute. reflexivity.
  - destruct (proj1 (include_exclude_semantics fnmatch_plain ["*.gff3.gz"] ["*masked*"])
                    "a.gff3.gz") as (_ & _ & Hinc & _).
    rewrite Hinc; [reflexivity|reflexivity|discriminate].
  - apply (proj1 (include_exclude_semantics fnmatch_plain ["*.gff3.gz"] ["*.gff3.gz"])
                 "a.gff3.gz").
    reflexivity.
Defined.

(** ** Where the entries of a selection map come from *)

Lemma append_at_elim k ds fid m (Hk : key_of ds = Some k) e' x :
  In e' (append_at k ds fid m) -> In x (snd e') ->
  (x = fid /\ key_of (fst e') = Some k) \/
  (exists e, In e m /\ fst e = fst e' /\ In x (snd e)).
Proof.
  induction m as [|[d fids] m IH]; simpl.
  - intros [<-|[]]. simpl. intros [<-|[]]. now left.
  - assert (Hrest : (d, fids) = e' \/ In e' (append_at k ds fid m) ->
                    In x (snd e') ->
                    (x = fid /\ key_of (fst e') = Some k) \/
                    (exists e, ((d, fids) = e \/ In e m) /\ fst e = fst e' /\ In x (snd e))).
    { intros [<-|Hin] Hx.
      - right. exists (d, fids). auto.
      - destruct (IH Hin Hx) as [?|(e & He & ? & ?)]; [now left|].
        right. exists e. auto. }
    destruct (key_of d) as [k'|] eqn:Ed; [|exact Hrest].
    destruct (pykey_eqb k' k) eqn:Ek; [|exact Hrest].
    apply pykey_eqb_eq in Ek. subst k'.
    intros [<-|Hin]; simpl.
    + intros Hx. apply in_app_or in Hx as [Hx|[<-|[]]].
      * right. exists (d, fids). auto.
      * now left.
    + intros Hx. right. exists e'. auto.
Qed.

Lemma append_at_keeps k ds fid m e x :
  In e m -> In x (snd e) ->
  exists e', In e' (append_at k ds fid m) /\ fst e' = fst e /\ In x (snd e').
Proof.
  induction m as [|[d fids] m IH]; simpl; [tauto|].
  intros [<-|Hin] Hx.
  - simpl in Hx.
    destruct (key_of d) as [k'|]; [destruct (pykey_eqb k' k)|].
    + exists (d, fids ++ [fid]). simpl. rewrite in_app_iff. auto.
    + exists (d, fids). simpl. auto.
    + exists (d, fids). simpl. auto.
  - destruct (IH Hin Hx) as (e' & He' & ? & ?).
    destruct (key_of d) as [k'|]; [destruct (pykey_eqb k' k)|].
    + exists e. simpl. auto.
    + exists e'. simpl. auto.
    + exists e'. simpl. auto.
Qed.

Lemma append_at_adds k ds fid m (Hk : key_of ds = Some k) :
  exists e', In e' (append_at k ds fid m) /\ key_of (fst e') = Some k /\ In fid (snd e').
Proof.
  induction m as [|[d fids] m (e' & He' & ? & ?)]; simpl.
  - exists (ds, [fid]). simpl. auto.
  - destruct (key_of d) as [k'|] eqn:Ed; [destruct (pykey_eqb k' k) eqn:Ek|].
    + apply pykey_eqb_eq in Ek. subst k'.
      exists (d, fids ++ [fid]). simpl. rewrite in_app_iff. simpl. auto.
    + exists e'. simpl. auto.
    + exists e'. simpl. auto.
Qed.

Lemma setdefault_append_ok ds fid m m' :
  setdefault_append ds fid m = Ok m' ->
  exists k, key_of ds = Some k /\ m' = append_at k ds fid m.
Proof.
  unfold setdefault_append. destruct (key_of ds) as [k|]; [|discriminate].
  intros [= <-]. eauto.
Qed.

Lemma keys_in xs k : In k (keys xs) <-> exists x, In x xs /\ key_of x = Some k.
Proof.
  unfold keys. rewrite in_flat_map. split.
  - intros (x & Hx & Hk). exists x. split; [exact Hx|].
    destruct (key_of x); simpl in Hk; [|tauto]. destruct Hk as [->|[]]. reflexivity.
  - intros (x & Hx & Hk). exists x. split; [exact Hx|]. rewrite Hk. now left.
Qed.

Lemma drawn_from_more P rows r m : drawn_from P rows m -> drawn_from P (rows ++ [r]) m.
Proof.
  intros H e x He Hx. destruct (H e x He Hx) as (r' & ? & ?).
  exists r'. rewrite in_app_iff. auto.
Qed.

Lemma drawn_from_append (P : row -> Prop) rows r m m' :
  P r ->
  setdefault_append (dataset_id r) (file_id r) m = Ok m' ->
  drawn_from P rows m -> drawn_from P (rows ++ [r]) m'.
Proof.
  intros Hsel Hm H e' x He' Hx.
  apply setdefault_append_ok in Hm as (k & Hk & ->).
  destruct (append_at_elim k _ _ m Hk e' x He' Hx) as [[-> Hke]|(e & He & Hfst & Hxe)].
  - exists r. rewrite in_app_iff. simpl. repeat split; auto. congruence.
  - destruct (H e x He Hxe) as (r' & ? & ? & ? & ?).
    exists r'. rewrite in_app_iff. repeat split; auto. congruence.
Qed.

Lemma drawn_from_dedup P rows m m' :
  dedup_values m = Ok m' -> drawn_from P rows m -> drawn_from P rows m'.
Proof.
  intros Hd H. apply dedup_values_groups in Hd.
  induction Hd as [|e e' m m' [Hfst He] _ IH]; intros e0 x; simpl; [tauto|].
  intros [<-|Hin] Hx.
  - apply dedup_facts in He as (_ & _ & Hk & _). rewrite Hk in Hx.
    apply kept_sublist in Hx.
    destruct (H e x (or_introl eq_refl) Hx) as (r & ? & ? & ? & ?).
    exists r. repeat split; auto. congruence.
  - apply IH; auto. intros e1 x1 He1. apply H. now right.
Qed.

Lemma covers_more rows r m :
  ~ purged_row r -> covers rows m -> covers (rows ++ [r]) m.
Proof.
  intros Hr H r' Hin Hp. apply in_app_or in Hin as [Hin|[<-|[]]]; [|contradiction].
  now apply H.
Qed.

Lemma covers_append rows r m m' :
  setdefault_append (dataset_id r) (file_id r) m = Ok m' ->
  covers rows m -> covers (rows ++ [r]) m'.
Proof.
  intros Hm H r' Hin Hp.
  apply setdefault_append_ok in Hm as (k & Hk & ->).
  apply in_app_or in Hin as [Hin|[<-|[]]].
  - destruct (H r' Hin Hp) as (e & He & Hfst & x & Hx & Hkx).
    destruct (append_at_keeps k (dataset_id r) (file_id r) m e x He Hx)
      as (e' & He' & Hfst' & Hx').
    exists e'. split; [exact He'|]. split; [congruence|]. eauto.
  - destruct (append_at_adds k (dataset_id r) (file_id r) m Hk) as (e' & He' & Hke & Hx).
    exists e'. split; [exact He'|]. split; [congruence|]. eauto.
Qed.

Lemma Forall2_in_left {A B} (R : A -> B -> Prop) l l' x :
  Forall2 R l l' -> In x l -> exists y, In y l' /\ R x y.
Proof.
  induction 1 as [|a b l l' Hab _ IH]; simpl; [tauto|].
  intros [<-|Hin]; [exists b; auto|].
  destruct (IH Hin) as (y & ? & ?). exists y. auto.
Qed.

Lemma covers_dedup rows m m' :
  dedup_values m = Ok m' -> covers rows m -> covers rows m'.
Proof.
  intros Hd H r Hin Hp.
  destruct (H r Hin Hp) as (e & He & Hfst & x & Hx & Hkx).
  apply dedup_values_groups in Hd.
  destruct (Forall2_in_left _ _ _ e Hd He) as (e' & He' & Hfst' & Hdd).
  exists e'. split; [exact He'|]. split; [congruence|].
  apply dedup_facts in Hdd as (Hh & _ & _ & _ & Hkeys).
  rewrite Forall_forall in Hh. specialize (Hh x Hx). unfold hashable in Hh.
  destruct (key_of x) as [k|] eqn:Ek; [|now elim Hh].
  assert (Hk : In k (keys (snd e'))).
  { apply Hkeys, keys_in. eauto. }
  apply keys_in in Hk as (y & Hy & Hky). exists y. split; [exact Hy|congruence].
Qed.

(** ** What the parse guarantees about rows and maps *)

Lemma file_step_invariant fnmatch inc exc ds st f st' :
  file_step fnmatch inc exc ds st f st' ->
  parse_invariant (manifest_rows st) (selected_ids st) (selected_purged st) ->
  parse_invariant (manifest_rows st') (selected_ids st') (selected_purged st').
Proof.
  intros [d _ _|d status sel haystack ids purged _ Hid Hname _ _ _ Hmaps] [J1 J2 J3 J4];
    [now split|].
  cbn [manifest_rows selected_ids selected_purged].
  set (r := mkRow ds (field "_id" d) (field "file_name" d) status
                  (extract_phytozome_version haystack) sel).
  assert (Hrows : Forall present (manifest_rows st ++ [r])).
  { apply Forall_app. split; [exact J1|]. repeat constructor; assumption. }
  destruct sel.
  - destruct Hmaps as [Hids Hpurged].
    assert (Hi : drawn_from (fun r => selected r = true) (manifest_rows st ++ [r]) ids)
      by (apply drawn_from_append with (m := selected_ids st); auto).
    destruct (status =? "PURGED")%string eqn:Es.
    + apply String.eqb_eq in Es.
      split; auto.
      * apply drawn_from_append with (m := selected_purged st); auto.
        now split.
      * now apply covers_append with (m := selected_purged st).
    + apply String.eqb_neq in Es. injection Hpurged as <-.
      split; auto.
      * now apply drawn_from_more.
      * apply covers_more; [|exact J4]. intros [_ Hp]. now apply Es.
  - destruct Hmaps as [-> ->]. split; auto.
    + now apply drawn_from_more.
    + now apply drawn_from_more.
    + apply covers_more; [|exact J4]. now intros [Hs _].
Qed.

Lemma parse_search_invariant fnmatch search_json inc exc rows ids purged :
  parse_search fnmatch search_json inc exc = Ok (rows, ids, purged) ->
  parse_invariant rows ids purged /\ deduplicated ids /\ deduplicated purged.
Proof.
  unfold parse_search. intros H. inv_bind H. rename a into st.
  inv_bind H. inv_bind H. injection H as <- <- <-.
  apply (parse_loops_invariant fnmatch inc exc
           (fun st => parse_invariant (manifest_rows st) (selected_ids st)
                                      (selected_purged st)))
    with (search_json := search_json) in E.
  - destruct E as [J1 J2 J3 J4]. split; [split|]; auto.
    + eapply drawn_from_dedup; eauto.
    + eapply drawn_from_dedup; eauto.
    + eapply covers_dedup; eauto.
    + split; eapply dedup_values_deduplicated; eauto.
  - intros ds st0 f st1 _. apply file_step_invariant.
  - split; [constructor|intros e x []|intros e x []|intros r []].
Qed.

Lemma missing_or_empty_falsy k d : missing_or_empty k d -> truthy (field k d) = false.
Proof. unfold field. now intros [->| ->]. Qed.

Lemma truthy_not_empty v : truthy v = true -> v <> JStr "" /\ v <> JNull.
Proof. intros H. split; intros ->; discriminate. Qed.

(** C8.  A file entry whose [_id] or [file_name] is missing or empty
    leaves the manifest and both selection maps as they were.  In what
    the parser returns, every row has a file identifier and a file name
    that are not empty, and every identifier of either map is that of a
    selected row. *)
Theorem empty_identifier_drop (fnmatch : string -> string -> bool)
        (include_globs exclude_globs : list string) :
  (forall dataset_id st d st',
      parse_file fnmatch include_globs exclude_globs dataset_id st (JDict d) = Ok st' ->
      missing_or_empty "_id" d \/ missing_or_empty "file_name" d ->
      st' = st) /\
  (forall search_json rows ids purged,
      parse_search fnmatch search_json include_globs exclude_globs
      = Ok (rows, ids, purged) ->
      Forall (fun r => present r /\
                       file_id r <> JStr "" /\ file_id r <> JNull /\
                       file_name r <> JStr "" /\ file_name r <> JNull) rows /\
      drawn_from (fun r => selected r = true) rows ids /\
      drawn_from (fun r => selected r = true) rows purged).
Proof.
  split.
  - intros ds st d st' H Hempty. apply parse_file_step in H.
    destruct H as [d' _ _|d' status sel haystack ids purged Hf Hid Hname]; [reflexivity|].
    injection Hf as <-.
    destruct Hempty as [He|He]; apply missing_or_empty_falsy in He; congruence.
  - intros search_json rows ids purged H.
    apply parse_search_invariant in H as [[J1 J2 J3 _] _].
    split; [|split]; [|exact J2|].
    + eapply Forall_impl; [|exact J1]. intros r [Hi Hn].
      destruct (truthy_not_empty _ Hi). destruct (truthy_not_empty _ Hn).
      repeat split; assumption.
    + intros e x He Hx. destruct (J3 e x He Hx) as (r & ? & [? _] & ?).
      exists r. auto.
Qed.

Lemma empty_identifier_drop_witness :
  parse_file fnmatch_plain sample_include sample_exclude (JStr "ds1")
             (mkState [] [] []) file_no_id = Ok (mkState [] [] []) /\
  Forall (fun r => present r /\
                   file_id r <> JStr "" /\ file_id r <> JNull /\
                   file_name r <> JStr "" /\ file_name r <> JNull) sample_rows.
Proof.
  pose proof (empty_identifier_drop fnmatch_plain sample_include sample_exclude)
    as [Hfile Hsearch].
  split.
  - destruct (parse_file fnmatch_plain sample_include sample_exclude (JStr "ds1")
                         (mkState [] [] []) file_no_id) as [st'|e] eqn:E.
    + f_equal. apply (Hfile _ _ _ _ E). left. right. reflexivity.
    + vm_compute in E. discriminate.
  - apply (Hsearch sample_search sample_rows
                   [(JStr "ds1", [JStr "a"; JStr "b"; JStr "e"])]
                   [(JStr "ds1", [JStr "b"])]).
    vm_compute. reflexivity.
Defined.

(** ** Status normalisation *)

Lemma upper_lower_char (c : ascii) : upper_char (lower_char c) = upper_char c.
Proof. by_cases_on_char c. Qed.

Lemma str_upper_lower s : str_upper (str_lower s) = str_upper s.
Proof.
  induction s as [|c s IH]; simpl; [reflexivity|].
  unfold str_upper, str_lower in *. simpl. now rewrite upper_lower_char, IH.
Qed.

Lemma py_upper_status v status :
  py_upper (py_or v (JStr "")) = Ok status ->
  status = match v with JStr s => str_upper s | _ => "" end.
Proof.
  unfold py_or. destruct v as [| b | n | s | l | d]; simpl.
  - now intros [= <-].
  - destruct b; simpl; [discriminate|now intros [= <-]].
  - destruct (n =? 0); simpl; [now intros [= <-]|discriminate].
  - destruct (s =? "")%string eqn:E; simpl; intros [= <-]; [|reflexivity].
    apply String.eqb_eq in E. now subst.
  - destruct l; simpl; [now intros [= <-]|discriminate].
  - destruct d; simpl; [now intros [= <-]|discriminate].
Qed.



(** ** Latest-only refinement *)

Lemma selected_versions_in rows v :
  In v (selected_versions rows) <->
  exists r, In r rows /\ selected r = true /\ phytozome_version r = Some v.
Proof.
  unfold selected_versions. rewrite in_flat_map. split.
  - intros (r & Hr & Hv). exists r. split; [exact Hr|].
    destruct (selected r); [|destruct Hv].
    destruct (phytozome_version r) as [w|]; [|destruct Hv].
    destruct Hv as [->|[]]. auto.
  - intros (r & Hr & Hs & Hv). exists r. split; [exact Hr|].
    rewrite Hs, Hv. now left.
Qed.

Lemma py_max_spec vs : forall v,
  In (py_max v vs) (v :: vs) /\ forall w, In w (v :: vs) -> w <= py_max v vs.
Proof.
  unfold py_max. induction vs as [|x vs IH]; intros v; simpl.
  - split; [now left|]. intros w [->|[]]. lia.
  - destruct (IH (Z.max v x)) as [Hin Hle]. split.
    + destruct Hin as [Hin|Hin]; [|now right; right].
      rewrite <- Hin. destruct (Z.max_spec v x) as [[_ ->]|[_ ->]]; auto.
    + intros w [->|[->|Hw]].
      * specialize (Hle (Z.max w x) (or_introl eq_refl)). lia.
      * specialize (Hle (Z.max v w) (or_introl eq_refl)). lia.
      * apply Hle. now right.
Qed.

Lemma refine_row_keeps max_ver r :
  refine_row max_ver r = set_selected (keeps max_ver r) r.
Proof.
  unfold refine_row, keeps, set_selected. destruct r as [ds fid fn fs pv sel].
  simpl. destruct sel; simpl; [|reflexivity].
  destruct pv as [v|]; [|reflexivity]. now destruct (v =? max_ver).
Qed.

Lemma latest_only_outcome (rows : list row) :
  (selected_versions rows = [] <->
   ~ exists r v, In r rows /\ selected r = true /\ phytozome_version r = Some v) /\
  (selected_versions rows = [] ->
   apply_latest_only rows = rows /\
   no_effect_warning true (apply_latest_only rows) = true) /\
  (selected_versions rows <> [] ->
   exists max_ver,
     (exists r, In r rows /\ selected r = true /\ phytozome_version r = Some max_ver) /\
     (forall r v, In r rows -> selected r = true -> phytozome_version r = Some v ->
                  v <= max_ver) /\
     apply_latest_only rows = map (fun r => set_selected (keeps max_ver r) r) rows /\
     (exists r, In r (apply_latest_only rows) /\ selected r = true) /\
     no_effect_warning true (apply_latest_only rows) = false).
Proof.
  split; [|split].
  - split.
    + intros Hnil (r & v & H).
      assert (Hv : In v (selected_versions rows))
        by (apply selected_versions_in; eauto).
      rewrite Hnil in Hv. destruct Hv.
    + intros Hno. destruct (selected_versions rows) as [|v vs] eqn:E; [reflexivity|].
      elim Hno. assert (Hv : In v (selected_versions rows)) by (rewrite E; now left).
      apply selected_versions_in in Hv as (r & ?). eauto.
  - intros Hnil. unfold apply_latest_only, no_effect_warning. rewrite Hnil.
    split; [reflexivity|]. now rewrite Hnil.
  - intros Hne. unfold apply_latest_only.
    destruct (selected_versions rows) as [|v vs] eqn:E; [congruence|].
    destruct (py_max_spec vs v) as [Hin Hmax]. rewrite <- E in Hin, Hmax.
    set (max_ver := py_max v vs) in *.
    apply selected_versions_in in Hin as (rmax & Hr & Hs & Hv).
    assert (Hkept : In (set_selected (keeps max_ver rmax) rmax)
                       (map (refine_row max_ver) rows)).
    { rewrite <- refine_row_keeps. now apply in_map. }
    assert (Hk : keeps max_ver rmax = true).
    { unfold keeps. rewrite Hs, Hv. simpl. apply Z.eqb_refl. }
    rewrite Hk in Hkept.
    exists max_ver. split; [eauto|]. split; [|split; [|split]].
    + intros r w Hrw Hsw Hvw. apply Hmax, selected_versions_in. eauto.
    + apply map_ext. intros r. apply refine_row_keeps.
    + eexists. split; [exact Hkept|reflexivity].
    + unfold no_effect_warning.
      destruct (selected_versions (map (refine_row max_ver) rows)) as [|x xs] eqn:Ex;
        [|reflexivity].
      assert (Hx : In max_ver (selected_versions (map (refine_row max_ver) rows))).
      { apply selected_versions_in. eexists. split; [exact Hkept|]. split; auto. }
      rewrite Ex in Hx. destruct Hx.
Qed.


Example versions_11_12_13_refined :
  map selected (apply_latest_only versions_11_12_13)
  = [false; false; true; false; false; true].
Proof. reflexivity. Qed.

Example sample_select :
  select_files fnmatch_plain true sample_search sample_include sample_exclude
  = Ok (map (fun r => set_selected (keeps 13 r) r) sample_rows,
        [(JStr "ds1", [JStr "b"])],
        [(JStr "ds1", [JStr "b"])],
        false).
Proof. vm_compute. reflexivity. Qed.


(** ** Restore poll loop *)

Lemma pending_polled remote i :
  pending remote i ->
  exists s, poll_status (remote i) = Ok s /\ s <> "READY" /\ s <> "EXPIRED".
Proof.
  intros (v & s & Hv & Hs & _ & Hr & He). exists (str_upper s).
  unfold poll_status. rewrite Hv. cbn [bind]. rewrite Hs. auto.
Qed.

Section PollLoop.

Variable sleep : Z -> result unit.
Variable remote : nat -> json.
Variables poll_seconds max_wait_seconds : Z.

Lemma rounds_snoc k : forall n,
  rounds remote poll_seconds n (S k)
  = rounds remote poll_seconds n k
    ++ [Polled (status_at remote (n + k)); Slept poll_seconds].
Proof.
  induction k as [|k IH]; intros n.
  - simpl. now rewrite Nat.add_0_r.
  - change (rounds remote poll_seconds n (S (S k)))
      with (Polled (status_at remote n) :: Slept poll_seconds
                   :: rounds remote poll_seconds (S n) (S k)).
    rewrite IH. replace (S n + k)%nat with (n + S k)%nat by lia. reflexivity.
Qed.

Lemma poll_loop_round fuel n waited log :
  pending remote n -> sleep poll_seconds = Ok tt ->
  poll_loop sleep (S fuel) remote poll_seconds max_wait_seconds n waited log
  = if waited + poll_seconds >=? max_wait_seconds
    then Some (Err (TimeoutError (timeout_msg max_wait_seconds)),
               log ++ [Polled (status_at remote n); Slept poll_seconds])
    else poll_loop sleep fuel remote poll_seconds max_wait_seconds (S n)
                   (waited + poll_seconds)
                   (log ++ [Polled (status_at remote n); Slept poll_seconds]).
Proof.
  intros Hpend Hsleep. apply pending_polled in Hpend as (s & Hs & Hr & He).
  cbn [poll_loop]. unfold status_at. rewrite Hs.
  apply String.eqb_neq in Hr, He. rewrite Hr, He, Hsleep.
  rewrite <- !app_assoc. reflexivity.
Qed.

(** A pending answer followed by a sleep that the library refuses: the
    run ends there with the exception of the library. *)
Lemma poll_loop_refused fuel n waited log e :
  pending remote n -> sleep poll_seconds = Err e ->
  poll_loop sleep (S fuel) remote poll_seconds max_wait_seconds n waited log
  = Some (Err e, log ++ [Polled (status_at remote n)]).
Proof.
  intros Hpend Hsleep. apply pending_polled in Hpend as (s & Hs & Hr & He).
  cbn [poll_loop]. unfold status_at. rewrite Hs.
  apply String.eqb_neq in Hr, He. now rewrite Hr, He, Hsleep.
Qed.

(** While the archive stays pending and the budget lasts, the loop goes
    on. *)
Lemma poll_loop_pending k : forall fuel n waited log,
  (forall i, (n <= i < n + k)%nat -> pending remote i) ->
  (k <> 0%nat ->
   sleep poll_seconds = Ok tt /\ 0 <= poll_seconds /\
   waited + Z.of_nat k * poll_seconds < max_wait_seconds) ->
  poll_loop sleep (k + fuel) remote poll_seconds max_wait_seconds n waited log
  = poll_loop sleep fuel remote poll_seconds max_wait_seconds (n + k)
              (waited + Z.of_nat k * poll_seconds)
              (log ++ rounds remote poll_seconds n k).
Proof.
  induction k as [|k IH]; intros fuel n waited log Hpend Hbudget.
  - simpl. rewrite app_nil_r, Nat.add_0_r, Z.add_0_r. reflexivity.
  - destruct Hbudget as (Hsleep & Hp & Hlt); [discriminate|].
    cbn [Nat.add]. rewrite poll_loop_round by (auto; apply Hpend; lia).
    destruct (waited + poll_seconds >=? max_wait_seconds) eqn:E.
    { rewrite Z.geb_leb in E. apply Z.leb_le in E. nia. }
    rewrite IH.
    + cbn [rounds]. rewrite <- app_assoc. f_equal; [lia|nia].
    + intros i Hi. apply Hpend. lia.
    + intros _. repeat split; [exact Hsleep|exact Hp|nia].
Qed.

Lemma poll_loop_ready fuel n waited log :
  poll_status (remote n) = Ok "READY" ->
  poll_loop sleep (S fuel) remote poll_seconds max_wait_seconds n waited log
  = Some (Ok tt, log ++ [Polled "READY"]).
Proof. intros H. cbn [poll_loop]. now rewrite H. Qed.

Lemma poll_loop_expired fuel n waited log :
  poll_status (remote n) = Ok "EXPIRED" ->
  poll_loop sleep (S fuel) remote poll_seconds max_wait_seconds n waited log
  = Some (Err (RuntimeError expired_msg), log ++ [Polled "EXPIRED"]).
Proof. intros H. cbn [poll_loop]. now rewrite H. Qed.

(** With a positive interval the loop ends, whatever the archive says. *)
Lemma poll_loop_terminates fuel : forall n waited log,
  0 < poll_seconds ->
  (1 <= fuel)%nat ->
  max_wait_seconds <= waited + Z.of_nat fuel * poll_seconds ->
  poll_loop sleep fuel remote poll_seconds max_wait_seconds n waited log <> None.
Proof.
  induction fuel as [|fuel IH]; intros n waited log Hp Hfuel Hmax; [lia|].
  cbn [poll_loop].
  destruct (poll_status (remote n)) as [s|e]; [|discriminate].
  destruct (s =? "READY")%string; [discriminate|].
  destruct (s =? "EXPIRED")%string; [discriminate|].
  destruct (sleep poll_seconds); [|discriminate].
  destruct (waited + poll_seconds >=? max_wait_seconds) eqn:E; [discriminate|].
  rewrite Z.geb_leb in E. apply Z.leb_gt in E.
  apply IH; [exact Hp|nia|nia].
Qed.

End PollLoop.

(** C2.  The poll loop, run from the start on an archive whose pending
    answers are plain text, with [time.sleep] accepting the interval:
    (1) if the archive answers two pending statuses and then READY, and
    the wait budget exceeds two intervals, the coordinator succeeds
    after three requests and exactly two sleeps; (2) if the archive
    answers EXPIRED at request [k], after pending answers within the
    budget, the coordinator fails with the restore-expired error right
    after that request, with no further sleep or request, and at the
    first request whatever the interval; (3) if the archive is still
    pending when, after [k] sleeps, the time waited reaches the budget,
    the coordinator fails with the timeout error without another
    request.  With a positive interval the loop always ends.  When
    [time.sleep] refuses the interval, the first pending answer ends the
    run with the exception of the library, and no time is waited.
    [ensure_restored] runs this loop from the start once the restore
    request has been answered with a status location, and does nothing
    when no purged file is selected. *)
Theorem restore_poll_loop (sleep : Z -> result unit) (remote : nat -> json)
        (poll_seconds max_wait_seconds : Z) (fuel : nat) :
  (sleep poll_seconds = Ok tt -> 0 <= poll_seconds ->
   pending remote 0 -> pending remote 1 ->
   poll_status (remote 2%nat) = Ok "READY" ->
   2 * poll_seconds < max_wait_seconds ->
   poll_loop sleep (3 + fuel) remote poll_seconds max_wait_seconds 0 0 []
   = Some (Ok tt, [ Polled (status_at remote 0); Slept poll_seconds;
                    Polled (status_at remote 1); Slept poll_seconds;
                    Polled "READY" ])) /\
  (forall k,
      (forall i, (i < k)%nat -> pending remote i) ->
      (k <> 0%nat ->
       sleep poll_seconds = Ok tt /\ 0 <= poll_seconds /\
       Z.of_nat k * poll_seconds < max_wait_seconds) ->
      poll_status (remote k) = Ok "EXPIRED" ->
      poll_loop sleep (k + S fuel) remote poll_seconds max_wait_seconds 0 0 []
      = Some (Err (RuntimeError expired_msg),
              rounds remote poll_seconds 0 k ++ [Polled "EXPIRED"])) /\
  (forall k,
      sleep poll_seconds = Ok tt -> 0 <= poll_seconds ->
      (forall i, (i <= k)%nat -> pending remote i) ->
      (k <> 0%nat -> Z.of_nat k * poll_seconds < max_wait_seconds) ->
      max_wait_seconds <= Z.of_nat (S k) * poll_seconds ->
      poll_loop sleep (k + S fuel) remote poll_seconds max_wait_seconds 0 0 []
      = Some (Err (TimeoutError (timeout_msg max_wait_seconds)),
              rounds remote poll_seconds 0 (S k))) /\
  (0 < poll_seconds ->
   poll_loop sleep (S (Z.to_nat (max_wait_seconds / poll_seconds)))
             remote poll_seconds max_wait_seconds 0 0 [] <> None) /\
  (forall e,
      sleep poll_seconds = Err e -> pending remote 0 ->
      poll_loop sleep (S fuel) remote poll_seconds max_wait_seconds 0 0 []
      = Some (Err e, [Polled (status_at remote 0)])) /\
  (forall purged_by_dataset restore_resp url,
      purged_by_dataset <> [] ->
      py_get restore_resp "request_status_url" = Ok url ->
      truthy url = true ->
      ensure_restored sleep fuel purged_by_dataset restore_resp remote
                      poll_seconds max_wait_seconds
      = poll_loop sleep fuel remote poll_seconds max_wait_seconds 0 0 []) /\
  (forall restore_resp,
      ensure_restored sleep fuel [] restore_resp remote poll_seconds max_wait_seconds
      = Some (Ok tt, [])).
Proof.
  split; [|split; [|split; [|split; [|split; [|split]]]]].
  - intros Hsleep Hp H0 H1 H2 Hbudget.
    change (3 + fuel)%nat with (2 + S fuel)%nat.
    rewrite (poll_loop_pending sleep remote poll_seconds max_wait_seconds 2 (S fuel) 0 0 []).
    + cbn [Nat.add]. rewrite poll_loop_ready by exact H2. reflexivity.
    + intros i Hi. assert (i = 0 \/ i = 1)%nat as [-> | ->] by lia; assumption.
    + intros _. repeat split; [exact Hsleep|exact Hp|lia].
  - intros k Hpend Hbudget Hexp.
    rewrite (poll_loop_pending sleep remote poll_seconds max_wait_seconds k (S fuel) 0 0 []).
    + cbn [Nat.add]. now rewrite poll_loop_expired by exact Hexp.
    + intros i Hi. apply Hpend. lia.
    + intros Hk. destruct (Hbudget Hk) as (? & ? & ?). repeat split; auto; lia.
  - intros k Hsleep Hp Hpend Hbudget Hmax.
    rewrite (poll_loop_pending sleep remote poll_seconds max_wait_seconds k (S fuel) 0 0 []).
    + cbn [Nat.add]. rewrite poll_loop_round by (auto; apply Hpend; lia).
      destruct (0 + Z.of_nat k * poll_seconds + poll_seconds >=? max_wait_seconds) eqn:E.
      * cbn [app]. now rewrite <- rounds_snoc.
      * rewrite Z.geb_leb in E. apply Z.leb_gt in E. lia.
    + intros i Hi. apply Hpend. lia.
    + intros Hk. specialize (Hbudget Hk). repeat split; auto; lia.
  - intros Hpos. apply poll_loop_terminates; [exact Hpos|lia|].
    rewrite Nat2Z.inj_succ.
    pose proof (Z.mod_pos_bound max_wait_seconds poll_seconds Hpos) as Hmod.
    pose proof (Z.div_mod max_wait_seconds poll_seconds ltac:(lia)) as Hdiv.
    assert (Hq : Z.of_nat (Z.to_nat (max_wait_seconds / poll_seconds))
                 = Z.max 0 (max_wait_seconds / poll_seconds)) by lia.
    rewrite Hq. nia.
  - intros e Hsleep Hpend.
    now rewrite (poll_loop_refused sleep remote poll_seconds max_wait_seconds
                                   fuel 0 0 [] e Hpend Hsleep).
  - intros purged resp url Hne Hurl Htruthy. unfold ensure_restored.
    destruct purged; [congruence|]. cbn [nonempty negb].
    rewrite Hurl. cbn [bind]. rewrite Htruthy. cbv iota. now rewrite Htruthy.
  - reflexivity.
Qed.

Example restore_not_needed :
  ensure_restored py_sleep 0 [] JNull (fun _ => JNull) 600 21600 = Some (Ok tt, []).
Proof. reflexivity. Qed.

Example restore_without_status_url :
  ensure_restored py_sleep 5 [(JStr "ds1", [JStr "b"])] (JDict [("message", JStr "ok")])
                  pending_twice 600 21600
  = Some (Err (RuntimeError no_status_url_msg), []).
Proof. reflexivity. Qed.

Example restore_sample :
  ensure_restored py_sleep 5 [(JStr "ds1", [JStr "b"])]
                  (JDict [("request_status_url", JStr "https://files.jgi.doe.gov/r/1")])
                  pending_twice 600 21600
  = Some (Ok tt, [Polled "PENDING"; Slept 600; Polled "PENDING"; Slept 600;
                  Polled "READY"]).
Proof. reflexivity. Qed.

Example pending_twice_run :
  poll_loop py_sleep 3 pending_twice 600 21600 0 0 []
  = Some (Ok tt, [Polled "PENDING"; Slept 600; Polled "PENDING"; Slept 600;
                  Polled "READY"]).
Proof. reflexivity. Qed.

Example expired_run :
  poll_loop py_sleep 5
            (fun n => status_doc (if (n =? 1)%nat then "EXPIRED" else "PENDING"))
            600 21600 0 0 []
  = Some (Err (RuntimeError expired_msg),
          [Polled "PENDING"; Slept 600; Polled "EXPIRED"]).
Proof. reflexivity. Qed.

Example timeout_run :
  poll_loop py_sleep 5 (fun _ => status_doc "PENDING") 600 1500 0 0 []
  = Some (Err (TimeoutError "Timed out waiting for restore after 1500 seconds."),
          [Polled "PENDING"; Slept 600; Polled "PENDING"; Slept 600;
           Polled "PENDING"; Slept 600]).
Proof. reflexivity. Qed.

(** An interval of ten thousand million seconds does not fit the clock
    of the interpreter: the first sleep raises. *)
Example overflow_run :
  poll_loop py_sleep 5 pending_twice 10000000000 30000000001 0 0 []
  = Some (Err OverflowError, [Polled "PENDING"]).
Proof. reflexivity. Qed.

Lemma restore_poll_loop_witness :
  poll_loop py_sleep 3 pending_twice 600 21600 0 0 []
  = Some (Ok tt, [Polled "PENDING"; Slept 600; Polled "PENDING"; Slept 600;
                  Polled "READY"]).
Proof.
  apply (proj1 (restore_poll_loop py_sleep pending_twice 600 21600 0)).
  - reflexivity.
  - lia.
  - exists (JStr "pending"), "pending". repeat split; discriminate.
  - exists (JStr "pending"), "pending". repeat split; discriminate.
  - reflexivity.
  - lia.
Defined.

(** ** The parser returns on well-formed responses *)

Lemma build_version_haystack_total d :
  name_is_text d -> exists haystack, build_version_haystack (JDict d) = Ok haystack.
Proof.
  intros Hname. destruct (harvest_dict d) as (strings & Hh & _ & Hstr).
  destruct (all_strs_total _ (chosen_strings_are_strs _ (Hstr Hname))) as [ss Hss].
  unfold build_version_haystack, py_join. rewrite Hh. cbn [bind].
  rewrite Hss. cbn [bind]. eauto.
Qed.

Lemma append_at_hashable k ds fid m :
  hashable fid -> groups_hashable m -> groups_hashable (append_at k ds fid m).
Proof.
  intros Hf. unfold groups_hashable.
  induction 1 as [|[d fids] m Hd Hm IH]; simpl.
  - repeat constructor. exact Hf.
  - destruct (key_of d) as [k'|]; [destruct (pykey_eqb k' k)|].
    + constructor; [|exact Hm]. simpl in *. apply Forall_app. auto.
    + constructor; assumption.
    + constructor; assumption.
Qed.

Lemma setdefault_append_total ds fid m :
  hashable ds -> hashable fid -> groups_hashable m ->
  exists m', setdefault_append ds fid m = Ok m' /\ groups_hashable m'.
Proof.
  intros Hds Hf Hm. unfold setdefault_append, hashable in *.
  destruct (key_of ds) as [k|]; [|now elim Hds].
  eexists. split; [reflexivity|]. now apply append_at_hashable.
Qed.

Lemma dedup_values_total m : groups_hashable m -> exists m', dedup_values m = Ok m'.
Proof.
  induction 1 as [|[k v] m Hv _ [m' IH]]; simpl.
  - eauto.
  - unfold dedup. rewrite dedup_loop_total by exact Hv. cbn [bind].
    rewrite IH. cbn [bind]. eauto.
Qed.

Lemma for_each_total {S A} (body : S -> A -> result S) (Q : S -> Prop) (P : A -> Prop)
      (Hbody : forall st x, P x -> Q st -> exists st', body st x = Ok st' /\ Q st') xs :
  Forall P xs -> forall st, Q st -> exists st', for_each body xs st = Ok st' /\ Q st'.
Proof.
  induction 1 as [|x xs Hx _ IH]; intros st HQ; simpl.
  - eauto.
  - destruct (Hbody st x Hx HQ) as (st1 & E1 & HQ1). rewrite E1. cbn [bind].
    now apply IH.
Qed.

Lemma iter_items P d k :
  items_ok P (field k d) ->
  exists l, (default <- py_get_default (JDict d) k (JList []) ;;
             py_iter (py_or default (JList []))) = Ok l /\ Forall P l.
Proof.
  unfold py_get_default, field, py_or. cbn [bind].
  destruct (assoc k d) as [v|]; [|exists []; split; [reflexivity|constructor]].
  intros [Hfalse|(l & -> & Hl)].
  - rewrite Hfalse. exists []. split; [reflexivity|constructor].
  - destruct l as [|x l]; [exists []; split; [reflexivity|constructor]|].
    exists (x :: l). split; [reflexivity|exact Hl].
Qed.

Section ParserTotal.

Variable fnmatch : string -> string -> bool.
Variables include_globs exclude_globs : list string.

Lemma parse_file_total ds st f :
  hashable ds -> file_entry_ok f -> state_groupable st ->
  exists st', parse_file fnmatch include_globs exclude_globs ds st f = Ok st' /\
              state_groupable st'.
Proof.
  intros Hds (d & -> & Hid & Hname & Hstatus) (Hrows & Hids & Hpurged).
  unfold parse_file. cbn [py_get bind].
  fold (field "_id" d) (field "file_name" d) (field "file_status" d).
  assert (Hup : exists status,
             py_upper (py_or (field "file_status" d) (JStr "")) = Ok status).
  { unfold py_or. destruct (truthy (field "file_status" d)) eqn:E.
    - destruct (Hstatus E) as [s ->]. simpl. eauto.
    - simpl. eauto. }
  destruct Hup as [status ->]. cbn [bind]. rewrite truthy_py_or_str.
  destruct (truthy (field "_id" d)) eqn:Eid; cbn [negb orb];
    [|exists st; repeat split; assumption].
  destruct (truthy (field "file_name" d)) eqn:En; cbn [negb];
    [|exists st; repeat split; assumption].
  rewrite (py_or_truthy _ _ En).
  destruct (Hname En) as [name Ename]. rewrite Ename, glob_selection_str.
  cbn [bind].
  destruct (build_version_haystack_total d) as [haystack Hh].
  { intros v Hv Ht. unfold text_or_empty, field in Hname. rewrite Hv in Hname.
    auto. }
  rewrite Hh. cbn [bind].
  set (sel := wanted fnmatch name include_globs exclude_globs).
  destruct sel eqn:Esel; cbn [negb].
  - destruct (setdefault_append_total ds (field "_id" d) (selected_ids st)
                                      Hds (Hid Eid) Hids) as (ids & -> & Hids').
    cbn [bind].
    assert (Hp : exists purged,
               (if (status =? "PURGED")%string
                then setdefault_append ds (field "_id" d) (selected_purged st)
                else Ok (selected_purged st)) = Ok purged /\
               groups_hashable purged).
    { destruct (status =? "PURGED")%string; [|eauto].
      apply setdefault_append_total; auto. }
    destruct Hp as (purged & -> & Hpurged'). cbn [bind].
    eexists. split; [reflexivity|].
    unfold state_groupable. cbn [manifest_rows selected_ids selected_purged].
    split; [|split; assumption].
    apply Forall_app. split; [exact Hrows|]. repeat constructor; cbn; auto.
  - eexists. split; [reflexivity|].
    unfold state_groupable. cbn [manifest_rows selected_ids selected_purged].
    split; [|split; assumption].
    apply Forall_app. split; [exact Hrows|]. repeat constructor; cbn; discriminate.
Qed.

Lemma parse_org_total st org :
  organism_ok org -> state_groupable st ->
  exists st', parse_org fnmatch include_globs exclude_globs st org = Ok st' /\
              state_groupable st'.
Proof.
  intros (d & -> & Hid & Hfiles) Hst. unfold parse_org. cbn [py_get bind].
  fold (field "id" d).
  destruct (truthy (field "id" d)) eqn:Eid; cbn [negb]; [|eauto].
  destruct (iter_items file_entry_ok d "files" (Hfiles eq_refl)) as (files & Hit & Hall).
  unfold bind in Hit |- *.
  destruct (py_get_default (JDict d) "files" (JList [])) as [v|]; [|discriminate].
  rewrite Hit.
  apply (for_each_total _ state_groupable file_entry_ok); auto.
  intros st0 f Hf Hst0. apply parse_file_total; auto.
Qed.

Lemma parse_loops_total search_json :
  response_ok search_json ->
  exists st, parse_loops fnmatch search_json include_globs exclude_globs = Ok st /\
             state_groupable st.
Proof.
  intros (d & -> & Horgs). unfold parse_loops.
  destruct (iter_items organism_ok d "organisms" Horgs) as (orgs & Hit & Hall).
  unfold bind in Hit |- *.
  destruct (py_get_default (JDict d) "organisms" (JList [])) as [v|]; [|discriminate].
  rewrite Hit.
  apply (for_each_total _ state_groupable organism_ok); auto.
  - intros st0 org Horg Hst0. now apply parse_org_total.
  - repeat split; constructor.
Qed.

Lemma parse_search_total search_json :
  response_ok search_json ->
  exists rows ids purged,
    parse_search fnmatch search_json include_globs exclude_globs
    = Ok (rows, ids, purged) /\
    rows_groupable rows.
Proof.
  intros Hok. destruct (parse_loops_total search_json Hok) as (st & Hst & Hr & Hi & Hp).
  unfold parse_search. rewrite Hst. cbn [bind].
  destruct (dedup_values_total _ Hi) as [ids ->].
  destruct (dedup_values_total _ Hp) as [purged ->]. cbn [bind]. eauto.
Qed.

End ParserTotal.

Lemma rebuild_total rows :
  rows_groupable rows ->
  exists ids purged, rebuild_selected_maps rows = Ok (ids, purged).
Proof.
  intros Hrows. unfold rebuild_selected_maps.
  destruct (for_each_total rebuild_row
              (fun st => groups_hashable (fst st) /\ groups_hashable (snd st))
              (fun r => selected r = true ->
                        hashable (dataset_id r) /\ hashable (file_id r)))
    with (xs := rows) (st := (@nil (json * list json), @nil (json * list json)))
    as (st & -> & Hi & Hp).
  - intros [ids purged] r Hr [Hi Hp]. unfold rebuild_row. cbn [fst snd].
    destruct (selected r); cbn [negb]; [|eauto].
    destruct (Hr eq_refl) as [Hds Hf].
    destruct (setdefault_append_total _ _ ids Hds Hf Hi) as (ids' & -> & Hi').
    cbn [bind].
    destruct (file_status r =? "PURGED")%string.
    + destruct (setdefault_append_total _ _ purged Hds Hf Hp) as (purged' & -> & Hp').
      cbn [bind]. eauto.
    + cbn [bind]. eauto.
  - exact Hrows.
  - split; constructor.
  - cbn [bind]. destruct (dedup_values_total _ Hi) as [ids ->].
    destruct (dedup_values_total _ Hp) as [purged ->]. cbn [bind]. eauto.
Qed.

Lemma apply_latest_only_groupable rows :
  rows_groupable rows -> rows_groupable (apply_latest_only rows).
Proof.
  unfold apply_latest_only, rows_groupable.
  destruct (selected_versions rows) as [|v vs]; [auto|].
  intros H. apply Forall_map. eapply Forall_impl; [|exact H].
  intros r Hr. rewrite refine_row_keeps. unfold keeps, set_selected.
  cbn [selected dataset_id file_id]. intros Hk.
  apply andb_true_iff in Hk as [Hs _]. auto.
Qed.

Lemma select_files_total fnmatch latest_only search_json inc exc :
  response_ok search_json ->
  exists rows ids purged w,
    select_files fnmatch latest_only search_json inc exc = Ok (rows, ids, purged, w).
Proof.
  intros Hok.
  destruct (parse_search_total fnmatch inc exc search_json Hok)
    as (rows & ids & purged & Hparse & Hrows).
  unfold select_files. rewrite Hparse. cbn [bind].
  destruct latest_only; [|cbn [bind]; eauto 6].
  destruct (rebuild_total _ (apply_latest_only_groupable _ Hrows))
    as (ids' & purged' & ->).
  cbn [bind]. eauto 6.
Qed.

(** ** The selection maps handed to restore and download *)

(** C6.  The two selection maps returned by the parser are the maps that
    the from-scratch rebuild computes from the manifest rows the parser
    returned, group by group and in the same order.  With or without
    the latest-only refinement, the maps that [main] hands to restore
    and download are the rebuild of the final manifest, and on a
    response shaped as the search interface describes the parser and
    the refinement do return. *)
Theorem selection_maps_are_projections
        (fnmatch : string -> string -> bool) (search_json : json)
        (include_globs exclude_globs : list string) :
  (forall rows ids purged,
      parse_search fnmatch search_json include_globs exclude_globs
      = Ok (rows, ids, purged) ->
      rebuild_selected_maps rows = Ok (ids, purged)) /\
  (forall latest_only rows ids purged w,
      select_files fnmatch latest_only search_json include_globs exclude_globs
      = Ok (rows, ids, purged, w) ->
      rebuild_selected_maps rows = Ok (ids, purged)) /\
  (response_ok search_json ->
   forall latest_only,
   exists rows ids purged w,
     select_files fnmatch latest_only search_json include_globs exclude_globs
     = Ok (rows, ids, purged, w)).
Proof.
  split; [|split; [|intros Hok latest_only; now apply select_files_total]].
  - intros rows ids purged. apply parse_search_rebuild.
  - intros latest_only rows' ids' purged' w H.
    apply select_files_ok in H as (rows & ids & purged & Hparse & Hstage & _).
    destruct latest_only.
    + now destruct Hstage as [_ Hr].
    + destruct Hstage as (-> & -> & ->). eapply parse_search_rebuild, Hparse.
Qed.

Ltac check_shape :=
  repeat first
    [ reflexivity
    | match goal with
      | |- response_ok _ => eexists; split; [reflexivity|]
      | |- organism_ok _ => eexists; split; [reflexivity|split]
      | |- file_entry_ok _ => eexists; split; [reflexivity|split; [|split]]
      | |- items_ok _ _ => right; eexists; split; [reflexivity|]
      | |- Forall _ _ => constructor
      | |- id_like _ =>
          let H := fresh in
          intros H; cbn in H;
          first [discriminate H | unfold hashable; cbn; discriminate]
      | |- text_or_empty _ =>
          let H := fresh in
          intros H; cbn in H;
          first [discriminate H | cbn; eexists; reflexivity]
      | |- truthy _ = true -> _ =>
          let H := fresh in
          intros H; cbn in H; try discriminate H
      end ].

Example sample_search_ok : response_ok sample_search.
Proof. unfold sample_search. check_shape. Qed.

Lemma selection_maps_are_projections_witness :
  rebuild_selected_maps sample_rows
  = Ok ([(JStr "ds1", [JStr "a"; JStr "b"; JStr "e"])],
        [(JStr "ds1", [JStr "b"])]) /\
  response_ok sample_search /\
  exists rows ids purged w,
    select_files fnmatch_plain true sample_search sample_include sample_exclude
    = Ok (rows, ids, purged, w).
Proof.
  pose proof (selection_maps_are_projections
                fnmatch_plain sample_search sample_include sample_exclude)
    as (Hparse & _ & Htotal).
  split; [|split].
  - apply Hparse. vm_compute. reflexivity.
  - unfold sample_search. check_shape.
  - apply Htotal. unfold sample_search. check_shape.
Defined.

(** ** Every listed file is recorded *)

Lemma for_each_member {S A} (body : S -> A -> result S) (Q : S -> Prop) (x : A)
      (Hkeep : forall st y st', body st y = Ok st' -> Q st -> Q st')
      (Hadd : forall st st', body st x = Ok st' -> Q st') xs :
  In x xs -> forall st st', for_each body xs st = Ok st' -> Q st'.
Proof.
  induction xs as [|y xs IH]; intros Hin st st' H; [destruct Hin|].
  cbn [for_each] in H. apply bind_ok in H as (st1 & E1 & H).
  destruct Hin as [-> | Hin].
  - eapply for_each_invariant; [exact Hkeep|exact H|]. now apply Hadd in E1.
  - eapply IH; eauto.
Qed.

Section Listed.

Variable fnmatch : string -> string -> bool.
Variables include_globs exclude_globs : list string.

Lemma file_step_records ds st d st' :
  file_step fnmatch include_globs exclude_globs ds st (JDict d) st' ->
  truthy (field "_id" d) = true -> truthy (field "file_name" d) = true ->
  exists r,
    manifest_rows st' = manifest_rows st ++ [r] /\
    records fnmatch include_globs exclude_globs ds d r /\
    py_upper (py_or (field "file_status" d) (JStr "")) = Ok (file_status r) /\
    (purged_row r ->
     exists e, In e (selected_purged st') /\ key_of (fst e) = key_of ds /\
               In (field "_id" d) (snd e)) /\
    (~ purged_row r -> selected_purged st' = selected_purged st).
Proof.
  intros [d' Hf Hskip|d' status sel haystack ids purged Hf _ _ Hst Hsel Hh Hmaps]
         Hid Hname; injection Hf as <-.
  - destruct Hskip; congruence.
  - eexists. split; [reflexivity|]. split; [|split].
    + repeat split; cbn [dataset_id file_id file_name selected]; auto.
    + exact Hst.
    + unfold purged_row. cbn [selected file_status selected_purged]. destruct sel.
      * destruct Hmaps as [_ Hp].
        destruct (status =? "PURGED")%string eqn:Es.
        -- split; [|intros Hn; elim Hn; split; [reflexivity|now apply String.eqb_eq]].
           intros _. apply setdefault_append_ok in Hp as (k & Hk & ->).
           destruct (append_at_adds k ds (field "_id" d) (selected_purged st) Hk)
             as (e & He & Hke & Hx).
           exists e. repeat split; auto. congruence.
        -- apply String.eqb_neq in Es. injection Hp as <-.
           split; [intros [_ Hp]; contradiction|reflexivity].
      * destruct Hmaps as [_ ->]. split; [intros [Hs _]; discriminate|reflexivity].
Qed.

Lemma file_step_grows ds st f st' r :
  file_step fnmatch include_globs exclude_globs ds st f st' ->
  In r (manifest_rows st) -> In r (manifest_rows st').
Proof.
  intros [d _ _|d status sel haystack ids purged _ _ _ _ _ _ _] Hin; [exact Hin|].
  cbn [manifest_rows]. apply in_or_app. now left.
Qed.

Lemma parse_org_grows st org st' r :
  parse_org fnmatch include_globs exclude_globs st org = Ok st' ->
  In r (manifest_rows st) -> In r (manifest_rows st').
Proof.
  unfold parse_org. intros H. apply bind_ok in H as (ds & _ & H).
  destruct (truthy ds); cbn [negb] in H; [|now injection H as <-].
  apply bind_ok in H as (files0 & _ & H). apply bind_ok in H as (files & _ & H).
  revert H. apply (for_each_invariant _ (fun st => In r (manifest_rows st))).
  intros st0 f st1 Hf. eapply file_step_grows, parse_file_step, Hf.
Qed.

Lemma parse_loops_lists search_json st ds d :
  parse_loops fnmatch search_json include_globs exclude_globs = Ok st ->
  listed search_json ds d ->
  truthy (field "_id" d) = true -> truthy (field "file_name" d) = true ->
  exists r, In r (manifest_rows st) /\
            records fnmatch include_globs exclude_globs ds d r /\
            py_upper (py_or (field "file_status" d) (JStr "")) = Ok (file_status r).
Proof.
  intros H (top & orgs & org & files & -> & Horgs & Hin & Hds & Htrue & Hfiles & Hd)
         Hid Hname.
  unfold parse_loops in H. cbn [py_get_default bind] in H.
  unfold field in Horgs.
  destruct (assoc "organisms" top) as [v|]; [subst v|discriminate].
  destruct orgs as [|o orgs]; [destruct Hin|].
  cbn [py_or truthy py_iter bind] in H. revert H.
  apply (for_each_member
           _ (fun st =>
                exists r, In r (manifest_rows st) /\
                          records fnmatch include_globs exclude_globs ds d r /\
                          py_upper (py_or (field "file_status" d) (JStr ""))
                          = Ok (file_status r))
           (JDict org)); [| |exact Hin].
  - intros st0 y st1 Hy (r & Hr & Hrec). exists r. split; [|exact Hrec].
    eapply parse_org_grows; eauto.
  - intros st0 st1 H. unfold parse_org in H. cbn [py_get bind] in H.
    fold (field "id" org) in H. rewrite Hds, Htrue in H.
    cbn [negb py_get_default bind] in H. unfold field in Hfiles.
    destruct (assoc "files" org) as [v|]; [subst v|discriminate].
    destruct files as [|f files]; [destruct Hd|].
    cbn [py_or truthy py_iter bind] in H. revert H.
    apply (for_each_member
             _ (fun st =>
                  exists r, In r (manifest_rows st) /\
                            records fnmatch include_globs exclude_globs ds d r /\
                            py_upper (py_or (field "file_status" d) (JStr ""))
                            = Ok (file_status r))
             (JDict d)); [| |exact Hd].
    + intros st2 y st3 Hy (r & Hr & Hrec). exists r. split; [|exact Hrec].
      eapply file_step_grows, Hr. eapply parse_file_step, Hy.
    + intros st2 st3 H. apply parse_file_step in H.
      destruct (file_step_records _ _ _ _ H Hid Hname) as (r & Hrows & Hrec & Hst & _).
      exists r. split; [|now split]. rewrite Hrows. apply in_or_app. right. now left.
Qed.

End Listed.

Lemma str_lower_upper s : str_lower (str_upper s) = str_lower s.
Proof.
  induction s as [|c s IH]; simpl; [reflexivity|].
  unfold str_upper, str_lower in *. simpl. now rewrite lower_upper_char, IH.
Qed.

(** The status that a row gets from the [file_status] of its entry. *)
Lemma upper_status_facts d status :
  py_upper (py_or (field "file_status" d) (JStr "")) = Ok status ->
  (truthy (field "file_status" d) = false -> status = "") /\
  (forall s, field "file_status" d = JStr s -> status = str_upper s) /\
  (forall s, field "file_status" d = JStr s -> str_lower s = "purged" ->
             status = "PURGED") /\
  (status = "PURGED" ->
   exists s, field "file_status" d = JStr s /\ str_lower s = "purged").
Proof.
  intros Hst. apply py_upper_status in Hst.
  split; [|split; [|split]].
  - intros Hf. destruct (field "file_status" d) as [| | |s| |]; auto.
    simpl in Hf. destruct (String.eqb_spec s ""); [now subst|discriminate].
  - intros s Hs. now rewrite Hs in Hst.
  - intros s Hs Hlow. rewrite Hs in Hst. now rewrite Hst, <- str_upper_lower, Hlow.
  - intros Hp. destruct (field "file_status" d) as [| | |s| |];
      try (subst status; discriminate).
    exists s. split; [reflexivity|]. now rewrite <- str_lower_upper, <- Hst, Hp.
Qed.

(** C10.  A file entry with an identifier and a name adds to the
    manifest one row, whose status is the [file_status] of the entry in
    upper case, and the empty string when the entry has none.  The
    status recorded is PURGED exactly when that of the entry reads
    "purged" in some letter case; the identifier of a selected row with
    that status enters the purged map under its dataset, and no other
    row changes that map.  For the whole response: every listed file
    with an identifier and a name has its row in the manifest, a
    selected one whose status reads "purged" in any letter case has its
    identifier in the purged map that the parser returns, and the
    rebuild, which compares the recorded status with "PURGED", returns
    the maps of the parser.  On entries and responses shaped as the
    search interface describes, the step and the parser do return. *)
Theorem status_normalization (fnmatch : string -> string -> bool)
        (include_globs exclude_globs : list string) :
  (forall ds st d,
      truthy (field "_id" d) = true -> truthy (field "file_name" d) = true ->
      (hashable ds -> file_entry_ok (JDict d) -> state_groupable st ->
       exists st',
         parse_file fnmatch include_globs exclude_globs ds st (JDict d) = Ok st') /\
      (forall st',
          parse_file fnmatch include_globs exclude_globs ds st (JDict d) = Ok st' ->
          exists r,
            manifest_rows st' = manifest_rows st ++ [r] /\
            records fnmatch include_globs exclude_globs ds d r /\
            (truthy (field "file_status" d) = false -> file_status r = "") /\
            (forall s, field "file_status" d = JStr s -> plain s ->
                       file_status r = str_upper s) /\
            (forall s, field "file_status" d = JStr s -> str_lower s = "purged" ->
                       file_status r = "PURGED") /\
            (file_status r = "PURGED" ->
             exists s, field "file_status" d = JStr s /\ str_lower s = "purged") /\
            (purged_row r ->
             exists e, In e (selected_purged st') /\
                       key_of (fst e) = key_of ds /\
                       In (field "_id" d) (snd e)) /\
            (~ purged_row r -> selected_purged st' = selected_purged st))) /\
  (forall search_json,
      (response_ok search_json ->
       exists rows ids purged,
         parse_search fnmatch search_json include_globs exclude_globs
         = Ok (rows, ids, purged)) /\
      (forall rows ids purged,
          parse_search fnmatch search_json include_globs exclude_globs
          = Ok (rows, ids, purged) ->
          rebuild_selected_maps rows = Ok (ids, purged) /\
          covers rows purged /\
          drawn_from purged_row rows purged /\
          (forall ds d,
              listed search_json ds d ->
              truthy (field "_id" d) = true ->
              truthy (field "file_name" d) = true ->
              exists r,
                In r rows /\
                records fnmatch include_globs exclude_globs ds d r /\
                (forall s,
                    field "file_status" d = JStr s -> str_lower s = "purged" ->
                    file_status r = "PURGED" /\
                    (selected r = true ->
                     exists e x,
                       In e purged /\ key_of (fst e) = key_of ds /\
                       In x (snd e) /\ key_of x = key_of (field "_id" d)))))).
Proof.
  split.
  - intros ds st d Hid Hname. split.
    + intros Hds Hok Hst.
      destruct (parse_file_total fnmatch include_globs exclude_globs ds st (JDict d)
                                 Hds Hok Hst) as (st' & H & _).
      now exists st'.
    + intros st' H. apply parse_file_step in H.
      destruct (file_step_records _ _ _ _ _ _ _ H Hid Hname)
        as (r & Hrows & Hrec & Hst & Hin & Hout).
      destruct (upper_status_facts _ _ Hst) as (S1 & S2 & S3 & S4).
      exists r. repeat split; auto; apply Hrec.
  - intros search_json. split.
    + intros Hok.
      destruct (parse_search_total fnmatch include_globs exclude_globs search_json Hok)
        as (rows & ids & purged & H & _).
      now exists rows, ids, purged.
    + intros rows ids purged H.
      pose proof (parse_search_rebuild _ _ _ _ _ _ _ H) as Hr.
      pose proof (parse_search_invariant _ _ _ _ _ _ _ H) as [[_ _ J3 J4] _].
      split; [exact Hr|]. split; [exact J4|]. split; [exact J3|].
      intros ds d Hlisted Hid Hname.
      unfold parse_search in H. apply bind_ok in H as (st & Hloops & H).
      apply bind_ok in H as (ids' & _ & H). apply bind_ok in H as (purged' & _ & H).
      injection H as <- _ _.
      destruct (parse_loops_lists _ _ _ _ _ _ _ Hloops Hlisted Hid Hname)
        as (r & Hr' & Hrec & Hst).
      exists r. split; [exact Hr'|]. split; [exact Hrec|].
      intros s Hs Hlow.
      destruct (upper_status_facts _ _ Hst) as (_ & _ & S3 & _).
      pose proof (S3 s Hs Hlow) as Hp. split; [exact Hp|]. intros Hsel.
      destruct (J4 r Hr') as (e & He & Hke & x & Hx & Hkx); [now split|].
      destruct Hrec as (Eds & Eid & _).
      exists e, x. repeat split; auto; congruence.
Qed.

Lemma status_normalization_witness :
  exists r,
    In r sample_rows /\
    records fnmatch_plain sample_include sample_exclude (JStr "ds1")
            [ ("_id", JStr "b"); ("file_name", JStr "x.gff.gz");
              ("file_status", JStr "Purged");
              ("file_path", JStr "Phytozome/PhytozomeV13/x.gff.gz") ] r /\
    (forall s,
        JStr "Purged" = JStr s -> str_lower s = "purged" ->
        file_status r = "PURGED" /\
        (selected r = true ->
         exists e x,
           In e [(JStr "ds1", [JStr "b"])] /\ key_of (fst e) = key_of (JStr "ds1") /\
           In x (snd e) /\ key_of x = key_of (JStr "b"))).
Proof.
  destruct (proj2 (status_normalization fnmatch_plain sample_include sample_exclude)
                  sample_search) as [_ Hparse].
  destruct (Hparse sample_rows
                   [(JStr "ds1", [JStr "a"; JStr "b"; JStr "e"])]
                   [(JStr "ds1", [JStr "b"])]) as (_ & _ & _ & Hlisted).
  { vm_compute. reflexivity. }
  apply (Hlisted (JStr "ds1")).
  - eexists _, _, _, _. split; [reflexivity|]. split; [reflexivity|].
    split; [left; reflexivity|]. split; [reflexivity|]. split; [reflexivity|].
    split; [reflexivity|]. right. left. reflexivity.
  - reflexivity.
  - reflexivity.
Defined.

(** * Further properties *)

(** ** The marker in the haystack *)

Lemma match_here_lit_prefix p r : forall s g,
  match_here (lit p ++ r) s = Some g ->
  str_prefix (str_lower p) (str_lower s) = true.
Proof.
  induction p as [|x p IH]; intros s g; cbn [lit app match_here].
  - reflexivity.
  - destruct s as [|c s]; [discriminate|].
    destruct (atom_matches (Chr x) c) eqn:E; [|discriminate].
    intros H. apply IH in H. simpl in E. apply Ascii.eqb_eq in E.
    unfold str_lower in *. cbn [str_map str_prefix].
    rewrite H, E. now rewrite Ascii.eqb_refl.
Qed.

Lemma prefix_contains p s : str_prefix p s = true -> str_contains p s = true.
Proof. intros H. destruct s; cbn [str_contains]; now rewrite H. Qed.

Lemma contains_tail p c s : str_contains p s = true -> str_contains p (String c s) = true.
Proof. intros H. cbn [str_contains]. rewrite H. apply orb_true_r. Qed.

Lemma search_lit_contains p r s g :
  search (lit p ++ r) s = Some g ->
  str_contains (str_lower p) (str_lower s) = true.
Proof.
  induction s as [|c s IH]; cbn [search].
  - destruct (match_here (lit p ++ r) EmptyString) eqn:E; [|discriminate].
    intros _. apply match_here_lit_prefix in E. now apply prefix_contains.
  - destruct (match_here (lit p ++ r) (String c s)) eqn:E.
    + intros _. apply match_here_lit_prefix in E. now apply prefix_contains.
    + intros H. apply IH in H. now apply contains_tail.
Qed.

Lemma extract_needs_marker (text : string) (v : Z) :
  extract_phytozome_version text = Some v ->
  str_contains "phytozome" (str_lower text) = true.
Proof.
  unfold extract_phytozome_version, PHYTOZOME_VER_PATTERNS. cbn [first_match].
  destruct (search (lit "phytozomev" ++ [Star Space; Digits12]) text) eqn:E1.
  { intros _.
    apply (search_lit_contains "phytozome" (One (Chr "v") :: [Star Space; Digits12]))
      in E1. exact E1. }
  destruct (search (lit "phytozome"
                      ++ [Star Space; Star Sep; Star Space; One (Chr "v");
                          Star Space; Digits12]) text) eqn:E2.
  { intros _. now apply search_lit_contains in E2. }
  destruct (search (lit "phytozome" ++ [Star Space; Digits12]) text) eqn:E3.
  { intros _. now apply search_lit_contains in E3. }
  discriminate.
Qed.

(** X1.  The detector answers with a version only on a text that
    contains "phytozome" in some letter case. *)
Theorem version_needs_marker (text : string) (v : Z) :
  extract_phytozome_version text = Some v ->
  str_contains "phytozome" (str_lower text) = true.
Proof. apply extract_needs_marker. Qed.

Lemma version_needs_marker_witness :
  str_contains "phytozome" (str_lower "JGI/PhytozomeV13/x") = true.
Proof. apply (version_needs_marker _ 13). reflexivity. Defined.

Lemma str_lower_take n s : str_lower (str_take n s) = str_take n (str_lower s).
Proof.
  unfold str_lower. revert n.
  induction s as [|c s IH]; intros n; simpl; [reflexivity|].
  destruct (n <=? 0); simpl; [reflexivity|]. now rewrite IH.
Qed.

Lemma prefix_take p : forall n s,
  str_prefix p (str_take n s) = true -> str_prefix p s = true.
Proof.
  induction p as [|x p IH]; intros n s; [reflexivity|].
  destruct s as [|c s]; simpl; [discriminate|].
  destruct (n <=? 0); simpl; [discriminate|].
  intros H. apply andb_true_iff in H as [-> H]. simpl. eapply IH, H.
Qed.

Lemma contains_take p : forall n s,
  str_contains p (str_take n s) = true -> str_contains p s = true.
Proof.
  intros n s. revert n. induction s as [|c s IH]; intros n.
  - simpl. auto.
  - intros H. destruct (str_prefix p (String c s)) eqn:Ep;
      [now apply prefix_contains|].
    apply contains_tail.
    destruct (n <=? 0) eqn:En.
    + cbn [str_take] in H. rewrite En in H. cbn [str_contains] in H.
      rewrite orb_false_r in H. destruct p; [discriminate Ep|discriminate H].
    + assert (E : str_take n (String c s) = String c (str_take (n - 1) s))
        by (cbn [str_take]; now rewrite En).
      pose proof H as H'. rewrite E in H'. cbn [str_contains] in H'.
      apply orb_true_iff in H' as [H'|H'].
      * rewrite <- E in H'. apply prefix_take in H'. congruence.
      * eapply IH, H'.
Qed.

Lemma str_lower_app a b :
  str_lower (a ++ b)%string = (str_lower a ++ str_lower b)%string.
Proof.
  unfold str_lower. induction a as [|c a IH]; simpl; [reflexivity|].
  now rewrite IH.
Qed.

Lemma prefix_app_sep c p : forall a b,
  has_char c p = false ->
  str_prefix p (a ++ String c b)%string = true -> str_prefix p a = true.
Proof.
  induction p as [|x p IH]; intros a b Hc; [reflexivity|].
  simpl in Hc. apply orb_false_iff in Hc as [Hx Hp].
  destruct a as [|y a]; simpl.
  - rewrite Hx. discriminate.
  - intros H. apply andb_true_iff in H as [-> H]. simpl. eapply IH; eauto.
Qed.

Lemma contains_app_sep c p b (Hc : has_char c p = false) : forall a,
  str_contains p (a ++ String c b)%string = true ->
  str_contains p a = true \/ str_contains p b = true.
Proof.
  induction a as [|y a IH]; cbn [String.append]; intros H.
  - cbn [str_contains] in H. apply orb_true_iff in H as [H|H]; [|now right].
    left. apply (prefix_app_sep c p EmptyString b Hc) in H.
    now apply prefix_contains.
  - cbn [str_contains] in H. apply orb_true_iff in H as [H|H].
    + left. apply (prefix_app_sep c p (String y a) b Hc) in H.
      now apply prefix_contains.
    + destruct (IH H) as [Ha|Hb]; [left|now right].
      now apply contains_tail.
Qed.

Lemma contains_join p (Hc : has_char " " p = false)
      (Hp : str_prefix p EmptyString = false) ss :
  str_contains p (str_join " " ss) = true ->
  exists s, In s ss /\ str_contains p s = true.
Proof.
  induction ss as [|x ss IH]; cbn [str_join].
  - cbn [str_contains]. rewrite Hp. discriminate.
  - destruct ss as [|y ss].
    + intros H. exists x. split; [now left|exact H].
    + intros H. change (x ++ " " ++ str_join " " (y :: ss))%string
        with (x ++ String " " (str_join " " (y :: ss)))%string in H.
      apply (contains_app_sep " " p _ Hc) in H as [H|H].
      * exists x. split; [now left|exact H].
      * destruct (IH H) as (s & Hs & Hq). exists s. split; [now right|exact Hq].
Qed.

Lemma str_lower_join ss :
  str_lower (str_join " " ss) = str_join " " (map str_lower ss).
Proof.
  induction ss as [|x ss IH]; [reflexivity|].
  destruct ss as [|y ss]; [reflexivity|].
  change (str_join " " (x :: y :: ss)) with (x ++ " " ++ str_join " " (y :: ss))%string.
  rewrite !str_lower_app, IH. reflexivity.
Qed.

Lemma all_strs_in xs : forall ss,
  all_strs xs = Ok ss -> forall s, In s ss -> In (JStr s) xs.
Proof.
  induction xs as [|x xs IH]; intros ss; simpl.
  - intros [= <-] s [].
  - destruct x; try discriminate. intros H. inv_bind H. injection H as <-.
    intros t [<-|Ht]; [now left|right]. eapply IH; eauto.
Qed.

(** X2.  When no harvested string mentions "phytozome", detection on the
    file object answers [None] (or the join raises [TypeError]): the
    fall-back to the whole harvest never yields a version. *)
Theorem fallback_never_detects (file_obj : json) (strings : list json) :
  harvest file_obj = Ok strings ->
  filter mentions_phytozome strings = [] ->
  detect file_obj = Ok None \/ detect file_obj = Err TypeError.
Proof.
  intros Hh Hnone. unfold detect, build_version_haystack, chosen_strings, py_join.
  rewrite Hh. cbn [bind]. rewrite Hnone.
  destruct (all_strs strings) as [ss|e] eqn:Es; cbn [bind].
  - left. f_equal.
    destruct (extract_phytozome_version (str_take 200000 (str_join " " ss)))
      as [v|] eqn:Ev; [exfalso|reflexivity].
    apply extract_needs_marker in Ev.
    rewrite str_lower_take in Ev. apply contains_take in Ev.
    rewrite str_lower_join in Ev.
    apply contains_join in Ev as (t & Ht & Hc); [|reflexivity|reflexivity].
    apply in_map_iff in Ht as (s0 & <- & Hs0).
    assert (Hin : In (JStr s0) (filter mentions_phytozome strings)).
    { apply filter_In. split; [eapply all_strs_in; eauto|exact Hc]. }
    rewrite Hnone in Hin. destruct Hin.
  - right. apply all_strs_error in Es. now subst.
Qed.

Lemma fallback_never_detects_witness :
  detect (JDict [("file_name", JStr "annotation_v13.gff3.gz"); ("release", JStr "13")])
  = Ok None \/
  detect (JDict [("file_name", JStr "annotation_v13.gff3.gz"); ("release", JStr "13")])
  = Err TypeError.
Proof.
  eapply fallback_never_detects; [reflexivity|]. vm_compute. reflexivity.
Defined.

(** ** How many digits the detector reads *)

Lemma match_here_lit p r : forall m s,
  str_lower m = str_lower p ->
  match_here (lit p ++ r) (m ++ s)%string = match_here r s.
Proof.
  unfold str_lower.
  induction p as [|x p IH]; intros m s; destruct m as [|c m]; simpl;
    try discriminate; [reflexivity|].
  intros [= Hc Hm]. rewrite Hc, Ascii.eqb_refl. now apply IH.
Qed.

Lemma digit_not_space c : is_digit c = true -> is_space c = false.
Proof. by_cases_on_char c. Qed.

Lemma search_here r s g : match_here r s = Some g -> search r s = Some g.
Proof. intros H. destruct s; cbn [search]; now rewrite H. Qed.

(** X3.  After "phytozomev" in any letter case, the detector reads at
    most two digits: two digits give their value whatever follows them,
    even more digits, and one digit followed by something else than a
    digit gives that digit. *)
Theorem version_reads_two_digits (m : string) (d1 : ascii) (rest : string) :
  str_lower m = "phytozomev" ->
  is_digit d1 = true ->
  (forall d2, is_digit d2 = true ->
     extract_phytozome_version (m ++ String d1 (String d2 rest))
     = Some (10 * digit_val d1 + digit_val d2)) /\
  (rest = EmptyString \/
   (exists c rest', rest = String c rest' /\ is_digit c = false) ->
   extract_phytozome_version (m ++ String d1 rest) = Some (digit_val d1)).
Proof.
  intros Hm H1.
  assert (Hstart : forall tail,
             match_here (lit "phytozomev" ++ [Star Space; Digits12])
                        (m ++ String d1 tail)
             = digits12 (match_here []) (String d1 tail)).
  { intros tail. rewrite match_here_lit by exact Hm.
    cbn [match_here star]. simpl atom_matches. now rewrite (digit_not_space d1 H1). }
  split.
  - intros d2 H2. unfold extract_phytozome_version, PHYTOZOME_VER_PATTERNS.
    cbn [first_match].
    rewrite (search_here _ _ (String d1 (String d2 EmptyString))).
    + cbn [py_int int_digits]. rewrite H1. cbn [int_digits]. rewrite H2.
      cbn [int_digits]. f_equal; lia.
    + rewrite Hstart. cbn [digits12 match_here]. now rewrite H1, H2.
  - intros Hrest. unfold extract_phytozome_version, PHYTOZOME_VER_PATTERNS.
    cbn [first_match].
    rewrite (search_here _ _ (String d1 EmptyString)).
    + cbn [py_int int_digits]. rewrite H1. cbn [int_digits]. f_equal; lia.
    + rewrite Hstart. cbn [digits12 match_here]. rewrite H1.
      destruct Hrest as [->|(c & rest' & -> & Hc)].
      * reflexivity.
      * now rewrite Hc.
Qed.

Lemma version_reads_two_digits_witness :
  extract_phytozome_version ("PhytozomeV" ++ String "1" (String "2" "3/x")) = Some 12.
Proof.
  apply (proj1 (version_reads_two_digits "PhytozomeV" "1" "3/x" eq_refl eq_refl)).
  reflexivity.
Defined.

(** ** What the cap keeps *)

(** X4.  The capped harvester appends to [out] the first strings of the
    depth-first traversal of the object, keys before their values, as
    many as the room under the cap allows and in document order. *)
Theorem collect_strings_keeps_first (obj : json) (out : list json) (max_strings : Z) :
  collect_strings obj out max_strings
  = out ++ firstn (Z.to_nat (max_strings - Z.of_nat (List.length out)))
                  (all_strings obj).
Proof. apply collect_strings_firstn. Qed.

(** ** The shape of the selection maps *)

Lemma pykey_eqb_sym a b : pykey_eqb a b = pykey_eqb b a.
Proof.
  apply eq_true_iff_eq. rewrite !pykey_eqb_eq. split; congruence.
Qed.

Lemma append_at_keys k ds fid m :
  key_of ds = Some k ->
  keys (map fst (append_at k ds fid m))
  = if existsb (pykey_eqb k) (keys (map fst m))
    then keys (map fst m) else keys (map fst m) ++ [k].
Proof.
  intros Hk. induction m as [|[d fids] m IH]; cbn [append_at map fst keys flat_map].
  - now rewrite Hk.
  - destruct (key_of d) as [k'|] eqn:Ed.
    + destruct (pykey_eqb k' k) eqn:E.
      * cbn [map fst keys flat_map app existsb]. rewrite Ed. cbn [app existsb].
        rewrite pykey_eqb_sym, E. reflexivity.
      * cbn [map fst keys flat_map app existsb]. rewrite Ed. cbn [app existsb].
        rewrite pykey_eqb_sym, E. cbn [orb]. fold (keys (map fst m)).
        fold (keys (map fst (append_at k ds fid m))). rewrite IH.
        now destruct (existsb (pykey_eqb k) (keys (map fst m))).
    + cbn [map fst keys flat_map app]. rewrite Ed. cbn [app].
      fold (keys (map fst m)). fold (keys (map fst (append_at k ds fid m))).
      exact IH.
Qed.

Lemma append_at_groups k ds fid m :
  key_of ds = Some k ->
  Forall (fun e => hashable (fst e) /\ snd e <> []) m ->
  Forall (fun e => hashable (fst e) /\ snd e <> []) (append_at k ds fid m).
Proof.
  intros Hk. induction 1 as [|[d fids] m [Hd Hf] Hm IH]; cbn [append_at].
  - repeat constructor; cbn; [unfold hashable; congruence|discriminate].
  - assert (Hmod : fids ++ [fid] <> []) by (destruct fids; discriminate).
    destruct (key_of d) as [k'|]; [destruct (pykey_eqb k' k)|];
      constructor; auto.
Qed.

Lemma setdefault_append_wf ds fid m m' :
  setdefault_append ds fid m = Ok m' -> map_wf m -> map_wf m'.
Proof.
  intros H [Hg Hnd]. apply setdefault_append_ok in H as (k & Hk & ->).
  split; [now apply append_at_groups|].
  rewrite (append_at_keys k ds fid m Hk).
  destruct (existsb (pykey_eqb k) (keys (map fst m))) eqn:E; [exact Hnd|].
  apply NoDup_app; [exact Hnd|repeat constructor; intros []|].
  intros x Hx [<-|[]]. apply seen_spec in Hx. congruence.
Qed.

Lemma dedup_values_fst m m' : dedup_values m = Ok m' -> map fst m' = map fst m.
Proof.
  intros H. apply dedup_values_groups in H.
  induction H as [|e e' m m' [He _] _ IH]; cbn [map]; [reflexivity|].
  now rewrite He, IH.
Qed.

Lemma dedup_not_empty xs ys : dedup xs = Ok ys -> xs <> [] -> ys <> [].
Proof.
  intros H Hne. apply dedup_facts in H as (Hh & _ & -> & _).
  destruct xs as [|x xs]; [congruence|]. inversion Hh as [|? ? Hx _]; subst.
  unfold hashable in Hx. cbn [kept]. destruct (key_of x); [|congruence].
  cbn [existsb]. discriminate.
Qed.

Lemma dedup_values_wf m m' : dedup_values m = Ok m' -> map_wf m -> map_wf m'.
Proof.
  intros H [Hg Hnd]. split.
  - apply dedup_values_groups in H.
    induction H as [|e e' m m' [He Hd] _ IH]; [constructor|].
    inversion Hg as [|? ? [Hh Hne] Hg']; subst. constructor.
    + rewrite He. split; [exact Hh|]. eapply dedup_not_empty; eauto.
    + apply IH; [exact Hg'|]. cbn [map keys flat_map] in Hnd.
      apply NoDup_app_remove_l in Hnd. exact Hnd.
  - now rewrite (dedup_values_fst _ _ H).
Qed.

Lemma covers_by_more (P : row -> Prop) rows r m :
  ~ P r -> covers_by P rows m -> covers_by P (rows ++ [r]) m.
Proof.
  intros Hr H r' Hin Hp. apply in_app_or in Hin as [Hin|[<-|[]]]; [|contradiction].
  now apply H.
Qed.

Lemma covers_by_append (P : row -> Prop) rows r m m' :
  setdefault_append (dataset_id r) (file_id r) m = Ok m' ->
  covers_by P rows m -> covers_by P (rows ++ [r]) m'.
Proof.
  intros Hm H r' Hin Hp.
  apply setdefault_append_ok in Hm as (k & Hk & ->).
  apply in_app_or in Hin as [Hin|[<-|[]]].
  - destruct (H r' Hin Hp) as (e & He & Hfst & x & Hx & Hkx).
    destruct (append_at_keeps k (dataset_id r) (file_id r) m e x He Hx)
      as (e' & He' & Hfst' & Hx').
    exists e'. split; [exact He'|]. split; [congruence|]. eauto.
  - destruct (append_at_adds k (dataset_id r) (file_id r) m Hk) as (e' & He' & Hke & Hx).
    exists e'. split; [exact He'|]. split; [congruence|]. eauto.
Qed.

Lemma covers_by_dedup (P : row -> Prop) rows m m' :
  dedup_values m = Ok m' -> covers_by P rows m -> covers_by P rows m'.
Proof.
  intros Hd H r Hin Hp.
  destruct (H r Hin Hp) as (e & He & Hfst & x & Hx & Hkx).
  apply dedup_values_groups in Hd.
  destruct (Forall2_in_left _ _ _ e Hd He) as (e' & He' & Hfst' & Hdd).
  exists e'. split; [exact He'|]. split; [congruence|].
  apply dedup_facts in Hdd as (Hh & _ & _ & _ & Hkeys).
  rewrite Forall_forall in Hh. specialize (Hh x Hx). unfold hashable in Hh.
  destruct (key_of x) as [k|] eqn:Ek; [|now elim Hh].
  assert (Hk : In k (keys (snd e'))).
  { apply Hkeys, keys_in. eauto. }
  apply keys_in in Hk as (y & Hy & Hky). exists y. split; [exact Hy|congruence].
Qed.

Lemma rebuild_loop_maps rows : forall st,
  for_each rebuild_row rows ([], []) = Ok st -> maps_of rows (fst st) (snd st).
Proof.
  induction rows as [|r rows IH] using rev_ind; intros st.
  - cbn. intros [= <-]. cbn [fst snd].
    split; [split; constructor|split; constructor
           |intros e x []|intros e x []|intros r []|intros r []].
  - rewrite for_each_app. intros H.
    apply bind_ok in H as (st1 & Hst1 & H).
    destruct (IH st1 Hst1) as [W1 W2 D1 D2 C1 C2].
    cbn [for_each] in H. apply bind_ok in H as (st2 & Hrow & H).
    injection H as <-. unfold rebuild_row in Hrow.
    destruct (selected r) eqn:Es; cbn [negb] in Hrow.
    + apply bind_ok in Hrow as (ids & Hids & Hrow).
      apply bind_ok in Hrow as (purged & Hpurged & Hrow).
      injection Hrow as <-. cbn [fst snd].
      assert (Wi : map_wf ids) by (eapply setdefault_append_wf; eauto).
      assert (Di : drawn_from (fun r => selected r = true) (rows ++ [r]) ids)
        by (eapply drawn_from_append; eauto).
      assert (Ci : covers_by (fun r => selected r = true) (rows ++ [r]) ids)
        by (eapply covers_by_append; eauto).
      destruct (file_status r =? "PURGED")%string eqn:Ep.
      * apply String.eqb_eq in Ep. split; auto.
        -- eapply setdefault_append_wf; eauto.
        -- eapply drawn_from_append; eauto. now split.
        -- eapply covers_by_append; eauto.
      * apply String.eqb_neq in Ep. injection Hpurged as <-. split; auto.
        -- now apply drawn_from_more.
        -- apply covers_by_more; [|exact C2]. now intros [_ Hp].
    + injection Hrow as <-. split; auto.
      * now apply drawn_from_more.
      * now apply drawn_from_more.
      * apply covers_by_more; [congruence|exact C1].
      * apply covers_by_more; [|exact C2]. intros [Hs _]. congruence.
Qed.

Lemma rebuild_maps rows ids purged :
  rebuild_selected_maps rows = Ok (ids, purged) -> maps_of rows ids purged.
Proof.
  unfold rebuild_selected_maps. intros H.
  apply bind_ok in H as (st & Hst & H).
  apply bind_ok in H as (ids' & Hids & H).
  apply bind_ok in H as (purged' & Hpurged & H).
  injection H as <- <-.
  destruct (rebuild_loop_maps rows st Hst) as [W1 W2 D1 D2 C1 C2].
  split.
  - eapply dedup_values_wf; eauto.
  - eapply dedup_values_wf; eauto.
  - eapply drawn_from_dedup; eauto.
  - eapply drawn_from_dedup; eauto.
  - eapply covers_by_dedup; eauto.
  - eapply covers_by_dedup; eauto.
Qed.

Lemma select_files_maps fnmatch latest_only search_json inc exc rows ids purged w :
  select_files fnmatch latest_only search_json inc exc = Ok (rows, ids, purged, w) ->
  maps_of rows ids purged.
Proof.
  intros H. apply rebuild_maps.
  apply select_files_ok in H as (rows0 & ids0 & purged0 & Hparse & Hstage & _).
  destruct latest_only.
  - now destruct Hstage.
  - destruct Hstage as (-> & -> & ->). eapply parse_search_rebuild, Hparse.
Qed.

(** X5.  In the two maps that [rebuild_selected_maps] returns, and so in
    those of [parse_search], every dataset key can be hashed, no dataset
    appears under two keys and no dataset has an empty list of
    identifiers. *)
Theorem selection_maps_shape :
  (forall rows ids purged,
      rebuild_selected_maps rows = Ok (ids, purged) ->
      map_wf ids /\ map_wf purged) /\
  (forall fnmatch search_json include_globs exclude_globs rows ids purged,
      parse_search fnmatch search_json include_globs exclude_globs
      = Ok (rows, ids, purged) ->
      map_wf ids /\ map_wf purged).
Proof.
  assert (H : forall rows ids purged,
             rebuild_selected_maps rows = Ok (ids, purged) ->
             map_wf ids /\ map_wf purged).
  { intros rows ids purged Hr. apply rebuild_maps in Hr as [W1 W2 _ _ _ _]. auto. }
  split; [exact H|].
  intros fnmatch search_json inc exc rows ids purged Hp.
  eapply H, parse_search_rebuild, Hp.
Qed.

Lemma selection_maps_shape_witness :
  map_wf [(JStr "ds1", [JStr "a"; JStr "b"; JStr "e"])] /\
  map_wf [(JStr "ds1", [JStr "b"])].
Proof.
  apply (proj2 selection_maps_shape fnmatch_plain sample_search sample_include
               sample_exclude sample_rows).
  vm_compute. reflexivity.
Defined.

Lemma maps_of_included rows ids purged : maps_of rows ids purged -> included purged ids.
Proof.
  intros [_ _ _ D2 C1 _] e x He Hx.
  destruct (D2 e x He Hx) as (r & Hr & [Hs _] & Hid & Hds).
  destruct (C1 r Hr Hs) as (e' & He' & Hk & y & Hy & Hky).
  exists e'. split; [exact He'|]. split; [congruence|].
  exists y. split; [exact Hy|congruence].
Qed.

(** X6.  Every identifier that [rebuild_selected_maps] puts in the purged
    map is, under the same dataset, in the map of all selected files:
    what is restored is also downloaded. *)
Theorem purged_within_selected (rows : list row) (ids purged : pydict) :
  rebuild_selected_maps rows = Ok (ids, purged) -> included purged ids.
Proof. intros H. eapply maps_of_included, rebuild_maps, H. Qed.

Lemma purged_within_selected_witness :
  included [(JStr "ds1", [JStr "b"])] [(JStr "ds1", [JStr "a"; JStr "b"; JStr "e"])].
Proof.
  apply (purged_within_selected sample_rows). vm_compute. reflexivity.
Defined.

(** ** The decisions of [main] *)

Lemma n_selected_zero rows :
  n_selected rows = 0%nat <-> forall r, In r rows -> selected r = false.
Proof.
  unfold n_selected. rewrite length_zero_iff_nil. split.
  - intros H r Hr. destruct (selected r) eqn:E; [|reflexivity].
    assert (Hin : In r (filter selected rows)) by (apply filter_In; auto).
    rewrite H in Hin. destruct Hin.
  - intros H. destruct (filter selected rows) as [|r l] eqn:E; [reflexivity|].
    assert (Hin : In r (filter selected rows)) by (rewrite E; now left).
    apply filter_In in Hin as [Hr Hs]. rewrite (H r Hr) in Hs. discriminate.
Qed.

Lemma n_purged_zero rows :
  n_purged rows = 0%nat <-> forall r, In r rows -> ~ purged_row r.
Proof.
  unfold n_purged, purged_row. rewrite length_zero_iff_nil.
  set (f := fun r => selected r && (file_status r =? "PURGED")%string).
  assert (Hf : forall r, f r = true <-> selected r = true /\ file_status r = "PURGED").
  { intros r. unfold f. rewrite andb_true_iff, String.eqb_eq. tauto. }
  split.
  - intros H r Hr Hp. apply Hf in Hp.
    assert (Hin : In r (filter f rows)) by (apply filter_In; auto).
    rewrite H in Hin. destruct Hin.
  - intros H. destruct (filter f rows) as [|r l] eqn:E; [reflexivity|].
    assert (Hin : In r (filter f rows)) by (rewrite E; now left).
    apply filter_In in Hin as [Hr Hs]. apply Hf in Hs. elim (H r Hr Hs).
Qed.

Lemma maps_of_empty_ids rows ids purged :
  maps_of rows ids purged -> (ids = [] <-> n_selected rows = 0%nat).
Proof.
  intros [[Hg _] _ D1 _ C1 _]. rewrite n_selected_zero. split.
  - intros -> r Hr. destruct (selected r) eqn:E; [|reflexivity].
    destruct (C1 r Hr E) as (e & [] & _).
  - intros Hnone. destruct ids as [|e ids]; [reflexivity|].
    inversion Hg as [|? ? [_ Hne] _]; subst.
    destruct (snd e) as [|x xs] eqn:Ex; [congruence|].
    destruct (D1 e x (or_introl eq_refl)) as (r & Hr & Hs & _).
    { rewrite Ex. now left. }
    rewrite (Hnone r Hr) in Hs. discriminate.
Qed.

Lemma maps_of_empty_purged rows ids purged :
  maps_of rows ids purged -> (purged = [] <-> n_purged rows = 0%nat).
Proof.
  intros [_ [Hg _] _ D2 _ C2]. rewrite n_purged_zero. split.
  - intros -> r Hr Hp. destruct (C2 r Hr Hp) as (e & [] & _).
  - intros Hnone. destruct purged as [|e purged]; [reflexivity|].
    inversion Hg as [|? ? [_ Hne] _]; subst.
    destruct (snd e) as [|x xs] eqn:Ex; [congruence|].
    destruct (D2 e x (or_introl eq_refl)) as (r & Hr & Hp & _).
    { rewrite Ex. now left. }
    elim (Hnone r Hr Hp).
Qed.

Lemma poll_loop_success sleep fuel remote poll max : forall n waited log log',
  poll_loop sleep fuel remote poll max n waited log = Some (Ok tt, log') ->
  exists l, log' = l ++ [Polled "READY"].
Proof.
  induction fuel as [|fuel IH]; intros n waited log log'; cbn [poll_loop];
    [discriminate|].
  destruct (poll_status (remote n)) as [s|e]; [|discriminate].
  destruct (s =? "READY")%string eqn:Er.
  - apply String.eqb_eq in Er. subst. intros [= <-]. eauto.
  - destruct (s =? "EXPIRED")%string; [discriminate|].
    destruct (sleep poll); [|discriminate].
    destruct (waited + poll >=? max); [discriminate|]. apply IH.
Qed.

Section MainDecisions.

Variable fnmatch : string -> string -> bool.
Variable sleep : Z -> result unit.
Variable latest_only : bool.
Variables include_globs exclude_globs : list string.
Variables poll_seconds max_wait_seconds : Z.

Lemma process_query_ok fuel q res :
  process_query fnmatch sleep latest_only include_globs exclude_globs
                poll_seconds max_wait_seconds fuel q = Some (Ok res) ->
  exists rows ids purged w,
    select_files fnmatch latest_only (q_search q) include_globs exclude_globs
    = Ok (rows, ids, purged, w) /\
    ((n_selected rows = 0%nat /\ res = Skipped rows) \/
     (n_selected rows <> 0%nat /\
      exists log,
        ensure_restored sleep fuel purged (q_restore q) (q_remote q)
                        poll_seconds max_wait_seconds = Some (Ok tt, log) /\
        res = Downloaded rows log ids)).
Proof.
  unfold process_query.
  destruct (select_files fnmatch latest_only (q_search q) include_globs exclude_globs)
    as [[[[rows ids] purged] w]|e]; [|discriminate].
  intros H. exists rows, ids, purged, w. split; [reflexivity|].
  destruct (n_selected rows =? 0)%nat eqn:En.
  - apply Nat.eqb_eq in En. injection H as <-. now left.
  - apply Nat.eqb_neq in En. right. split; [exact En|].
    destruct (ensure_restored sleep fuel purged (q_restore q) (q_remote q)
                              poll_seconds max_wait_seconds)
      as [[[[]|e] log]|]; try discriminate.
    injection H as <-. eauto.
Qed.

End MainDecisions.

(** X7.  When a turn of the loop of [main] ends without exception, it
    passed over the query exactly when no row is selected; otherwise the
    map it downloads is not empty, names no dataset twice and none with
    an empty list, holds only identifiers of selected rows, and holds
    the identifier of every selected row. *)
Theorem download_is_never_empty
        (fnmatch : string -> string -> bool) (sleep : Z -> result unit)
        (latest_only : bool) (include_globs exclude_globs : list string)
        (poll_seconds max_wait_seconds : Z) (fuel : nat) (q : query_input)
        (res : query_result) :
  process_query fnmatch sleep latest_only include_globs exclude_globs
                poll_seconds max_wait_seconds fuel q = Some (Ok res) ->
  match res with
  | Skipped rows => forall r, In r rows -> selected r = false
  | Downloaded rows log ids =>
      (exists r, In r rows /\ selected r = true) /\
      ids <> [] /\ map_wf ids /\
      drawn_from (fun r => selected r = true) rows ids /\
      covers_by (fun r => selected r = true) rows ids
  end.
Proof.
  intros H. apply process_query_ok in H
    as (rows & ids & purged & w & Hsel & [[Hn ->]|(Hn & log & _ & ->)]).
  - now apply n_selected_zero.
  - apply select_files_maps in Hsel.
    pose proof (maps_of_empty_ids _ _ _ Hsel) as Hiff.
    destruct Hsel as [W1 _ D1 _ C1 _].
    split; [|split; [tauto|auto]].
    destruct (filter selected rows) as [|r l] eqn:E.
    + unfold n_selected in Hn. rewrite E in Hn. now elim Hn.
    + assert (Hin : In r (filter selected rows)) by (rewrite E; now left).
      apply filter_In in Hin. eauto.
Qed.

(** X8.  In a turn of the loop of [main] that ends with a download, the
    archive was asked for a restore status exactly when some selected row
    has the status PURGED. *)
Theorem restore_only_when_purged
        (fnmatch : string -> string -> bool) (sleep : Z -> result unit)
        (latest_only : bool) (include_globs exclude_globs : list string)
        (poll_seconds max_wait_seconds : Z) (fuel : nat) (q : query_input)
        (rows : list row) (log : list event) (ids : pydict) :
  process_query fnmatch sleep latest_only include_globs exclude_globs
                poll_seconds max_wait_seconds fuel q
  = Some (Ok (Downloaded rows log ids)) ->
  (log = [] <-> forall r, In r rows -> ~ purged_row r).
Proof.
  intros H. apply process_query_ok in H
    as (rows0 & ids0 & purged & w & Hsel & [[_ [=]]|(_ & log0 & Hres & [= <- <- <-])]).
  apply select_files_maps in Hsel.
  rewrite <- n_purged_zero, <- (maps_of_empty_purged _ _ _ Hsel).
  unfold ensure_restored in Hres. destruct purged as [|e purged].
  - cbn in Hres. injection Hres as <-. tauto.
  - cbn [nonempty negb] in Hres. split; [|discriminate].
    intros ->. exfalso.
    destruct (u <- py_get (q_restore q) "request_status_url";;
              (if truthy u then Ok u else py_get (q_restore q) "requestStatusUrl"))
      as [url|]; [|discriminate].
    destruct (negb (truthy url)); [discriminate|].
    apply poll_loop_success in Hres as [l Hl]. destruct l; discriminate.
Qed.

Example sample_query_run :
  process_query fnmatch_plain py_sleep true sample_include sample_exclude 600 21600 5
                sample_query
  = Some (Ok (Downloaded sample_rows_latest sample_log [(JStr "ds1", [JStr "b"])])).
Proof. vm_compute. reflexivity. Qed.

Lemma download_is_never_empty_witness :
  (exists r, In r sample_rows_latest /\ selected r = true) /\
  [(JStr "ds1", [JStr "b"])] <> [] /\
  map_wf [(JStr "ds1", [JStr "b"])] /\
  drawn_from (fun r => selected r = true) sample_rows_latest
             [(JStr "ds1", [JStr "b"])] /\
  covers_by (fun r => selected r = true) sample_rows_latest
            [(JStr "ds1", [JStr "b"])].
Proof.
  apply (download_is_never_empty
           fnmatch_plain py_sleep true sample_include sample_exclude 600 21600 5
           sample_query
           (Downloaded sample_rows_latest sample_log [(JStr "ds1", [JStr "b"])])).
  vm_compute. reflexivity.
Defined.

Lemma restore_only_when_purged_witness :
  sample_log = [] <-> forall r, In r sample_rows_latest -> ~ purged_row r.
Proof.
  apply (restore_only_when_purged
           fnmatch_plain py_sleep true sample_include sample_exclude 600 21600 5
           sample_query sample_rows_latest sample_log [(JStr "ds1", [JStr "b"])]).
  vm_compute. reflexivity.
Defined.

Section Abort.

Variable fnmatch : string -> string -> bool.
Variable sleep : Z -> result unit.
Variable latest_only : bool.
Variables include_globs exclude_globs : list string.
Variables poll_seconds max_wait_seconds : Z.

Lemma run_queries_abort fuel q e qs2 : forall qs1 rs,
  run_queries fnmatch sleep latest_only include_globs exclude_globs
              poll_seconds max_wait_seconds fuel qs1 = Some (rs, None) ->
  process_query fnmatch sleep latest_only include_globs exclude_globs
                poll_seconds max_wait_seconds fuel q = Some (Err e) ->
  run_queries fnmatch sleep latest_only include_globs exclude_globs
              poll_seconds max_wait_seconds fuel (qs1 ++ q :: qs2)
  = Some (rs, Some e) /\ List.length rs = List.length qs1.
Proof.
  induction qs1 as [|q1 qs1 IH]; intros rs H1 Hq; cbn [run_queries app] in *.
  - injection H1 as <-. now rewrite Hq.
  - destruct (process_query fnmatch sleep latest_only include_globs exclude_globs
                            poll_seconds max_wait_seconds fuel q1)
      as [[r|e1]|]; try discriminate.
    destruct (run_queries fnmatch sleep latest_only include_globs exclude_globs
                          poll_seconds max_wait_seconds fuel qs1)
      as [[rs1 e1]|] eqn:E; [|discriminate].
    injection H1 as <- ->.
    destruct (IH rs1 eq_refl Hq) as [-> Hlen]. cbn [List.length]. auto.
Qed.

End Abort.

(** X9.  The loop of [main] stops at the first query that raises: the
    queries before it are done, and whatever queries follow it are never
    started. *)
Theorem first_failure_ends_the_run
        (fnmatch : string -> string -> bool) (sleep : Z -> result unit)
        (latest_only : bool) (include_globs exclude_globs : list string)
        (poll_seconds max_wait_seconds : Z) (fuel : nat)
        (done : list query_input) (q : query_input) (later : list query_input)
        (rs : list query_result) (e : exn) :
  run_queries fnmatch sleep latest_only include_globs exclude_globs
              poll_seconds max_wait_seconds fuel done = Some (rs, None) ->
  process_query fnmatch sleep latest_only include_globs exclude_globs
                poll_seconds max_wait_seconds fuel q = Some (Err e) ->
  run_queries fnmatch sleep latest_only include_globs exclude_globs
              poll_seconds max_wait_seconds fuel (done ++ q :: later)
  = Some (rs, Some e) /\
  List.length rs = List.length done.
Proof. apply run_queries_abort. Qed.

Lemma first_failure_ends_the_run_witness :
  run_queries fnmatch_plain py_sleep true sample_include sample_exclude 600 21600 5
              ([sample_query] ++ broken_query :: [sample_query; sample_query])
  = Some ([Downloaded sample_rows_latest sample_log [(JStr "ds1", [JStr "b"])]],
          Some AttributeError) /\
  List.length [Downloaded sample_rows_latest sample_log [(JStr "ds1", [JStr "b"])]]
  = List.length [sample_query].
Proof.
  apply first_failure_ends_the_run; vm_compute; reflexivity.
Defined.

(** ** The refinement, applied again *)

Lemma refine_row_idempotent m r : refine_row m (refine_row m r) = refine_row m r.
Proof.
  rewrite !refine_row_keeps. unfold keeps, set_selected.
  destruct r as [ds fid fn fs pv sel]. cbn.
  destruct sel; cbn; [|reflexivity].
  destruct pv as [v|]; [|reflexivity]. now destruct (v =? m).
Qed.

Lemma selected_versions_refined m rows :
  Forall (eq m) (selected_versions (map (refine_row m) rows)).
Proof.
  apply Forall_forall. intros v Hv.
  apply selected_versions_in in Hv as (r' & Hr' & Hs & Hpv).
  apply in_map_iff in Hr' as (r & <- & _).
  rewrite refine_row_keeps in Hs, Hpv. unfold keeps, set_selected in *.
  cbn in Hs, Hpv. rewrite Hpv in Hs.
  apply andb_true_iff in Hs as [_ Hs]. apply Z.eqb_eq in Hs. congruence.
Qed.

Lemma py_max_constant m vs : Forall (eq m) vs -> py_max m vs = m.
Proof.
  unfold py_max. induction 1 as [|v vs <- _ IH]; cbn [fold_left]; [reflexivity|].
  now rewrite Z.max_id.
Qed.

(** X10.  Applied to its own result, the latest-only refinement changes
    nothing, and after it all the selected rows that carry a version
    carry the same one. *)
Theorem latest_only_idempotent (rows : list row) :
  apply_latest_only (apply_latest_only rows) = apply_latest_only rows /\
  (forall v w,
      In v (selected_versions (apply_latest_only rows)) ->
      In w (selected_versions (apply_latest_only rows)) -> v = w).
Proof.
  destruct (selected_versions rows) as [|v0 vs0] eqn:E.
  - assert (Hsame : apply_latest_only rows = rows)
      by (unfold apply_latest_only; now rewrite E).
    rewrite !Hsame. split; [reflexivity|]. rewrite E. intros v w [].
  - set (m := py_max v0 vs0).
    assert (Hmap : apply_latest_only rows = map (refine_row m) rows)
      by (unfold apply_latest_only; now rewrite E).
    rewrite !Hmap.
    pose proof (selected_versions_refined m rows) as Hall.
    split.
    + unfold apply_latest_only.
      destruct (selected_versions (map (refine_row m) rows)) as [|v vs] eqn:E';
        [reflexivity|].
      inversion Hall as [|? ? <- Hvs]; subst.
      rewrite (py_max_constant _ _ Hvs), map_map.
      apply map_ext. intros r. apply refine_row_idempotent.
    + rewrite Forall_forall in Hall. intros v w Hv Hw.
      apply Hall in Hv, Hw. congruence.
Qed.

Lemma apply_latest_only_origin rows r' :
  In r' (apply_latest_only rows) ->
  exists r, In r rows /\
            dataset_id r' = dataset_id r /\ file_id r' = file_id r /\
            file_status r' = file_status r /\
            (selected r' = true -> selected r = true).
Proof.
  unfold apply_latest_only. destruct (selected_versions rows) as [|v vs].
  - intros H. exists r'. auto.
  - intros H. apply in_map_iff in H as (r & <- & Hr). exists r.
    rewrite refine_row_keeps. unfold keeps, set_selected. cbn.
    repeat split; auto. intros Hk. now apply andb_true_iff in Hk as [Hs _].
Qed.

(** X11.  The refinement only narrows the selection: every identifier of
    the maps rebuilt after it is, under the same dataset, in the maps
    rebuilt before it. *)
Theorem refinement_only_narrows (rows : list row) (ids purged ids' purged' : pydict) :
  rebuild_selected_maps rows = Ok (ids, purged) ->
  rebuild_selected_maps (apply_latest_only rows) = Ok (ids', purged') ->
  included ids' ids /\ included purged' purged.
Proof.
  intros H H'. apply rebuild_maps in H as [_ _ _ _ C1 C2].
  apply rebuild_maps in H' as [_ _ D1' D2' _ _].
  split; intros e x He Hx.
  - destruct (D1' e x He Hx) as (r' & Hr' & Hs & Hid & Hds).
    destruct (apply_latest_only_origin rows r' Hr') as (r & Hr & Eds & Efid & _ & Hsel).
    destruct (C1 r Hr (Hsel Hs)) as (e0 & He0 & Hk & y & Hy & Hky).
    exists e0. split; [exact He0|]. split; [congruence|].
    exists y. split; [exact Hy|congruence].
  - destruct (D2' e x He Hx) as (r' & Hr' & [Hs Hp] & Hid & Hds).
    destruct (apply_latest_only_origin rows r' Hr') as (r & Hr & Eds & Efid & Est & Hsel).
    destruct (C2 r Hr) as (e0 & He0 & Hk & y & Hy & Hky).
    { split; [auto|congruence]. }
    exists e0. split; [exact He0|]. split; [congruence|].
    exists y. split; [exact Hy|congruence].
Qed.

Lemma refinement_only_narrows_witness :
  included [(JStr "ds1", [JStr "b"])] [(JStr "ds1", [JStr "a"; JStr "b"; JStr "e"])] /\
  included [(JStr "ds1", [JStr "b"])] [(JStr "ds1", [JStr "b"])].
Proof.
  apply (refinement_only_narrows sample_rows); vm_compute; reflexivity.
Defined.

(** ** Requests and sleeps of the poll loop *)

Lemma polls_app l1 l2 : polls (l1 ++ l2) = (polls l1 + polls l2)%nat.
Proof. unfold polls. now rewrite filter_app, length_app. Qed.

Lemma sleeps_app l1 l2 : sleeps (l1 ++ l2) = (sleeps l1 + sleeps l2)%nat.
Proof. unfold sleeps. now rewrite filter_app, length_app. Qed.

Lemma poll_loop_counts sleep remote poll max fuel : forall n waited log out log',
  0 <= poll ->
  poll_loop sleep fuel remote poll max n waited log = Some (out, log') ->
  exists k s,
    polls log' = (polls log + k)%nat /\
    sleeps log' = (sleeps log + s)%nat /\
    (s <= k <= s + 1)%nat /\
    ((k <= 1)%nat \/ waited + (Z.of_nat k - 1) * poll < max).
Proof.
  induction fuel as [|fuel IH]; intros n waited log out log' Hp;
    cbn [poll_loop]; [discriminate|].
  destruct (poll_status (remote n)) as [st|e].
  2:{ intros [= <- <-]. exists 0%nat, 0%nat. repeat split; lia. }
  assert (Hone : polls (log ++ [Polled st]) = (polls log + 1)%nat
                 /\ sleeps (log ++ [Polled st]) = (sleeps log + 0)%nat)
    by (rewrite polls_app, sleeps_app; auto).
  destruct Hone as [P1 S1].
  destruct (st =? "READY")%string.
  { intros [= <- <-]. exists 1%nat, 0%nat. repeat split; try lia; auto. }
  destruct (st =? "EXPIRED")%string.
  { intros [= <- <-]. exists 1%nat, 0%nat. repeat split; try lia; auto. }
  destruct (sleep poll).
  2:{ intros [= <- <-]. exists 1%nat, 0%nat. repeat split; try lia; auto. }
  assert (Htwo : polls ((log ++ [Polled st]) ++ [Slept poll]) = (polls log + 1)%nat
                 /\ sleeps ((log ++ [Polled st]) ++ [Slept poll]) = (sleeps log + 1)%nat).
  { rewrite polls_app, sleeps_app, P1, S1. cbn. lia. }
  destruct Htwo as [P2 S2].
  destruct (waited + poll >=? max) eqn:E.
  { intros [= <- <-]. exists 1%nat, 1%nat. repeat split; try lia; auto. }
  rewrite Z.geb_leb in E. apply Z.leb_gt in E.
  intros H. apply IH in H as (k & s & Hk & Hs & Hks & Hbound); [|exact Hp].
  exists (S k), (S s). rewrite Hk, Hs, P2, S2. repeat split; try lia.
  right. destruct Hbound as [Hle|Hlt]; nia.
Qed.

(** X12.  With an interval that is not negative, a run of the poll loop
    that ends has slept after every request but possibly the last, and
    every request after the first was made while the time waited was
    still under the budget: at most one request is made once
    [(requests - 1) * poll_seconds] reaches [max_wait_seconds]. *)
Theorem poll_loop_request_bound (sleep : Z -> result unit) (remote : nat -> json)
        (poll_seconds max_wait_seconds : Z)
        (fuel : nat) (out : result unit) (log : list event) :
  0 <= poll_seconds ->
  poll_loop sleep fuel remote poll_seconds max_wait_seconds 0 0 [] = Some (out, log) ->
  (sleeps log <= polls log <= sleeps log + 1)%nat /\
  ((polls log <= 1)%nat \/
   (Z.of_nat (polls log) - 1) * poll_seconds < max_wait_seconds).
Proof.
  intros Hp H. apply poll_loop_counts in H as (k & s & Hk & Hs & Hks & Hb); [|exact Hp].
  cbn in Hk, Hs. subst. split; [exact Hks|]. destruct Hb; [left|right]; lia.
Qed.

Lemma poll_loop_request_bound_witness :
  (sleeps sample_log <= polls sample_log <= sleeps sample_log + 1)%nat /\
  ((polls sample_log <= 1)%nat \/ (Z.of_nat (polls sample_log) - 1) * 600 < 21600).
Proof.
  apply (poll_loop_request_bound py_sleep pending_twice 600 21600 3 (Ok tt)); [lia|].
  vm_compute. reflexivity.
Defined.

Lemma poll_loop_stuck sleep remote max fuel : forall n log,
  sleep 0 = Ok tt -> (forall i, pending remote i) -> 0 < max ->
  poll_loop sleep fuel remote 0 max n 0 log = None.
Proof.
  induction fuel as [|fuel IH]; intros n log Hsleep Hpend Hmax; [reflexivity|].
  rewrite poll_loop_round by auto.
  destruct (0 + 0 >=? max) eqn:E.
  - rewrite Z.geb_leb in E. apply Z.leb_le in E. lia.
  - now apply IH.
Qed.

(** X13.  With a poll interval of zero, which [time.sleep] accepts, and
    a positive wait budget, the time waited never grows: while the
    archive stays pending, its answers being plain text, the loop never
    ends, whatever the number of iterations. *)
Theorem zero_interval_never_times_out (sleep : Z -> result unit)
        (remote : nat -> json) (max_wait_seconds : Z) (fuel : nat) :
  sleep 0 = Ok tt ->
  (forall i, pending remote i) ->
  0 < max_wait_seconds ->
  poll_loop sleep fuel remote 0 max_wait_seconds 0 0 [] = None.
Proof. intros. now apply poll_loop_stuck. Qed.

Lemma zero_interval_never_times_out_witness :
  poll_loop py_sleep 1000 (fun _ => status_doc "PENDING") 0 21600 0 0 [] = None.
Proof.
  apply zero_interval_never_times_out; [reflexivity| |lia].
  intros i. exists (JStr "PENDING"), "PENDING". repeat split; discriminate.
Defined.

(** ** The query batch *)

Lemma str_rstrip_idempotent s : str_rstrip (str_rstrip s) = str_rstrip s.
Proof.
  induction s as [|c s IH]; [reflexivity|]. cbn [str_rstrip].
  destruct (str_rstrip s) as [|c' r] eqn:E.
  - destruct (is_space c) eqn:Ec; [reflexivity|].
    cbn [str_rstrip]. now rewrite Ec.
  - cbn [str_rstrip]. cbn [str_rstrip] in IH. rewrite IH. reflexivity.
Qed.

Lemma str_lstrip_head s :
  match str_lstrip s with
  | EmptyString => True
  | String c _ => is_space c = false
  end.
Proof.
  induction s as [|c s IH]; cbn [str_lstrip]; [exact I|].
  destruct (is_space c) eqn:E; [exact IH|exact E].
Qed.

Lemma str_rstrip_head c s :
  is_space c = false -> exists r, str_rstrip (String c s) = String c r.
Proof.
  intros Hc. cbn [str_rstrip]. destruct (str_rstrip s); [rewrite Hc|]; eauto.
Qed.

Lemma str_strip_idempotent s : str_strip (str_strip s) = str_strip s.
Proof.
  unfold str_strip. pose proof (str_lstrip_head s) as Hh.
  destruct (str_lstrip s) as [|c t]; [reflexivity|].
  destruct (str_rstrip_head c t Hh) as [r Hr]. rewrite Hr.
  cbn [str_lstrip]. rewrite Hh, <- Hr. apply str_rstrip_idempotent.
Qed.

Lemma header_row_ok fieldnames r q : header_row fieldnames r = Some q -> query_ok q.
Proof.
  unfold header_row.
  set (name := str_strip _). set (url := str_strip _).
  destruct (name =? "")%string eqn:En; [discriminate|].
  destruct (url =? "")%string eqn:Eu; [discriminate|].
  intros [= <-]. apply String.eqb_neq in En, Eu.
  repeat split; auto; apply str_strip_idempotent.
Qed.

Lemma add_row_ok r q : add_row r = Some q -> query_ok q.
Proof.
  unfold add_row. destruct r as [|c0 [|c1 r]]; try discriminate.
  destruct (str_strip c0 =? "")%string eqn:En; [discriminate|].
  destruct (str_strip c1 =? "")%string eqn:Eu; [discriminate|].
  intros [= <-]. apply String.eqb_neq in En, Eu.
  repeat split; auto; apply str_strip_idempotent.
Qed.

Lemma keep_some_forall {A B} (f : A -> option B) (P : B -> Prop) xs :
  (forall x y, f x = Some y -> P y) -> Forall P (keep_some f xs).
Proof.
  intros H. unfold keep_some. apply Forall_forall. intros y Hy.
  apply in_flat_map in Hy as (x & _ & Hy).
  destruct (f x) as [y'|] eqn:E; [|destruct Hy].
  destruct Hy as [<-|[]]. eauto.
Qed.

Lemma keep_some_length {A B} (f : A -> option B) xs :
  (List.length (keep_some f xs) <= List.length xs)%nat.
Proof.
  unfold keep_some. induction xs as [|x xs IH]; [cbn; lia|].
  cbn [flat_map]. rewrite length_app. cbn [List.length].
  destruct (f x); cbn [List.length]; lia.
Qed.



Lemma dict_get_set {V} k k' (v : V) d :
  dict_get k (dict_set k' v d) = if (k' =? k)%string then Some v else dict_get k d.
Proof.
  induction d as [|[k0 v0] d IH]; cbn [dict_set dict_get]; [reflexivity|].
  destruct (k0 =? k')%string eqn:E0; cbn [dict_get].
  - apply String.eqb_eq in E0. subst k0. now destruct (k' =? k)%string.
  - rewrite IH. destruct (k0 =? k)%string eqn:E1; [|reflexivity].
    apply String.eqb_eq in E1. subst k0. rewrite String.eqb_sym in E0.
    rewrite String.eqb_sym. rewrite String.eqb_sym in E0. now rewrite E0.
Qed.

Lemma mem_str_false x xs : mem_str x xs = false <-> ~ In x xs.
Proof.
  unfold mem_str. split.
  - intros H Hin. assert (existsb (String.eqb x) xs = true); [|congruence].
    apply existsb_exists. exists x. split; [exact Hin|apply String.eqb_refl].
  - intros H. destruct (existsb (String.eqb x) xs) eqn:E; [|reflexivity].
    apply existsb_exists in E as (y & Hy & Exy). apply String.eqb_eq in Exy.
    subst. contradiction.
Qed.

Lemma dict_row_get_none fieldnames r k :
  ~ In k fieldnames -> dict_get k (dict_row fieldnames r) = None.
Proof.
  intros Hk. unfold dict_row.
  assert (Hzip : forall (l : list (string * string)) (d : list (string * option string)),
             (forall kv, In kv l -> In (fst kv) fieldnames) ->
             dict_get k d = None ->
             dict_get k (fold_left (fun d kv => dict_set (fst kv) (Some (snd kv)) d) l d)
             = None).
  { induction l as [|kv l IH]; intros d Hl Hd; cbn [fold_left]; [exact Hd|].
    apply IH; [intros kv' H; apply Hl; now right|].
    rewrite dict_get_set.
    destruct (fst kv =? k)%string eqn:E; [|exact Hd].
    apply String.eqb_eq in E. elim Hk. rewrite <- E. apply Hl. now left. }
  assert (Hrest : forall l d,
             (forall key, In key l -> In key fieldnames) ->
             dict_get k d = None ->
             dict_get k (fold_left (fun d key => dict_set key (@None string) d) l d)
             = None).
  { induction l as [|key l IH]; intros d Hl Hd; cbn [fold_left]; [exact Hd|].
    apply IH; [intros key' H; apply Hl; now right|].
    rewrite dict_get_set.
    destruct (key =? k)%string eqn:E; [|exact Hd].
    apply String.eqb_eq in E. elim Hk. rewrite <- E. apply Hl. now left. }
  assert (H0 : dict_get k
                 (fold_left (fun d kv => dict_set (fst kv) (Some (snd kv)) d)
                            (combine fieldnames r) []) = None).
  { apply Hzip; [|reflexivity]. intros [a b] H. eapply in_combine_l, H. }
  destruct (List.length r <? List.length fieldnames)%nat; [|exact H0].
  apply Hrest; [|exact H0]. intros key H.
  rewrite <- (firstn_skipn (List.length r) fieldnames). apply in_or_app. now right.
Qed.

Lemma header_row_needs_columns fieldnames r :
  ~ In "name" fieldnames \/
  (~ In "search_url" fieldnames /\ ~ In "url" fieldnames) ->
  header_row fieldnames r = None.
Proof.
  intros H. unfold header_row, get_or_empty. destruct H as [H|[H1 H2]].
  - rewrite (dict_row_get_none fieldnames r "name" H). reflexivity.
  - rewrite (dict_row_get_none fieldnames r "search_url" H1).
    rewrite (dict_row_get_none fieldnames r "url" H2).
    cbn. now rewrite andb_false_r.
Qed.

Lemma keep_some_none {A B} (f : A -> option B) xs :
  (forall x, f x = None) -> keep_some f xs = [].
Proof.
  intros H. unfold keep_some. induction xs as [|x xs IH]; [reflexivity|].
  cbn [flat_map]. now rewrite H, IH.
Qed.

(** X15.  The header line is recognised after stripping and lower-casing
    its cells, but the columns are then looked up under the exact keys
    "name", "search_url" and "url": when the first row passes the header
    test without holding "name" itself, or without holding either
    "search_url" or "url" itself, every row is dropped and the call
    raises [ValueError]. *)
Theorem header_keys_are_exact (first : list string) (rest : list (list string)) :
  has_header first = true ->
  mem_str "name" first = false \/
  (mem_str "search_url" first = false /\ mem_str "url" first = false) ->
  read_queries_csv (first :: rest) = Err ValueError.
Proof.
  intros Hh Hmiss. unfold read_queries_csv. rewrite Hh.
  rewrite keep_some_none; [reflexivity|].
  intros r. apply header_row_needs_columns.
  rewrite <- !mem_str_false. exact Hmiss.
Qed.

Lemma header_keys_are_exact_witness :
  read_queries_csv [["Name"; "URL"]; ["potato"; "https://files.jgi.doe.gov/s?q=1"]]
  = Err ValueError.
Proof.
  apply header_keys_are_exact; [reflexivity|]. left. reflexivity.
Defined.

Lemma header_row_canonical url_col r :
  url_col = "search_url" \/ url_col = "url" ->
  header_row ["name"; url_col] r = add_row r.
Proof.
  intros Hcol. destruct r as [|c0 [|c1 r]].
  - destruct Hcol as [-> | ->]; reflexivity.
  - destruct Hcol as [-> | ->]; unfold header_row, add_row, get_or_empty, dict_row;
      cbn; now rewrite andb_false_r.
  - destruct Hcol as [-> | ->]; unfold header_row, add_row, get_or_empty, dict_row;
      cbn; destruct (c1 =? "")%string eqn:E; cbn; try reflexivity;
      apply String.eqb_eq in E; subst; reflexivity.
Qed.

Lemma keep_some_nonempty_rows rest :
  keep_some add_row (filter (fun r => nonempty r) rest) = keep_some add_row rest.
Proof.
  unfold keep_some. induction rest as [|r rest IH]; [reflexivity|].
  cbn [filter flat_map]. destruct r as [|c r]; cbn [nonempty]; [exact IH|].
  cbn [flat_map]. now rewrite IH.
Qed.

(** X16.  Under the header line [name,search_url], or [name,url], the
    rows are read exactly as they are read without header: the header
    line only removes itself. *)
Theorem exact_header_is_transparent (url_col : string) (rest : list (list string)) :
  url_col = "search_url" \/ url_col = "url" ->
  read_queries_csv (["name"; url_col] :: rest)
  = if nonempty (keep_some add_row rest)
    then Ok (keep_some add_row rest) else Err ValueError.
Proof.
  intros Hcol. unfold read_queries_csv.
  assert (Hh : has_header ["name"; url_col] = true)
    by (destruct Hcol as [-> | ->]; reflexivity).
  rewrite Hh.
  assert (Hrows : keep_some (header_row ["name"; url_col])
                            (filter (fun r => nonempty r) rest)
                  = keep_some add_row rest).
  { rewrite <- keep_some_nonempty_rows. unfold keep_some.
    apply flat_map_ext. intros r. now rewrite header_row_canonical. }
  now rewrite Hrows.
Qed.

Lemma exact_header_is_transparent_witness :
  read_queries_csv [["name"; "url"]; []; ["potato"; "u1"; "note"]; ["tomato"]]
  = Ok [("potato", "u1")].
Proof.
  apply (exact_header_is_transparent "url"). right. reflexivity.
Defined.

(** ** Malformed answers *)

(** X17.  A search response whose [organisms] value counts as true but
    is not a list is never read as an empty result: the parse raises
    [TypeError] for a number or [true], and [AttributeError] for a
    string or an object. *)
Theorem organisms_must_be_a_list (fnmatch : string -> string -> bool)
        (include_globs exclude_globs : list string)
        (d : list (string * json)) (v : json) :
  assoc "organisms" d = Some v ->
  truthy v = true ->
  (forall l, v <> JList l) ->
  parse_search fnmatch (JDict d) include_globs exclude_globs
  = Err (match v with
         | JStr _ | JDict _ => AttributeError
         | _ => TypeError
         end).
Proof.
  intros Hv Ht Hlist. unfold parse_search, parse_loops, py_get_default.
  rewrite Hv. cbn [bind]. rewrite (py_or_truthy _ _ Ht).
  destruct v as [| b | n | s | l | d']; try reflexivity.
  - destruct s as [|c s]; [discriminate Ht|]. reflexivity.
  - now elim (Hlist l).
  - destruct d' as [|[k x] d']; [discriminate Ht|]. reflexivity.
Qed.

Lemma organisms_must_be_a_list_witness :
  parse_search fnmatch_plain (JDict [("organisms", JStr "none")]) ["*.gz"] []
  = Err AttributeError.
Proof.
  apply (organisms_must_be_a_list fnmatch_plain ["*.gz"] []
           [("organisms", JStr "none")] (JStr "none")).
  - reflexivity.
  - reflexivity.
  - discriminate.
Defined.

(** X18.  When some selected row has the status PURGED and the answer to
    the restore request holds no status location under either key, the
    turn of the loop of [main] ends with [RuntimeError] before any status
    request, whatever the number of iterations allowed. *)
Theorem missing_status_location_is_fatal
        (fnmatch : string -> string -> bool) (sleep : Z -> result unit)
        (latest_only : bool) (include_globs exclude_globs : list string)
        (poll_seconds max_wait_seconds : Z) (fuel : nat) (q : query_input)
        (rows : list row) (ids purged : pydict) (w : bool) (r : row)
        (d : list (string * json)) :
  select_files fnmatch latest_only (q_search q) include_globs exclude_globs
  = Ok (rows, ids, purged, w) ->
  In r rows -> purged_row r ->
  q_restore q = JDict d ->
  truthy (field "request_status_url" d) = false ->
  truthy (field "requestStatusUrl" d) = false ->
  process_query fnmatch sleep latest_only include_globs exclude_globs
                poll_seconds max_wait_seconds fuel q
  = Some (Err (RuntimeError no_status_url_msg)).
Proof.
  intros Hsel Hr Hp Hd Hu1 Hu2. unfold process_query. rewrite Hsel.
  pose proof (select_files_maps _ _ _ _ _ _ _ _ _ Hsel) as Hmaps.
  assert (Hn : n_selected rows <> 0%nat).
  { rewrite n_selected_zero. intros Hnone. destruct Hp as [Hs _].
    rewrite (Hnone r Hr) in Hs. discriminate. }
  apply Nat.eqb_neq in Hn. rewrite Hn.
  assert (Hpurged : purged <> []).
  { rewrite (maps_of_empty_purged _ _ _ Hmaps), n_purged_zero.
    intros Hnone. elim (Hnone r Hr Hp). }
  unfold ensure_restored. destruct purged as [|e purged]; [congruence|].
  cbn [nonempty negb]. rewrite Hd. cbn [py_get bind].
  fold (field "request_status_url" d). rewrite Hu1.
  fold (field "requestStatusUrl" d). now rewrite Hu2.
Qed.

Lemma missing_status_location_is_fatal_witness :
  process_query fnmatch_plain py_sleep true sample_include sample_exclude 600 21600 0
                (mkQuery sample_search (JDict [("message", JStr "queued")])
                         pending_twice)
  = Some (Err (RuntimeError no_status_url_msg)).
Proof.
  eapply (missing_status_location_is_fatal
            fnmatch_plain py_sleep true sample_include sample_exclude 600 21600 0 _
            sample_rows_latest [(JStr "ds1", [JStr "b"])] [(JStr "ds1", [JStr "b"])]
            false
            (mkRow (JStr "ds1") (JStr "b") (JStr "x.gff.gz") "PURGED" (Some 13) true)).
  - vm_compute. reflexivity.
  - right. left. reflexivity.
  - split; reflexivity.
  - reflexivity.
  - reflexivity.
  - reflexivity.
Defined.

(** ** What the globs and the unselected rows cannot change *)

Lemma for_each_two_runs {S1 S2 A} (body1 : S1 -> A -> result S1)
      (body2 : S2 -> A -> result S2) (R : S1 -> S2 -> Prop)
      (Hstep : forall s1 s2 x s1' s2',
          body1 s1 x = Ok s1' -> body2 s2 x = Ok s2' -> R s1 s2 -> R s1' s2') xs :
  forall s1 s2 s1' s2',
    for_each body1 xs s1 = Ok s1' -> for_each body2 xs s2 = Ok s2' ->
    R s1 s2 -> R s1' s2'.
Proof.
  induction xs as [|x xs IH]; intros s1 s2 s1' s2'; cbn [for_each].
  - now intros [= <-] [= <-].
  - intros H1 H2 HR.
    apply bind_ok in H1 as (t1 & E1 & H1). apply bind_ok in H2 as (t2 & E2 & H2).
    eapply IH; eauto.
Qed.

Lemma file_step_without_globs fnmatch inc exc ds st1 st2 f st1' st2' :
  file_step fnmatch inc exc ds st1 f st1' ->
  file_step fnmatch [] [] ds st2 f st2' ->
  manifest_rows st2 = map (set_selected true) (manifest_rows st1) ->
  manifest_rows st2' = map (set_selected true) (manifest_rows st1').
Proof.
  intros [d1 Hf1 Hskip1|d1 status1 sel1 h1 ids1 purged1 Hf1 Hid1 Hn1 Hst1 _ Hh1 _]
         [d2 Hf2 Hskip2|d2 status2 sel2 h2 ids2 purged2 Hf2 Hid2 Hn2 Hst2 Hsel2 Hh2 _] HR;
    try exact HR.
  - rewrite Hf1 in Hf2. injection Hf2 as <-.
    destruct Hskip1; congruence.
  - rewrite Hf1 in Hf2. injection Hf2 as <-.
    destruct Hskip2; congruence.
  - rewrite Hf1 in Hf2. injection Hf2 as <-.
    cbn [manifest_rows]. rewrite map_app, HR. cbn [map]. unfold set_selected.
    cbn. cbn in Hsel2. injection Hsel2 as <-.
    rewrite Hst1 in Hst2. injection Hst2 as <-.
    rewrite Hh1 in Hh2. injection Hh2 as <-. reflexivity.
Qed.

(** X19.  The globs decide the [selected] flags and nothing else in the
    manifest: parsed with any globs and parsed with none, the same
    response gives the same rows up to that flag. *)
Theorem globs_only_set_flags (fnmatch : string -> string -> bool) (search_json : json)
        (include_globs exclude_globs : list string)
        (rows rows0 : list row) (ids ids0 purged purged0 : pydict) :
  parse_search fnmatch search_json include_globs exclude_globs
  = Ok (rows, ids, purged) ->
  parse_search fnmatch search_json [] [] = Ok (rows0, ids0, purged0) ->
  rows0 = map (set_selected true) rows.
Proof.
  unfold parse_search. intros H1 H2.
  apply bind_ok in H1 as (st1 & L1 & H1). apply bind_ok in H2 as (st2 & L2 & H2).
  apply bind_ok in H1 as (i1 & _ & H1). apply bind_ok in H2 as (i2 & _ & H2).
  apply bind_ok in H1 as (p1 & _ & H1). apply bind_ok in H2 as (p2 & _ & H2).
  injection H1 as <- _ _. injection H2 as <- _ _.
  unfold parse_loops in L1, L2.
  apply bind_ok in L1 as (o1 & Eo1 & L1). apply bind_ok in L2 as (o2 & Eo2 & L2).
  rewrite Eo1 in Eo2. injection Eo2 as <-.
  apply bind_ok in L1 as (orgs & Ei1 & L1). apply bind_ok in L2 as (orgs2 & Ei2 & L2).
  rewrite Ei1 in Ei2. injection Ei2 as <-.
  apply (for_each_two_runs
           (parse_org fnmatch include_globs exclude_globs) (parse_org fnmatch [] [])
           (fun s1 s2 => manifest_rows s2 = map (set_selected true) (manifest_rows s1)))
    with (xs := orgs) (s1 := mkState [] [] []) (s2 := mkState [] [] []);
    [|exact L1|exact L2|reflexivity].
  intros s1 s2 org s1' s2' O1 O2 HR. unfold parse_org in O1, O2.
  apply bind_ok in O1 as (ds & Eds & O1). apply bind_ok in O2 as (ds2 & Eds2 & O2).
  rewrite Eds in Eds2. injection Eds2 as <-.
  destruct (truthy ds); cbn [negb] in O1, O2.
  - apply bind_ok in O1 as (f0 & Ef0 & O1). apply bind_ok in O2 as (f02 & Ef02 & O2).
    rewrite Ef0 in Ef02. injection Ef02 as <-.
    apply bind_ok in O1 as (files & Efs & O1). apply bind_ok in O2 as (files2 & Efs2 & O2).
    rewrite Efs in Efs2. injection Efs2 as <-.
    apply (for_each_two_runs
             (parse_file fnmatch include_globs exclude_globs ds)
             (parse_file fnmatch [] [] ds)
             (fun s1 s2 => manifest_rows s2 = map (set_selected true) (manifest_rows s1)))
      with (xs := files) (s1 := s1) (s2 := s2); [|exact O1|exact O2|exact HR].
    intros t1 t2 f t1' t2' F1 F2. apply parse_file_step in F1, F2.
    eapply file_step_without_globs; eauto.
  - injection O1 as <-. injection O2 as <-. exact HR.
Qed.

Lemma globs_only_set_flags_witness :
  map (set_selected true) sample_rows = map (set_selected true) sample_rows.
Proof.
  symmetry.
  apply (globs_only_set_flags
           fnmatch_plain sample_search sample_include sample_exclude
           sample_rows (map (set_selected true) sample_rows)
           [(JStr "ds1", [JStr "a"; JStr "b"; JStr "e"])]
           [(JStr "ds1", [JStr "a"; JStr "b"; JStr "d"; JStr "e"])]
           [(JStr "ds1", [JStr "b"])]
           [(JStr "ds1", [JStr "b"])]);
    vm_compute; reflexivity.
Defined.

Lemma rebuild_loop_selected_only rows : forall st,
  for_each rebuild_row (filter selected rows) st = for_each rebuild_row rows st.
Proof.
  induction rows as [|r rows IH]; intros st; [reflexivity|].
  cbn [filter]. destruct (selected r) eqn:Es; cbn [for_each].
  - destruct (rebuild_row st r); cbn [bind]; [apply IH|reflexivity].
  - unfold rebuild_row at 2. rewrite Es. cbn [negb bind]. apply IH.
Qed.

(** X20.  The rows that are not selected have no part in the selection
    maps: rebuilt from the selected rows alone, the maps are the same,
    and so is any exception. *)
Theorem unselected_rows_are_ignored (rows : list row) :
  rebuild_selected_maps (filter selected rows) = rebuild_selected_maps rows.
Proof.
  unfold rebuild_selected_maps. now rewrite rebuild_loop_selected_only.
Qed.
